(** * iris-cli: declaration parser ([utils/go.go]) and archive materializer
      ([Project.unzip])

    A shallow embedding of the two Go files of the repository, and the
    properties of them that the specification states.

    Go byte slices and strings are lists of bytes; Go's [int] indexes are
    [Z] (with [-1] for "not found"), slicing is [firstn]/[skipn]. *)

From Stdlib Require Import Ascii String.
From Stdlib Require Import List ZArith NArith Lia Bool.
Import ListNotations.

Set Implicit Arguments.
Open Scope Z_scope.

(** ** Bytes *)

Definition byte := ascii.
Definition bytes := list byte.

(** A string literal as its bytes. *)
Definition lit (s : string) : bytes := list_ascii_of_string s.

Definition byte_of (n : N) : byte := ascii_of_N n.
Definition byte_val (c : byte) : N := N_of_ascii c.

Definition len (s : bytes) : Z := Z.of_nat (length s).

(** [s[:i]] and [s[i:]]. *)
Definition upto (s : bytes) (i : Z) : bytes := firstn (Z.to_nat i) s.
Definition from (s : bytes) (i : Z) : bytes := skipn (Z.to_nat i) s.

(** ** Package [bytes] of the Go standard library *)

Module Bytes.

(** [bytes.HasPrefix]. *)
Fixpoint HasPrefix (s prefix : bytes) {struct prefix} : bool :=
  match prefix, s with
  | [], _ => true
  | p :: ps, c :: cs => Ascii.eqb c p && HasPrefix cs ps
  | _ :: _, [] => false
  end.

(** [bytes.Equal]: a nil slice and an empty one are equal. *)
Fixpoint Equal (a b : bytes) : bool :=
  match a, b with
  | [], [] => true
  | x :: a', y :: b' => Ascii.eqb x y && Equal a' b'
  | _, _ => false
  end.

(** Position of the first occurrence of [sep] in [s]. *)
Fixpoint indexOf (s sep : bytes) : option nat :=
  if HasPrefix s sep then Some 0%nat
  else match s with
       | [] => None
       | _ :: t => option_map S (indexOf t sep)
       end.

(** [bytes.Index]: [-1] when [sep] does not occur. *)
Definition Index (s sep : bytes) : Z :=
  match indexOf s sep with
  | Some i => Z.of_nat i
  | None => -1
  end.

(** [bytes.IndexByte]. *)
Definition IndexByte (s : bytes) (c : byte) : Z := Index s [c].

End Bytes.

(** ** Unicode white space, UTF-8 encoded

    [bytes.TrimSpace] slices off the leading and the trailing white space
    "as defined by Unicode" ([unicode.IsSpace]): U+0009..U+000D, U+0020,
    U+0085, U+00A0, U+1680, U+2000..U+200A, U+2028, U+2029, U+202F, U+205F
    and U+3000.  A byte sequence that is not valid UTF-8 decodes to U+FFFD,
    which is no white space, so only the well-formed encodings of these
    code points are trimmed. *)

Module Space.

Definition isb (c : byte) (n : N) : bool := N.eqb (byte_val c) n.
Definition within (c : byte) (lo hi : N) : bool :=
  N.leb lo (byte_val c) && N.leb (byte_val c) hi.

(** ['\t', '\n', '\v', '\f', '\r', ' ']. *)
Definition ascii1 (c : byte) : bool := within c 9 13 || isb c 32.

(** U+0085 = C2 85, U+00A0 = C2 A0. *)
Definition utf2 (c0 c1 : byte) : bool :=
  isb c0 194 && (isb c1 133 || isb c1 160).

(** U+1680 = E1 9A 80; U+2000..U+200A = E2 80 80..8A; U+2028, U+2029,
    U+202F = E2 80 A8, A9, AF; U+205F = E2 81 9F; U+3000 = E3 80 80. *)
Definition utf3 (c0 c1 c2 : byte) : bool :=
  (isb c0 225 && isb c1 154 && isb c2 128)
  || (isb c0 226 && isb c1 128
      && (within c2 128 138 || isb c2 168 || isb c2 169 || isb c2 175))
  || (isb c0 226 && isb c1 129 && isb c2 159)
  || (isb c0 227 && isb c1 128 && isb c2 128).

(** Width in bytes of the white-space rune [s] starts with, [0] when it
    starts with none. *)
Definition width (s : bytes) : nat :=
  match s with
  | [] => 0
  | c0 :: t0 =>
      if ascii1 c0 then 1
      else match t0 with
           | [] => 0
           | c1 :: t1 =>
               if utf2 c0 c1 then 2
               else match t1 with
                    | [] => 0
                    | c2 :: _ => if utf3 c0 c1 c2 then 3 else 0
                    end
           end
  end%nat.

(** The same for the white-space rune [s] ends with, read off the reversed
    slice. *)
Definition widthRev (r : bytes) : nat :=
  match r with
  | [] => 0
  | c0 :: t0 =>
      if ascii1 c0 then 1
      else match t0 with
           | [] => 0
           | c1 :: t1 =>
               if utf2 c1 c0 then 2
               else match t1 with
                    | [] => 0
                    | c2 :: _ => if utf3 c2 c1 c0 then 3 else 0
                    end
           end
  end%nat.

(** Drop runes from the front for as long as [w] finds one. *)
Fixpoint strip (w : bytes -> nat) (fuel : nat) (s : bytes) : bytes :=
  match fuel with
  | O => s
  | S fuel' =>
      match w s with
      | O => s
      | n => strip w fuel' (skipn n s)
      end
  end.

(** [bytes.TrimLeftFunc(s, unicode.IsSpace)] and
    [bytes.TrimRightFunc(s, unicode.IsSpace)]. *)
Definition TrimLeft (s : bytes) : bytes := strip width (length s) s.
Definition TrimRight (s : bytes) : bytes :=
  rev (strip widthRev (length s) (rev s)).

End Space.

(** [bytes.TrimSpace]: [TrimRightFunc(TrimLeftFunc(s, IsSpace), IsSpace)]. *)
Definition TrimSpace (s : bytes) : bytes :=
  Space.TrimRight (Space.TrimLeft s).

(** ** [utils/go.go]: the declaration parser *)

Definition newline : byte := byte_of 10.
Definition dquote : byte := byte_of 34.
Definition backquote : byte := byte_of 96.

Definition slashSlash : bytes := lit "//".
Definition multilineCommentStart : bytes := lit "/*".
Definition multilineCommentEnd : bytes := lit "*/".
Definition moduleBytes : bytes := lit "module".
Definition pkgBytes : bytes := lit "package".

(** What one pass through the body of the [for] loop ends in: [continue]
    with the rest of the text, or [return] ([None] is Go's [nil]). *)
Inductive outcome : Type :=
  | Continue (b : bytes)
  | Return (r : option bytes).

Section Parser.

(** [strconv.Unquote] of the Go standard library; [None] stands for its
    error result.  The parser uses its result as it comes, so it stays a
    parameter. *)
Variable Unquote : bytes -> option bytes.

(** The first line of [b] and what follows its line feed:
    [if i := bytes.IndexByte(line, '\n'); i >= 0 { line, b = line[:i], line[i+1:] }]
    after [line := b; b = nil]. *)
Definition splitLine (b : bytes) : bytes * bytes :=
  let line := b in
  let b := [] in
  let i := Bytes.IndexByte line newline in
  if 0 <=? i then (upto line i, from line (i + 1)) else (line, b).

(** [if i := bytes.Index(line, slashSlash); i >= 0 { line = line[:i] }]. *)
Definition stripLineComment (line : bytes) : bytes :=
  let i := Bytes.Index line slashSlash in
  if 0 <=? i then upto line i else line.

(** The body of the loop of [parseDeclaration], entered with
    [len(b) > 0]. *)
Definition parseLine (b declaration : bytes) : outcome :=
  let '(line, b) := splitLine b in
  let line := stripLineComment line in
  if 0 <=? Bytes.Index line multilineCommentStart then
    (* skip /* */ comment lines. *)
    let i := Bytes.Index b multilineCommentEnd in
    Continue (if 0 <? i then from b i else b)
  else
    let line := TrimSpace line in
    if negb (Bytes.HasPrefix line declaration) then Continue b
    else
      let line := from line (len declaration) in
      let n := len line in
      let line := TrimSpace line in
      if (len line =? n) || (len line =? 0) then Continue b
      else
        match line with
        | c :: _ =>
            if Ascii.eqb c dquote || Ascii.eqb c backquote then
              match Unquote line with
              | None => Return None (* malformed quoted string or multiline string *)
              | Some p => Return (Some p)
              end
            else Return (Some line)
        | [] => Return None (* not reached: [len(line) != 0] *)
        end.

(** [for len(b) > 0 { ... }; return nil].  Every [continue] leaves a
    shorter [b], so [length b] passes are enough. *)
Fixpoint parseLoop (fuel : nat) (b declaration : bytes) : option bytes :=
  match fuel with
  | O => None
  | S fuel' =>
      match b with
      | [] => None
      | _ :: _ =>
          match parseLine b declaration with
          | Continue b' => parseLoop fuel' b' declaration
          | Return r => r
          end
      end
  end.

Definition parseDeclaration (b declaration : bytes) : option bytes :=
  parseLoop (length b) b declaration.

(** [ModulePath] returns the module declaration of a go.mod file. *)
Definition ModulePath (b : bytes) : option bytes :=
  parseDeclaration b moduleBytes.

(** [Package] returns the package declaration of a source file. *)
Definition Package (b : bytes) : option bytes :=
  parseDeclaration b pkgBytes.

End Parser.

(** ** Package [unicode/utf8] *)

Module Utf8.

Definition RuneError : N := 65533. (* U+FFFD *)
Definition RuneSelf : N := 128.

(** The table [first]: information about the first byte of an encoding;
    [as] = 0xF0 (ASCII), [xx] = 0xF1 (invalid), otherwise the size in the
    low three bits and the index of the accept range above them. *)
Definition first (p0 : N) : N :=
  (if p0 <? 128 then 240        (* as *)
   else if p0 <? 194 then 241   (* xx *)
   else if p0 <? 224 then 2     (* s1 *)
   else if p0 =? 224 then 19    (* s2 *)
   else if p0 <? 237 then 3     (* s3 *)
   else if p0 =? 237 then 35    (* s4 *)
   else if p0 <? 240 then 3     (* s3 *)
   else if p0 =? 240 then 52    (* s5 *)
   else if p0 <? 244 then 4     (* s6 *)
   else if p0 =? 244 then 68    (* s7 *)
   else 241)%N.                 (* xx *)

(** [acceptRanges]: the range of valid values of the second byte. *)
Definition acceptRanges (i : N) : N * N :=
  (match i with
   | 0 => (128, 191)
   | 1 => (160, 191)
   | 2 => (128, 159)
   | 3 => (144, 191)
   | 4 => (128, 143)
   | _ => (0, 0)
   end)%N.

Definition at_ (p : bytes) (i : nat) : N := byte_val (nth i p zero).

(** [utf8.DecodeRune]: the first rune of [p] and its width in bytes;
    [(RuneError, 1)] for an invalid encoding, [(RuneError, 0)] for the
    empty slice. *)
Definition DecodeRune (p : bytes) : N * nat :=
  (match p with
   | [] => (RuneError, 0%nat)
   | c0 :: _ =>
       let p0 := byte_val c0 in
       let x := first p0 in
       if 240 <=? x then ((if N.odd x then RuneError else p0), 1%nat)
       else
         let sz := N.land x 7 in
         let accept := acceptRanges (N.shiftr x 4) in
         if N.of_nat (length p) <? sz then (RuneError, 1%nat)
         else
           let b1 := at_ p 1 in
           if (b1 <? fst accept) || (snd accept <? b1) then (RuneError, 1%nat)
           else if sz <=? 2 then
             (N.lor (N.shiftl (N.land p0 31) 6) (N.land b1 63), 2%nat)
           else
             let b2 := at_ p 2 in
             if (b2 <? 128) || (191 <? b2) then (RuneError, 1%nat)
             else if sz <=? 3 then
               (N.lor (N.lor (N.shiftl (N.land p0 15) 12)
                             (N.shiftl (N.land b1 63) 6))
                      (N.land b2 63), 3%nat)
             else
               let b3 := at_ p 3 in
               if (b3 <? 128) || (191 <? b3) then (RuneError, 1%nat)
               else
                 (N.lor (N.lor (N.lor (N.shiftl (N.land p0 7) 18)
                                      (N.shiftl (N.land b1 63) 12))
                               (N.shiftl (N.land b2 63) 6))
                        (N.land b3 63), 4%nat)
   end)%N.

(** The runes of [p], each as its own bytes. *)
Fixpoint runes (fuel : nat) (p : bytes) : list bytes :=
  match fuel with
  | O => []
  | S fuel' =>
      match p with
      | [] => []
      | _ :: _ =>
          let wid := snd (DecodeRune p) in
          firstn wid p :: runes fuel' (skipn wid p)
      end
  end.

(** [utf8.RuneCount]: invalid bytes count as runes of width one. *)
Definition RuneCount (p : bytes) : nat := length (runes (length p) p).

End Utf8.

Module Replace.

(** [bytes.Count]: the non-overlapping occurrences of [sep] in [s]; for an
    empty [sep], the number of runes of [s] plus one. *)
Fixpoint countFrom (fuel : nat) (s sep : bytes) : nat :=
  match fuel with
  | O => O
  | S fuel' =>
      let i := Bytes.Index s sep in
      if i <? 0 then O
      else S (countFrom fuel' (from s (i + len sep)) sep)
  end.

Definition Count (s sep : bytes) : nat :=
  match sep with
  | [] => S (Utf8.RuneCount s)
  | _ :: _ => countFrom (length s) s sep
  end.

(** The loop of [bytes.Replace], [n] replacements to go in [s[start:]];
    [later] is [i > 0]. *)
Fixpoint replaceLoop (n : nat) (later : bool) (s old new : bytes) : bytes :=
  match n with
  | O => s
  | S n' =>
      let j :=
        match old with
        | [] => if later then Z.of_nat (snd (Utf8.DecodeRune s)) else 0
        | _ :: _ => Bytes.Index s old
        end in
      upto s j ++ new ++ replaceLoop n' true (from s (j + len old)) old new
  end.

(** [bytes.Replace(s, old, new, n)] and [strings.Replace]: the first [n]
    non-overlapping instances of [old] replaced by [new], all of them when
    [n < 0].  An empty [old] matches at the beginning of the slice and
    after each UTF-8 sequence. *)
Definition Replace (s old new : bytes) (n : Z) : bytes :=
  let m := if n =? 0 then O else Count s old in
  match m with
  | O => s
  | S _ =>
      let n := if (n <? 0) || (Z.of_nat m <? n) then m else Z.to_nat n in
      replaceLoop n false s old new
  end.

(** [bytes.ReplaceAll]. *)
Definition ReplaceAll (s old new : bytes) : bytes := Replace s old new (-1).

End Replace.

(** ** Package [path/filepath], on Unix *)

Module Filepath.

Definition Separator : byte := byte_of 47. (* '/' *)
Definition dot : bytes := lit ".".
Definition dotdot : bytes := lit "..".

Definition IsPathSeparator (c : byte) : bool := Ascii.eqb c Separator.

(** The elements of a path: the text between its separators. *)
Fixpoint split (path : bytes) : list bytes :=
  match path with
  | [] => [[]]
  | c :: t =>
      if IsPathSeparator c then [] :: split t
      else match split t with
           | e :: es => (c :: e) :: es
           | [] => [[c]]
           end
  end.

(** [strings.Join(elem, "/")]. *)
Fixpoint join (elem : list bytes) : bytes :=
  match elem with
  | [] => []
  | [e] => e
  | e :: es => e ++ Separator :: join es
  end.

(** One element of the path read by [Clean]; [out] holds the elements
    kept so far, the last one first.  Empty and [.] elements are dropped, a
    [..] element removes the element before it, is dropped at the root of a
    rooted path, and is kept at the start of a path that is not rooted. *)
Definition cleanElem (rooted : bool) (out : list bytes) (e : bytes)
  : list bytes :=
  if Bytes.Equal e [] || Bytes.Equal e dot then out
  else if Bytes.Equal e dotdot then
    match out with
    | top :: below => if Bytes.Equal top dotdot then e :: out else below
    | [] => if rooted then [] else [e]
    end
  else e :: out.

(** [filepath.Clean]: the shortest path name equivalent to [path] by purely
    lexical processing, by the rules of its documentation: multiple
    separators become one, [.] elements go, an inner [..] element goes
    with the element before it, [..] elements that begin a rooted path go;
    [.] for the empty result.  The library works on the bytes of the path
    with a write index; here the path is taken element by element. *)
Definition Clean (path : bytes) : bytes :=
  match path with
  | [] => dot
  | c :: _ =>
      let rooted := IsPathSeparator c in
      let out := fold_left (cleanElem rooted) (split path) [] in
      let body := join (rev out) in
      if rooted then Separator :: body
      else match body with
           | [] => dot
           | _ :: _ => body
           end
  end.

(** [filepath.Join]: the elements from the first non-empty one on, joined
    with the separator and cleaned; the empty string when there is none. *)
Fixpoint Join (elem : list bytes) : bytes :=
  match elem with
  | [] => []
  | [] :: es => Join es
  | (_ :: _) :: _ => Clean (join elem)
  end.

(** Strip the trailing separators. *)
Definition stripTrailing (path : bytes) : bytes :=
  rev (Space.strip (fun r => match r with
                             | c :: _ => if IsPathSeparator c then 1%nat else O
                             | [] => O
                             end) (length path) (rev path)).

(** The text after the last separator, and the text up to and with it. *)
Definition lastElem (path : bytes) : bytes := last (split path) [].
Definition upToLast (path : bytes) : bytes :=
  firstn (length path - length (lastElem path)) path.

(** [filepath.Base]: the last element of [path]. *)
Definition Base (path : bytes) : bytes :=
  match path with
  | [] => dot
  | _ :: _ =>
      match lastElem (stripTrailing path) with
      | [] => [Separator] (* it had only slashes *)
      | e => e
      end
  end.

(** [filepath.Dir]: all but the last element of [path], cleaned. *)
Definition Dir (path : bytes) : bytes := Clean (upToLast path).

(** [filepath.IsAbs]. *)
Definition IsAbs (path : bytes) : bool := Bytes.HasPrefix path [Separator].

End Filepath.

(** ** Errors, the operating system and the archive *)

Inductive error : Type :=
  | ErrIllegalPath (fpath : bytes) (* [fmt.Errorf("illegal path: %s", fpath)] *)
  | ErrZip (code : N)              (* an error of [archive/zip] *)
  | ErrOS (code : N)               (* an error of [os], [io] or [ioutil] *)
  | ErrHTTP (code : N).            (* an error of [net/http] or [compress/gzip] *)

(** A Go result [(T, error)]. *)
Definition result (A : Type) : Type := (error + A)%type.

(** The calls of [unzip] that change the file system.  Each answers with
    [nil] ([None]) or an error. *)
Inductive call : Type :=
  | MkdirAll (path : bytes) (perm : N)
  | OpenFile (name : bytes) (perm : N) (* [O_WRONLY|O_CREATE|O_TRUNC] *)
  | Copy (name : bytes) (data : bytes) (* [io.Copy] into the file opened as [name] *)
  | Close (name : bytes)
  | RemoveAll (path : bytes)
  | Rename (oldpath newpath : bytes).

(** A computation that issues calls and goes on with their answers. *)
Inductive prog (A : Type) : Type :=
  | Ret (a : A)
  | Do (c : call) (k : option error -> prog A).

Arguments Ret {A} a.
Arguments Do {A} c k.

Fixpoint bind {A B : Type} (m : prog A) (f : A -> prog B) : prog B :=
  match m with
  | Ret a => f a
  | Do c k => Do c (fun r => bind (k r) f)
  end.

Notation "x <- m ;; f" := (bind m (fun x => f))
  (at level 61, m at next level, right associativity).

Definition exec (c : call) : prog (option error) := Do c Ret.

(** Running a computation against a file system [W] whose calls [os]
    answers; the calls and their answers are recorded in order. *)
Definition event : Type := (call * option error)%type.

Section Run.
Variable W : Type.
Variable os : call -> W -> option error * W.

Fixpoint run {A : Type} (m : prog A) (w : W) : A * W * list event :=
  match m with
  | Ret a => (a, w, [])
  | Do c k =>
      let '(r, w1) := os c w in
      let '(a, w2, t) := run (k r) w1 in
      (a, w2, (c, r) :: t)
  end.
End Run.

(** [runs m t a]: in some file system, [m] issues the calls of [t], gets
    their answers, and ends with [a]. *)
Inductive runs {A : Type} : prog A -> list event -> A -> Prop :=
  | runs_Ret a : runs (Ret a) [] a
  | runs_Do c k r t a : runs (k r) t a -> runs (Do c k) ((c, r) :: t) a.

(** The process environment [unzip] reads. *)
Record Env : Type := {
  GOPATH : bytes;         (* [os.Getenv("GOPATH")] *)
  Getwd : result bytes    (* [os.Getwd()] *)
}.

(** [filepath.Abs]. *)
Definition Abs (env : Env) (path : bytes) : result bytes :=
  if Filepath.IsAbs path then inr (Filepath.Clean path)
  else match Getwd env with
       | inl err => inl err
       | inr wd => inr (Filepath.Join [wd; path])
       end.

Module Zip.

(** [fs.ModeDir] and [os.ModePerm]. *)
Definition ModeDir : N := N.shiftl 1 31.
Definition ModePerm : N := 511. (* 0777 *)

(** What reading the entry delivers: an error of [Open], or the bytes that
    come before the end of the stream or before a read error. *)
Definition stream : Type := result (bytes * option error).

(** [zip.File]: an entry of the archive. *)
Record File : Type := {
  Name : bytes;
  Mode : N;        (* [f.Mode()], an [fs.FileMode] *)
  Open : stream    (* [f.Open()] and the reads that follow *)
}.

(** [f.FileInfo().IsDir()]. *)
Definition IsDir (f : File) : bool := N.testbit (Mode f) 31.

End Zip.

(** [ioutil.ReadAll]. *)
Definition ReadAll (rc : bytes * option error) : result bytes :=
  match rc with
  | (_, Some err) => inl err
  | (data, None) => inr data
  end.

(** Modelled from the spec: [utils.NoOpReadCloser] is not among the
    sources.  Section 4.2, step 6 has the substituted bytes written as they
    are, so the reader it wraps delivers [data] and its [Close] does
    nothing. *)
Definition NoOpReadCloser (data : bytes) : bytes * option error :=
  (data, None).

(** ** [utils/go.go]: [TryFindPackage] *)

Module Strings.

(** [strings.HasSuffix]:
    [len(s) >= len(suffix) && s[len(s)-len(suffix):] == suffix]. *)
Definition HasSuffix (s suffix : bytes) : bool :=
  (len suffix <=? len s)
  && Bytes.Equal (from s (len s - len suffix)) suffix.

End Strings.

Module Os.

(** [os.FileInfo], as far as the loop over a directory looks at it. *)
Record FileInfo : Type := {
  Name : bytes;
  IsDir : bool
}.

End Os.

(** The file system as [TryFindPackage] reads it. *)
Record Disk : Type := {
  Readdir : bytes -> result (list Os.FileInfo); (* [os.Open(dir)], then
                                                   [d.Readdir(-1)] *)
  ReadFile : bytes -> result bytes              (* [ioutil.ReadFile] *)
}.

Section Finder.

Variable Unquote : bytes -> option bytes.

(** [utils.Ext] is not among the sources.  [TryFindPackage] looks only at
    whether its result is empty, so it stays a parameter. *)
Variable Ext : bytes -> bytes.

Variable disk : Disk.

(** The loop [for _, f := range files], entered with the named result
    [pkg]. *)
Fixpoint rangeFiles (dir ignoreFilename : bytes) (files : list Os.FileInfo)
    (pkg : option bytes) : option bytes :=
  match files with
  | [] => pkg
  | f :: rest =>
      if Os.IsDir f then (* read from the first level of directory only. *)
        rangeFiles dir ignoreFilename rest pkg
      else
        let fileName := Os.Name f in
        if Bytes.Equal ignoreFilename fileName then
          rangeFiles dir ignoreFilename rest pkg
        else if negb (Strings.HasSuffix fileName (lit ".go")) then
          (* read only go files. *)
          rangeFiles dir ignoreFilename rest pkg
        else
          let fpath := Filepath.Join [dir; fileName] in
          match ReadFile disk fpath with
          | inr b =>
              let pkg := Package Unquote b in
              match pkg with
              | Some (_ :: _) => pkg (* [len(pkg) > 0]: break *)
              | _ => rangeFiles dir ignoreFilename rest pkg
              end
          | inl _ => rangeFiles dir ignoreFilename rest pkg
          end
  end.

(** [TryFindPackage] returns a go package based on the dir; [None] is the
    nil slice. *)
Definition TryFindPackage (dir : bytes) : option bytes :=
  let ignoreFilename := [] in
  let '(ignoreFilename, dir) :=
    if negb (Bytes.Equal (Ext dir) []) then
      (* before change it to dir, take the filename so we can ignore the
         current file's package name if exists. *)
      (Filepath.Base dir, Filepath.Dir dir)
    else (ignoreFilename, dir) in
  match Readdir disk dir with
  | inl _ => None
  | inr files => rangeFiles dir ignoreFilename files None
  end.

End Finder.

(** ** [project.go] *)

Record Project : Type := {
  Repo : bytes;    (* e.g. "github.com/iris-contrib/project1" *)
  Branch : bytes;  (* if empty then set to "master" *)
  Dest : bytes;    (* if empty then $GOPATH+Module or ./+Module *)
  Module : bytes   (* if empty then set to the remote module name fetched
                      from go.mod *)
}.

Definition New (dest repo : bytes) : Project :=
  {| Repo := repo; Branch := lit "master"; Dest := dest; Module := [] |}.

Definition setModule (p : Project) (m : bytes) : Project :=
  {| Repo := Repo p; Branch := Branch p; Dest := Dest p; Module := m |}.

Definition setDest (p : Project) (d : bytes) : Project :=
  {| Repo := Repo p; Branch := Branch p; Dest := d; Module := Module p |}.

(** [[]byte(x)] of a possibly nil slice. *)
Definition orEmpty (x : option bytes) : bytes :=
  match x with
  | Some b => b
  | None => []
  end.

(** [filepath.Base(p.Repo) + "-" + p.Branch], e.g. iris-master. *)
Definition compressedRootFolder (p : Project) : bytes :=
  Filepath.Base (Repo p) ++ lit "-" ++ Branch p.

(** [filepath.Join(compressedRootFolder, "go.mod")]. *)
Definition modFile (p : Project) : bytes :=
  Filepath.Join [compressedRootFolder p; lit "go.mod"].

Section Unzip.

Variable Unquote : bytes -> option bytes.

(** [zip.NewReader] over the downloaded bytes: the entries [r.File]. *)
Variable NewReader : bytes -> result (list Zip.File).

Variable env : Env.

(** The loop that looks for go.mod,
    [for i := len(r.File) - 1; i > 0; i--], entered at [i]; it ends in an
    error or in [oldModuleName] and the project. *)
Fixpoint findModule (files : list Zip.File) (modFile : bytes) (p : Project)
    (i : nat) : result (bytes * Project) :=
  match i with
  | O => inr ([], p) (* [i > 0] fails *)
  | S i' =>
      match nth_error files i with
      | None => inr ([], p) (* not reached: [i < len(r.File)] *)
      | Some f =>
          if Bytes.Equal (Filepath.Clean (Zip.Name f)) modFile then
            match Zip.Open f with
            | inl err => inl err
            | inr rc =>
                match ReadAll rc with
                | inl err => inl err
                | inr contents =>
                    let oldModuleName := orEmpty (ModulePath Unquote contents) in
                    let p :=
                      match Module p with
                      | [] => setModule p oldModuleName
                      | _ :: _ => p
                      end in
                    inr (oldModuleName, p) (* break *)
                end
            end
          else findModule files modFile p i'
      end
  end.

(** The destination: [$GOPATH/src/<dir of the module>] or the working
    directory when [p.Dest] is empty, else [p.Dest] with [${GOPATH}]
    replaced, made absolute when that works. *)
Definition resolveDest (p : Project) : bytes :=
  let gopath := GOPATH env in
  match Dest p with
  | [] =>
      match gopath with
      | _ :: _ => Filepath.Join [gopath; lit "src"; Filepath.Dir (Module p)]
      | [] => match Getwd env with
              | inr wd => wd
              | inl _ => []
              end
      end
  | _ :: _ =>
      let dest := Replace.Replace (Dest p) (lit "${GOPATH}") gopath 1 in
      match Abs env dest with
      | inr d => d
      | inl _ => dest
      end
  end.

(** [io.Copy(outFile, rc)], then both closed: the bytes read go into the
    file; the error is the one of the write, else the one of the read. *)
Definition copyOut (fpath : bytes) (rc : bytes * option error)
  : prog (option error) :=
  werr <- exec (Copy fpath (fst rc)) ;;
  _ <- exec (Close fpath) ;;
  Ret (match werr with
       | Some err => Some err
       | None => snd rc
       end).

(** The body of the loop [for _, f := range r.File] of [unzip]: [Some e]
    when it returns the error [e], [None] when the loop goes on to the next
    entry. *)
Definition extractEntry (dest oldModuleName newModuleName : bytes)
    (shouldReplace : bool) (f : Zip.File) : prog (option error) :=
  (* Store filename/path for returning and using later on *)
  let fpath := Filepath.Join [dest; Zip.Name f] in
  if negb (Bytes.HasPrefix fpath
             (Filepath.Clean dest ++ [Filepath.Separator])) then
    Ret (Some (ErrIllegalPath fpath))
  else if Zip.IsDir f then
    _ <- exec (MkdirAll fpath Zip.ModePerm) ;;
    Ret None (* continue *)
  else
    err <- exec (OpenFile fpath (Zip.Mode f)) ;;
    match err with
    | Some e => Ret (Some e)
    | None =>
        match Zip.Open f with
        | inl e => Ret (Some e)
        | inr rc =>
            (* If new(local) module name differs the current(remote) one. *)
            let replaced :=
              if shouldReplace then
                match ReadAll rc with
                | inl e => inl e
                | inr contents =>
                    let newContents :=
                      Replace.ReplaceAll contents oldModuleName newModuleName in
                    inr (NoOpReadCloser newContents)
                end
              else inr rc in
            match replaced with
            | inl e => Ret (Some e)
            | inr rc => copyOut fpath rc
            end
        end
    end.

(** The loop itself; its result is the error it returns with, [None] when
    it runs to its end. *)
Fixpoint extract (dest oldModuleName newModuleName : bytes)
    (shouldReplace : bool) (files : list Zip.File) : prog (option error) :=
  match files with
  | [] => Ret None
  | f :: rest =>
      err <- extractEntry dest oldModuleName newModuleName shouldReplace f ;;
      match err with
      | Some e => Ret (Some e)
      | None =>
          extract dest oldModuleName newModuleName shouldReplace rest
      end
  end.

(** [func (p *Project) unzip(body []byte) error]: the project as the call
    leaves it, and the error. *)
Definition unzip (p : Project) (body : bytes) : prog (Project * option error) :=
  match NewReader body with
  | inl err => Ret (p, Some err)
  | inr files =>
      (* Find current module name, starting from the end because list is
         sorted alphabetically and "go.mod" is more likely to be visible at
         the end. *)
      match findModule files (modFile p) p (length files - 1) with
      | inl err => Ret (p, Some err)
      | inr (oldModuleName, p1) =>
          (* [p1] is [p] after the loop, [p2] after [p.Dest = dest] *)
          let newModuleName := Module p1 in
          let shouldReplace :=
            negb (Bytes.Equal oldModuleName newModuleName) in
          let dest := resolveDest p1 in
          let p2 := setDest p1 dest in
          err <- extract dest oldModuleName newModuleName shouldReplace files ;;
          match err with
          | Some e => Ret (p2, Some e)
          | None =>
              let newpath := Filepath.Join [dest; Filepath.Base (Module p2)] in
              _ <- exec (RemoveAll newpath) ;;
              err <- exec (Rename (Filepath.Join [dest; compressedRootFolder p])
                             newpath) ;;
              Ret (p2, err)
          end
      end
  end.

(** [download], the HTTP fetch of the archive, is outside the model. *)
Variable download : Project -> result bytes.

Definition Install (p : Project) : prog (Project * option error) :=
  match download p with
  | inl err => Ret (p, Some err)
  | inr b => unzip p b
  end.

End Unzip.

(** ** [strconv.Unquote], for running the parser

    The theorems below hold for every behaviour of [Unquote]; this model of
    it (after Go 1.13) is what the examples run with. *)

Module Strconv.

(** [utf8.ValidString]: no byte decodes to a [RuneError] of width one. *)
Definition ValidString (s : bytes) : bool :=
  forallb (fun r => negb (N.eqb (fst (Utf8.DecodeRune r)) Utf8.RuneError
                          && Nat.eqb (length r) 1))
          (Utf8.runes (length s) s).

(** [utf8.EncodeRune]. *)
Definition EncodeRune (r : N) : bytes :=
  (let r := if (1114111 <? r) || (55296 <=? r) && (r <=? 57343)
            then Utf8.RuneError else r in
   if r <=? 127 then [byte_of r]
   else if r <=? 2047 then
     [byte_of (N.lor 192 (N.shiftr r 6)); byte_of (N.lor 128 (N.land r 63))]
   else if r <=? 65535 then
     [byte_of (N.lor 224 (N.shiftr r 12));
      byte_of (N.lor 128 (N.land (N.shiftr r 6) 63));
      byte_of (N.lor 128 (N.land r 63))]
   else
     [byte_of (N.lor 240 (N.shiftr r 18));
      byte_of (N.lor 128 (N.land (N.shiftr r 12) 63));
      byte_of (N.lor 128 (N.land (N.shiftr r 6) 63));
      byte_of (N.lor 128 (N.land r 63))])%N.

Definition unhex (c : byte) : option N :=
  (let b := byte_val c in
   if (48 <=? b) && (b <=? 57) then Some (b - 48)
   else if (97 <=? b) && (b <=? 102) then Some (b - 97 + 10)
   else if (65 <=? b) && (b <=? 70) then Some (b - 65 + 10)
   else None)%N.

(** [n] digits of base [2^shift] read off the front of [s] into [v]. *)
Fixpoint digits (digit : byte -> option N) (shift : N) (n : nat) (v : N)
    (s : bytes) : option (N * bytes) :=
  match n with
  | O => Some (v, s)
  | S n' =>
      match s with
      | [] => None
      | c :: t =>
          match digit c with
          | None => None
          | Some x => digits digit shift n' (N.lor (N.shiftl v shift) x) t
          end
      end
  end.

Definition octal (c : byte) : option N :=
  (let b := byte_val c in
   if (48 <=? b) && (b <=? 55) then Some (b - 48) else None)%N.

(** [strconv.UnquoteChar]: the value, whether it is a multibyte rune, and
    the tail. *)
Definition UnquoteChar (s : bytes) (quote : byte)
  : option (N * bool * bytes) :=
  match s with
  | [] => None
  | c :: t =>
      let b := byte_val c in
      if Ascii.eqb c quote && (N.eqb b 39 || N.eqb b 34) then None
      else if N.leb Utf8.RuneSelf b then
        let '(r, size) := Utf8.DecodeRune s in Some (r, true, skipn size s)
      else if negb (N.eqb b 92) then Some (b, false, t)
      else
        match t with
        | [] => None
        | e :: s2 =>
            let simple (v : N) := Some (v, false, s2) in
            match byte_val e with
            | 97%N => simple 7%N    (* \a *)
            | 98%N => simple 8%N    (* \b *)
            | 102%N => simple 12%N  (* \f *)
            | 110%N => simple 10%N  (* \n *)
            | 114%N => simple 13%N  (* \r *)
            | 116%N => simple 9%N   (* \t *)
            | 118%N => simple 11%N  (* \v *)
            | 120%N =>              (* \x *)
                match digits unhex 4 2 0%N s2 with
                | Some (v, s3) => Some (v, false, s3)
                | None => None
                end
            | 117%N | 85%N =>       (* \u, \U *)
                let n := if N.eqb (byte_val e) 117 then 4%nat else 8%nat in
                match digits unhex 4 n 0%N s2 with
                | Some (v, s3) =>
                    if N.ltb 1114111 v then None else Some (v, true, s3)
                | None => None
                end
            | 92%N => simple 92%N   (* \\ *)
            | 39%N | 34%N =>
                if Ascii.eqb e quote then simple (byte_val e) else None
            | _ =>
                match octal e with
                | Some v0 =>
                    match digits octal 3 2 v0 s2 with
                    | Some (v, s3) =>
                        if N.ltb 255 v then None else Some (v, false, s3)
                    | None => None
                    end
                | None => None
                end
            end
        end
  end.

Fixpoint unquoteLoop (fuel : nat) (s : bytes) (quote : byte)
  : option bytes :=
  match s with
  | [] => Some []
  | _ :: _ =>
      match fuel with
      | O => None (* not reached: every pass shortens [s] *)
      | S fuel' =>
          match UnquoteChar s quote with
          | None => None
          | Some (c, multibyte, ss) =>
              let out :=
                if N.ltb c Utf8.RuneSelf || negb multibyte
                then [byte_of c] else EncodeRune c in
              if N.eqb (byte_val quote) 39 && negb (Nat.eqb (length ss) 0)
              then None (* single-quoted must be single character *)
              else option_map (app out) (unquoteLoop fuel' ss quote)
          end
      end
  end.

Definition contains (s : bytes) (c : byte) : bool :=
  existsb (Ascii.eqb c) s.

Definition Unquote (s : bytes) : option bytes :=
  match s with
  | [] | [_] => None
  | quote :: t =>
      if negb (Ascii.eqb quote (last t quote)) then None
      else
        let s := removelast t in
        if Ascii.eqb quote backquote then
          if contains s backquote then None
          else Some (filter (fun c => negb (N.eqb (byte_val c) 13)) s)
        else if negb (Ascii.eqb quote dquote)
                && negb (N.eqb (byte_val quote) 39) then None
        else if contains s newline then None
        else if negb (contains s (byte_of 92)) && negb (contains s quote)
                && (if Ascii.eqb quote dquote then ValidString s
                    else let '(r, size) := Utf8.DecodeRune s in
                         Nat.eqb size (length s)
                         && negb (N.eqb r Utf8.RuneError && Nat.eqb size 1))
        then Some s
        else unquoteLoop (length s) s quote
  end.

End Strconv.

(** ** A file system to run [unzip] in

    Paths map to directories and regular files; the root and [.] are
    directories that always exist. *)

Module SimFS.

Inductive node : Type :=
  | Dir
  | File (content : bytes) (perm : N).

Definition fs : Type := list (bytes * node).

Definition ENOENT : error := ErrOS 2.
Definition EBADF : error := ErrOS 9.
Definition ENOTDIR : error := ErrOS 20.
Definition EISDIR : error := ErrOS 21.
Definition ENOTEMPTY : error := ErrOS 39.

Definition isRoot (path : bytes) : bool :=
  Bytes.Equal path [Filepath.Separator] || Bytes.Equal path Filepath.dot.

Fixpoint lookup (path : bytes) (w : fs) : option node :=
  match w with
  | [] => if isRoot path then Some Dir else None
  | (k, n) :: w' => if Bytes.Equal k path then Some n else lookup path w'
  end.

Definition under (dir path : bytes) : bool :=
  Bytes.HasPrefix path (dir ++ [Filepath.Separator]).

Definition remove (path : bytes) (w : fs) : fs :=
  filter (fun kn => negb (Bytes.Equal (fst kn) path)) w.

Definition store (path : bytes) (n : node) (w : fs) : fs :=
  (path, n) :: remove path w.

(** [os.MkdirAll]: the directory and the missing ones above it. *)
Fixpoint mkdirAll (fuel : nat) (path : bytes) (w : fs) : option error * fs :=
  match lookup path w with
  | Some Dir => (None, w)
  | Some (File _ _) => (Some ENOTDIR, w)
  | None =>
      match fuel with
      | O => (Some ENOENT, w)
      | S fuel' =>
          match mkdirAll fuel' (Filepath.Dir path) w with
          | (Some err, w') => (Some err, w')
          | (None, w') => (None, store path Dir w')
          end
      end
  end.

(** [os.Rename] of a file or of a directory with all below it. *)
Definition rename (oldpath newpath : bytes) (w : fs) : option error * fs :=
  match lookup oldpath w with
  | None => (Some ENOENT, w)
  | Some _ =>
      if existsb (fun kn => under newpath (fst kn)) w then (Some ENOTEMPTY, w)
      else
        (None,
         map (fun kn =>
                if Bytes.Equal (fst kn) oldpath then (newpath, snd kn)
                else if under oldpath (fst kn)
                     then (newpath ++ skipn (length oldpath) (fst kn), snd kn)
                     else kn)
             (remove newpath w))
  end.

Definition os (c : call) (w : fs) : option error * fs :=
  match c with
  | MkdirAll path _ =>
      let path := Filepath.Clean path in mkdirAll (length path) path w
  | OpenFile name perm =>
      let name := Filepath.Clean name in
      match lookup name w, lookup (Filepath.Dir name) w with
      | Some Dir, _ => (Some EISDIR, w)
      | Some (File _ p), _ => (None, store name (File [] p) w)
      | None, Some Dir => (None, store name (File [] perm) w)
      | None, Some (File _ _) => (Some ENOTDIR, w)
      | None, None => (Some ENOENT, w)
      end
  | Copy name data =>
      let name := Filepath.Clean name in
      match lookup name w with
      | Some (File old p) => (None, store name (File (old ++ data) p) w)
      | _ => (Some EBADF, w)
      end
  | Close _ => (None, w)
  | RemoveAll path =>
      let path := Filepath.Clean path in
      (None, filter (fun kn => negb (Bytes.Equal (fst kn) path
                                     || under path (fst kn))) w)
  | Rename oldpath newpath =>
      rename (Filepath.Clean oldpath) (Filepath.Clean newpath) w
  end.

End SimFS.

(** ** The scenario of the specification, and others *)

Module Demo.

Definition dirEntry (name : string) : Zip.File :=
  {| Zip.Name := lit name;
     Zip.Mode := N.lor Zip.ModeDir 493; (* drwxr-xr-x *)
     Zip.Open := inr ([], None) |}.

Definition bytesEntry (name : string) (content : bytes) : Zip.File :=
  {| Zip.Name := lit name;
     Zip.Mode := 420; (* -rw-r--r-- *)
     Zip.Open := inr (content, None) |}.

Definition fileEntry (name content : string) : Zip.File :=
  bytesEntry name (lit content).

Definition goMod : Zip.File :=
  fileEntry "demo-master/go.mod" "module github.com/old/demo".

Definition mainGo : Zip.File :=
  fileEntry "demo-master/main.go"
    "package main // module github.com/old/demo is great".

(** The archive of the scenario: the root directory, then its files. *)
Definition archive : list Zip.File :=
  [dirEntry "demo-master/"; goMod; mainGo].

(** The manifest as the very first entry. *)
Definition archiveManifestFirst : list Zip.File := [goMod; mainGo].

(** No manifest. *)
Definition archiveNoManifest : list Zip.File :=
  [dirEntry "demo-master/"; fileEntry "demo-master/main.go" "package main"].

(** A directory below the root. *)
Definition archiveDocs : list Zip.File :=
  [dirEntry "demo-master/"; dirEntry "demo-master/docs/"; goMod; mainGo].

(** No manifest, and a file that holds the two bytes of U+00E9. *)
Definition archiveLatin : list Zip.File :=
  [dirEntry "demo-master/";
   bytesEntry "demo-master/a.txt" [byte_of 195; byte_of 169]].

(** An entry that names a file in the parent directory, and a manifest
    whose module path has the directory [..]. *)
Definition archiveEscape : list Zip.File :=
  [dirEntry "demo-master/"; fileEntry "../evil" "x";
   fileEntry "demo-master/go.mod" "module ../m"].

Definition project : Project :=
  {| Repo := lit "github.com/old/demo";
     Branch := lit "master";
     Dest := lit "/work";
     Module := lit "github.com/new/app" |}.

(** The same with the identity of the archive, with none, and with [m]. *)
Definition projectSame : Project :=
  setModule project (lit "github.com/old/demo").
Definition projectNoModule : Project := New (lit "/work") (lit "github.com/old/demo").
Definition projectM : Project := setModule project (lit "m").

(** No destination and no identity. *)
Definition projectEscape : Project := New [] (lit "github.com/old/demo").

(** The content of main.go with the new identity. *)
Definition mainGoRewritten : bytes :=
  lit "package main // module github.com/new/app is great".

Definition env : Env :=
  {| GOPATH := lit "/go"; Getwd := inr (lit "/home/user") |}.

(** [GOPATH=..]. *)
Definition envEscape : Env :=
  {| GOPATH := lit ".."; Getwd := inr (lit "/home/user/work") |}.

Definition disk : SimFS.fs := [(lit "/work", SimFS.Dir)].

(** A regular file where the archive has a directory. *)
Definition diskDocs : SimFS.fs :=
  [(lit "/work", SimFS.Dir); (lit "/work/demo-master", SimFS.Dir);
   (lit "/work/demo-master/docs", SimFS.File (lit "notes") 420)].

(** The root of the archive is there already. *)
Definition diskRoot : SimFS.fs :=
  [(lit "/work", SimFS.Dir); (lit "/work/demo-master", SimFS.Dir)].

Definition diskEscape : SimFS.fs :=
  [(lit "..", SimFS.Dir); (lit "../..", SimFS.Dir)].

(** [unzip] on an archive with these entries. *)
Definition install (Unquote : bytes -> option bytes) (files : list Zip.File)
    (p : Project) (e : Env) : prog (Project * option error) :=
  unzip Unquote (fun _ => inr files) e p [].

Definition outcome : Type := (Project * option error * SimFS.fs * list event)%type.

Definition installOn (Unquote : bytes -> option bytes) (files : list Zip.File)
    (p : Project) (e : Env) (d : SimFS.fs) : outcome :=
  run SimFS.os (install Unquote files p e) d.

Definition projectOf (x : outcome) : Project := fst (fst (fst x)).
Definition errorOf (x : outcome) : option error := snd (fst (fst x)).
Definition diskOf (x : outcome) : SimFS.fs := snd (fst x).
Definition traceOf (x : outcome) : list event := snd x.

End Demo.

(** ** A source directory, for [TryFindPackage] *)

Module Tree.

(** The text from the last dot of the last element of the reversed path
    [r] on; [acc] holds what has been passed. *)
Fixpoint extFrom (r acc : bytes) : bytes :=
  match r with
  | [] => []
  | c :: t =>
      if Filepath.IsPathSeparator c then []
      else if Ascii.eqb c (byte_of 46) then c :: acc
      else extFrom t (c :: acc)
  end.

(** Modelled from the spec: [utils.Ext] is not among the sources.  Section
    4.1 has the path taken for a file "if the path has a file extension";
    the extension is here what [filepath.Ext] gives, the text from the last
    dot of the last element on. *)
Definition Ext (path : bytes) : bytes := extFrom (rev path) [].

Definition file (name : string) : Os.FileInfo :=
  {| Os.Name := lit name; Os.IsDir := false |}.

Definition folder (name : string) : Os.FileInfo :=
  {| Os.Name := lit name; Os.IsDir := true |}.

(** [/src/app] as [Readdir] lists it. *)
Definition listing : list Os.FileInfo :=
  [folder "vendor.go"; file "README.md"; file "doc.go"; file "lock.go";
   file "main.go"; file "util.go"].

Definition contents : list (bytes * bytes) :=
  [(lit "/src/app/README.md", lit "package readme");
   (lit "/src/app/doc.go", lit "// package doc");
   (lit "/src/app/main.go",
    lit "package main // the command" ++ newline :: lit "func main() {}");
   (lit "/src/app/util.go", lit "package util")].

Fixpoint find (path : bytes) (l : list (bytes * bytes)) : result bytes :=
  match l with
  | [] => inl (ErrOS 2)
  | (name, b) :: rest => if Bytes.Equal name path then inr b else find path rest
  end.

(** [lock.go] is listed and cannot be read. *)
Definition disk : Disk :=
  {| Readdir := fun dir => if Bytes.Equal dir (lit "/src/app")
                           then inr listing else inl (ErrOS 2);
     ReadFile := fun path => find path contents |}.

End Tree.


(** ** Test tables of the Go standard library

    The inputs and the expected results of the tests that the Go library
    has for the functions modelled above. *)

Module Tables.

Definition cleantests : list (string * string) :=
  [("abc", "abc"); ("abc/def", "abc/def"); ("a/b/c", "a/b/c"); (".", ".");
   ("..", ".."); ("../..", "../.."); ("../../abc", "../../abc");
   ("/abc", "/abc"); ("/", "/"); ("", "."); ("abc/", "abc");
   ("abc/def/", "abc/def"); ("a/b/c/", "a/b/c"); ("./", "."); ("../", "..");
   ("../../", "../.."); ("/abc/", "/abc"); ("abc//def//ghi", "abc/def/ghi");
   ("abc//", "abc"); ("abc/./def", "abc/def"); ("/./abc/def", "/abc/def");
   ("abc/.", "abc"); ("abc/def/ghi/../jkl", "abc/def/jkl");
   ("abc/def/../ghi/../jkl", "abc/jkl"); ("abc/def/..", "abc");
   ("abc/def/../..", "."); ("/abc/def/../..", "/");
   ("abc/def/../../..", ".."); ("/abc/def/../../..", "/");
   ("abc/def/../../../ghi/jkl/../../../mno", "../../mno");
   ("/../abc", "/abc"); ("abc/./../def", "def"); ("abc//./../def", "def");
   ("abc/../../././../def", "../../def")]%string.

Definition basetests : list (string * string) :=
  [("", "."); (".", "."); ("/.", "."); ("/", "/"); ("////", "/");
   ("x/", "x"); ("abc", "abc"); ("abc/def", "def"); ("a/b/.x", ".x");
   ("a/b/c.", "c."); ("a/b/c.x", "c.x")]%string.

Definition dirtests : list (string * string) :=
  [("", "."); (".", "."); ("/.", "/"); ("/", "/"); ("////", "/");
   ("/foo", "/"); ("x/", "x"); ("abc", "."); ("abc/def", "abc");
   ("a/b/.x", "a/b"); ("a/b/c.", "a/b"); ("a/b/c.x", "a/b")]%string.

Definition jointests : list (list string * string) :=
  [([], ""); ([""], ""); (["/"], "/"); (["a"], "a"); (["a"; "b"], "a/b");
   (["a"; ""], "a"); ([""; "b"], "b"); (["/"; "a"], "/a");
   (["/"; "a/b"], "/a/b"); (["/"; ""], "/"); (["//"; "a"], "/a");
   (["/a"; "b"], "/a/b"); (["a/"; "b"], "a/b"); (["a/"; ""], "a");
   ([""; ""], "")]%string.

Definition sp : bytes := lit " ".
Definition tab : bytes := [byte_of 9].
Definition lf : bytes := [byte_of 10].
Definition cr : bytes := [byte_of 13].
Definition u2000 : bytes := [byte_of 226; byte_of 128; byte_of 128].
Definition u3000 : bytes := [byte_of 227; byte_of 128; byte_of 128].
Definition smiley : bytes := [byte_of 226; byte_of 152; byte_of 186].
Definition x80 : bytes := [byte_of 128].
Definition xc0 : bytes := [byte_of 192].

Definition trimSpaceTests : list (list bytes * list bytes) :=
  [([], []);
   ([sp; sp; lit "a"], [lit "a"]);
   ([lit "b"; sp; sp], [lit "b"]);
   ([lit "abc"], [lit "abc"]);
   ([sp], []);
   ([u3000; sp], []);
   ([sp; u3000], []);
   ([sp; tab; cr; lf; sp; tab; tab; cr; cr; lf; lf; sp], []);
   ([sp; tab; cr; lf; sp; lit "x"; tab; tab; cr; cr; lf; lf; sp], [lit "x"]);
   ([sp; u2000; tab; cr; lf; sp; lit "x"; tab; tab; cr; cr; lf; lit "y"; lf;
     sp; u3000],
    [lit "x"; tab; tab; cr; cr; lf; lit "y"]);
   ([lit "1"; sp; tab; cr; lf; lit "2"], [lit "1"; sp; tab; cr; lf; lit "2"]);
   ([sp; lit "x"; x80], [lit "x"; x80]);
   ([sp; lit "x"; xc0], [lit "x"; xc0]);
   ([lit "x"; sp; xc0; xc0; sp], [lit "x"; sp; xc0; xc0]);
   ([lit "x"; sp; xc0], [lit "x"; sp; xc0]);
   ([lit "x"; sp; xc0; sp], [lit "x"; sp; xc0]);
   ([lit "x"; sp; smiley; xc0; xc0; sp], [lit "x"; sp; smiley; xc0; xc0]);
   ([lit "x"; sp; smiley; sp], [lit "x"; sp; smiley])].

(** [bytes.Replace]: input, old, new, n, output. *)
Definition replaceTests : list (string * string * string * Z * string) :=
  [("hello", "l", "L", 0, "hello"); ("hello", "l", "L", -1, "heLLo");
   ("hello", "x", "X", -1, "hello"); ("", "x", "X", -1, "");
   ("radar", "r", "<r>", -1, "<r>ada<r>"); ("", "", "<>", -1, "<>");
   ("banana", "a", "<>", -1, "b<>n<>n<>"); ("banana", "a", "<>", 1, "b<>nana");
   ("banana", "a", "<>", 1000, "b<>n<>n<>"); ("banana", "an", "<>", -1, "b<><>a");
   ("banana", "ana", "<>", -1, "b<>na"); ("banana", "", "<>", -1, "<>b<>a<>n<>a<>n<>a<>");
   ("banana", "", "<>", 10, "<>b<>a<>n<>a<>n<>a<>");
   ("banana", "", "<>", 6, "<>b<>a<>n<>a<>n<>a");
   ("banana", "", "<>", 5, "<>b<>a<>n<>a<>na"); ("banana", "", "<>", 1, "<>banana");
   ("banana", "a", "a", -1, "banana"); ("banana", "a", "a", 1, "banana")]%string.

End Tables.

(** * The words of the claims *)

(** ** Texts *)

(** [sep] occurs in [s]. *)
Definition Contains (s sep : bytes) : Prop :=
  exists pre post, s = pre ++ sep ++ post.

(** Every occurrence of [kw] in [text] is followed by a text that [check]
    accepts. *)
Fixpoint occurrences (check : bytes -> bool) (kw text : bytes) : bool :=
  (if Bytes.HasPrefix text kw then check (skipn (length kw) text) else true)
  && match text with
     | [] => true
     | _ :: t => occurrences check kw t
     end.

Definition tokenGoesOn (post : bytes) : bool :=
  negb (Nat.eqb (length post) 0) && Nat.eqb (Space.width post) 0.

(** The loop gets from [b] to [b'] through [continue]s only. *)
Inductive skips (Unquote : bytes -> option bytes) (declaration : bytes)
  : bytes -> bytes -> Prop :=
  | skips_here b : skips Unquote declaration b b
  | skips_next b b1 b' :
      b <> [] -> parseLine Unquote b declaration = Continue b1 ->
      skips Unquote declaration b1 b' -> skips Unquote declaration b b'.

(** ** Calls and traces *)

(** The path a call works on. *)
Definition target (c : call) : bytes :=
  match c with
  | MkdirAll path _ | RemoveAll path => path
  | OpenFile name _ | Copy name _ | Close name => name
  | Rename _ newpath => newpath
  end.

(** The calls whose error [unzip] looks at. *)
Definition checked (c : call) : bool :=
  match c with
  | OpenFile _ _ | Copy _ _ | Rename _ _ => true
  | MkdirAll _ _ | Close _ | RemoveAll _ => false
  end.

(** The calls of the extraction loop. *)
Definition isExtraction (c : call) : bool :=
  match c with
  | MkdirAll _ _ | OpenFile _ _ | Copy _ _ | Close _ => true
  | RemoveAll _ | Rename _ _ => false
  end.

(** Two traces with the same calls, and the same answers to the calls
    whose error [unzip] looks at. *)
Definition agree (t t' : list event) : Prop :=
  Forall2 (fun x y => fst x = fst y
                      /\ (checked (fst x) = true -> snd x = snd y)) t t'.

(** What follows a failed call in a trace that stops there: nothing, or
    the [Close] of the file the failed [Copy] went to. *)
Definition stopped (c : call) (post : list event) : Prop :=
  post = [] \/ exists data cl, c = Copy (target c) data
                               /\ post = [(Close (target c), cl)].

(** What is copied into the file of an entry that delivers [rc]. *)
Definition written (oldModuleName newModuleName : bytes)
    (shouldReplace : bool) (rc : bytes * option error) : bytes :=
  if shouldReplace
  then Replace.ReplaceAll (fst rc) oldModuleName newModuleName
  else fst rc.

(** The path [unzip] writes entry [f] to, and its test of it. *)
Definition fpathOf (dest : bytes) (f : Zip.File) : bytes :=
  Filepath.Join [dest; Zip.Name f].

Definition guard (dest : bytes) (f : Zip.File) : bool :=
  Bytes.HasPrefix (fpathOf dest f)
    (Filepath.Clean dest ++ [Filepath.Separator]).

(** The ways through the body of the loop. *)
Inductive entryRun (dest old new : bytes) (sr : bool) (f : Zip.File)
  : list event -> option error -> Prop :=
  | er_illegal :
      guard dest f = false ->
      entryRun dest old new sr f [] (Some (ErrIllegalPath (fpathOf dest f)))
  | er_dir a :
      guard dest f = true -> Zip.IsDir f = true ->
      entryRun dest old new sr f
        [(MkdirAll (fpathOf dest f) Zip.ModePerm, a)] None
  | er_create e :
      guard dest f = true -> Zip.IsDir f = false ->
      entryRun dest old new sr f
        [(OpenFile (fpathOf dest f) (Zip.Mode f), Some e)] (Some e)
  | er_open e :
      guard dest f = true -> Zip.IsDir f = false -> Zip.Open f = inl e ->
      entryRun dest old new sr f
        [(OpenFile (fpathOf dest f) (Zip.Mode f), None)] (Some e)
  | er_read data e :
      guard dest f = true -> Zip.IsDir f = false ->
      Zip.Open f = inr (data, Some e) -> sr = true ->
      entryRun dest old new sr f
        [(OpenFile (fpathOf dest f) (Zip.Mode f), None)] (Some e)
  | er_copy rc werr cl :
      guard dest f = true -> Zip.IsDir f = false -> Zip.Open f = inr rc ->
      (sr = true -> snd rc = None) ->
      entryRun dest old new sr f
        [(OpenFile (fpathOf dest f) (Zip.Mode f), None);
         (Copy (fpathOf dest f) (written old new sr rc), werr);
         (Close (fpathOf dest f), cl)]
        (match werr with
         | Some e => Some e
         | None => snd rc
         end).

(** [<dest>/<base of the module>], the final name of the extracted root. *)
Definition newpathOf (env : Env) (p1 : Project) : bytes :=
  Filepath.Join [resolveDest env p1; Filepath.Base (Module p1)].

(** [<dest>/<compressedRootFolder>], the extracted root. *)
Definition rootOf (env : Env) (p p1 : Project) : bytes :=
  Filepath.Join [resolveDest env p1; compressedRootFolder p].

(** ** Contents *)

(** The claim's words: [new] inserted before every byte of [content] and
    at its end. *)
Definition beforeEveryByte (new content : bytes) : bytes :=
  flat_map (fun c => new ++ [c]) content ++ new.

(** What [bytes.ReplaceAll] does: [new] inserted at the beginning and after
    every UTF-8 sequence of [content]. *)
Definition afterEveryRune (new content : bytes) : bytes :=
  new ++ flat_map (fun r => r ++ new) (Utf8.runes (length content) content).

Definition isASCII (c : byte) : bool := N.ltb (byte_val c) Utf8.RuneSelf.

(** ** Paths *)

(** A proper name: not empty, not [.], not [..]. *)
Definition properName (e : bytes) : bool :=
  negb (Bytes.Equal e [] || Bytes.Equal e Filepath.dot
        || Bytes.Equal e Filepath.dotdot).

Definition noSep (e : bytes) : bool :=
  forallb (fun c => negb (Filepath.IsPathSeparator c)) e.

Definition goodName (e : bytes) : bool := properName e && noSep e.

(** [fpath] lies strictly inside [dest]: it is the cleaned destination, a
    separator, and one or more proper names. *)
Definition inside (dest fpath : bytes) : bool :=
  let d := Filepath.Clean dest in
  Bytes.HasPrefix fpath (d ++ [Filepath.Separator])
  && forallb properName (Filepath.split (skipn (length d + 1) fpath)).

(** The environment as Go expects it: [GOPATH] empty or absolute, and a
    working directory, absolute. *)
Definition envAbsolute (env : Env) : Prop :=
  (GOPATH env = [] \/ Filepath.IsAbs (GOPATH env) = true)
  /\ exists wd, Getwd env = inr wd /\ Filepath.IsAbs wd = true.

(** ** Declaration lines *)

(** ASCII white space other than the line feed. *)
Definition blank (s : bytes) : bool :=
  forallb (fun c => Space.ascii1 c && negb (Ascii.eqb c newline)) s.




(** The argument opens with a quote. *)
Definition quoted (arg : bytes) : bool :=
  match arg with
  | c :: _ => Ascii.eqb c dquote || Ascii.eqb c backquote
  | [] => false
  end.

(** What the parser makes of the argument of a declaration. *)
Definition valueOf (Unquote : bytes -> option bytes) (arg : bytes)
  : option bytes :=
  if quoted arg then Unquote arg else Some arg.





(** Where a pass of the loop starts in [pre ++ b]: at the start of the
    text, after a line feed, or at the end marker of a block comment. *)
Definition lineStart (pre b : bytes) : Prop :=
  pre = [] \/ (exists q, pre = q ++ [newline])
  \/ Bytes.HasPrefix b multilineCommentEnd = true.

(** ** Directories *)

(** The directory [TryFindPackage] lists for [path], and the file name it
    passes over. *)
Definition lookedIn (Ext : bytes -> bytes) (path : bytes) : bytes :=
  if Bytes.Equal (Ext path) [] then path else Filepath.Dir path.

Definition ignored (Ext : bytes -> bytes) (path : bytes) : bytes :=
  if Bytes.Equal (Ext path) [] then [] else Filepath.Base path.

(** The entries of the listing that are read: regular files with the
    suffix [.go], the ignored name apart. *)
Definition eligible (ignoreFilename : bytes) (f : Os.FileInfo) : bool :=
  negb (Os.IsDir f)
  && negb (Bytes.Equal ignoreFilename (Os.Name f))
  && Strings.HasSuffix (Os.Name f) (lit ".go").

(** The package an entry of the listing of [dir] declares: empty when the
    entry is not read, cannot be read, or declares none. *)
Definition declared (Unquote : bytes -> option bytes) (disk : Disk)
    (dir ignoreFilename : bytes) (f : Os.FileInfo) : bytes :=
  if eligible ignoreFilename f then
    match ReadFile disk (Filepath.Join [dir; Os.Name f]) with
    | inr b => orEmpty (Package Unquote b)
    | inl _ => []
    end
  else [].

(** ** Archives *)

(** The entry is the manifest the scan looks for. *)
Definition isManifest (modFile : bytes) (f : Zip.File) : bool :=
  Bytes.Equal (Filepath.Clean (Zip.Name f)) modFile.

(** The entry is a directory, or a file that is read to its end. *)
Definition readable (f : Zip.File) : Prop :=
  Zip.IsDir f = true \/ exists data, Zip.Open f = inr (data, None).

(** What a readable entry delivers. *)
Definition delivered (f : Zip.File) : bytes * option error :=
  match Zip.Open f with
  | inr rc => rc
  | inl _ => ([], None)
  end.

(** The calls that extract one entry. *)
Definition entryCalls (dest old new : bytes) (sr : bool) (f : Zip.File)
  : list call :=
  if Zip.IsDir f then [MkdirAll (fpathOf dest f) Zip.ModePerm]
  else [OpenFile (fpathOf dest f) (Zip.Mode f);
        Copy (fpathOf dest f) (written old new sr (delivered f));
        Close (fpathOf dest f)].

(** The calls of [unzip] on an archive that it extracts to the end. *)
Definition unzipCalls (env : Env) (p : Project) (old : bytes) (p1 : Project)
    (files : list Zip.File) : list call :=
  flat_map (entryCalls (resolveDest env p1) old (Module p1)
              (negb (Bytes.Equal old (Module p1)))) files
  ++ [RemoveAll (newpathOf env p1);
      Rename (rootOf env p p1) (newpathOf env p1)].

(** The occurrences of [old] in [s] replaced by [new], from the left, each
    one after the end of the one before. *)
Fixpoint substitute (fuel : nat) (s old new : bytes) : bytes :=
  match fuel with
  | O => s
  | S fuel' =>
      match Bytes.indexOf s old with
      | None => s
      | Some i =>
          firstn i s ++ new
          ++ substitute fuel' (skipn (i + length old) s) old new
      end
  end.

(** * Properties *)

(** ** Slices *)

Lemma byte_eqb_refl (c : byte) : Ascii.eqb c c = true.
Proof. apply Ascii.eqb_refl. Qed.

Lemma HasPrefix_app (p t : bytes) : Bytes.HasPrefix (p ++ t) p = true.
Proof.
  induction p as [|c p IH]; simpl; [reflexivity|].
  now rewrite byte_eqb_refl, IH.
Qed.

Lemma HasPrefix_inv (s p : bytes) :
  Bytes.HasPrefix s p = true -> s = p ++ skipn (length p) s.
Proof.
  revert s; induction p as [|c p IH]; intros s H; [reflexivity|].
  destruct s as [|d s]; simpl in H; [discriminate|].
  apply andb_true_iff in H as [Hc Hp].
  apply Ascii.eqb_eq in Hc; subst d.
  simpl; f_equal; now apply IH.
Qed.

Lemma HasPrefix_iff (s p : bytes) :
  Bytes.HasPrefix s p = true <-> exists t, s = p ++ t.
Proof.
  split.
  - intros H; eexists; now apply HasPrefix_inv.
  - intros [t ->]; apply HasPrefix_app.
Qed.

Lemma Equal_iff (a b : bytes) : Bytes.Equal a b = true <-> a = b.
Proof.
  revert b; induction a as [|x a IH]; intros [|y b]; simpl;
    try (split; [discriminate|discriminate]); [tauto|].
  rewrite andb_true_iff, Ascii.eqb_eq, IH.
  split; [intros [-> ->]; reflexivity | intros [= -> ->]; tauto].
Qed.

Lemma Equal_refl (a : bytes) : Bytes.Equal a a = true.
Proof. now apply Equal_iff. Qed.

Lemma indexOf_Some (s sep : bytes) (i : nat) :
  Bytes.indexOf s sep = Some i ->
  s = firstn i s ++ sep ++ skipn (i + length sep) s /\ (i <= length s)%nat.
Proof.
  revert i; induction s as [|c s IH]; intros i; simpl.
  - destruct (Bytes.HasPrefix [] sep) eqn:E; [|discriminate].
    intros [= <-]. apply HasPrefix_inv in E. simpl. split; [exact E|lia].
  - destruct (Bytes.HasPrefix (c :: s) sep) eqn:E.
    + intros [= <-]. apply HasPrefix_inv in E. simpl. split; [exact E|lia].
    + destruct (Bytes.indexOf s sep) as [j|]; simpl; [|discriminate].
      intros [= <-]. destruct (IH j eq_refl) as [IH1 IH2].
      simpl. split; [f_equal; exact IH1|lia].
Qed.

Lemma indexOf_None (s sep : bytes) :
  Bytes.indexOf s sep = None -> ~ Contains s sep.
Proof.
  induction s as [|c s IH]; simpl.
  - destruct (Bytes.HasPrefix [] sep) eqn:E; [discriminate|].
    intros _ (pre & post & H).
    destruct pre; [|discriminate].
    simpl in H. rewrite H, HasPrefix_app in E. discriminate.
  - destruct (Bytes.HasPrefix (c :: s) sep) eqn:E; [discriminate|].
    destruct (Bytes.indexOf s sep) eqn:E'; [discriminate|].
    intros _ (pre & post & H).
    destruct pre as [|d pre].
    + simpl in H. rewrite H, HasPrefix_app in E. discriminate.
    + injection H as -> H. apply IH; [reflexivity|]. now exists pre, post.
Qed.

Lemma indexOf_Contains (s sep : bytes) :
  Contains s sep -> exists i, Bytes.indexOf s sep = Some i.
Proof.
  intros H. destruct (Bytes.indexOf s sep) eqn:E; [eauto|].
  now apply indexOf_None in E.
Qed.

(** The first occurrence of a byte that the text before it lacks. *)
Lemma indexOf_byte (l rest : bytes) (c : byte) :
  ~ In c l -> Bytes.indexOf (l ++ c :: rest) [c] = Some (length l).
Proof.
  induction l as [|d l IH]; intros H; simpl.
  - now rewrite byte_eqb_refl.
  - destruct (Ascii.eqb d c) eqn:E.
    + apply Ascii.eqb_eq in E. subst d. exfalso. apply H. now left.
    + simpl. rewrite IH; [reflexivity|]. intros H'. apply H. now right.
Qed.

Lemma Index_nonneg (s sep : bytes) :
  0 <= Bytes.Index s sep <-> Contains s sep.
Proof.
  unfold Bytes.Index. split.
  - destruct (Bytes.indexOf s sep) eqn:E; [|intros H; exfalso; lia].
    intros _. apply indexOf_Some in E as [E _]. eexists _, _; exact E.
  - intros H. apply indexOf_Contains in H as [i ->]. lia.
Qed.

Lemma Index_neg (s sep : bytes) :
  Bytes.Index s sep < 0 <-> ~ Contains s sep.
Proof.
  rewrite <- Index_nonneg. lia.
Qed.

Lemma Index_range (s sep : bytes) : -1 <= Bytes.Index s sep <= len s.
Proof.
  unfold Bytes.Index, len. destruct (Bytes.indexOf s sep) eqn:E; [|lia].
  apply indexOf_Some in E as [_ E]. lia.
Qed.

Lemma from_suffix (s : bytes) (i : Z) : exists pre, s = pre ++ from s i.
Proof.
  exists (upto s i). unfold upto, from. symmetry. apply firstn_skipn.
Qed.

Lemma from_length (s : bytes) (i : Z) :
  0 <= i -> (length (from s i) = length s - Z.to_nat i)%nat.
Proof. intros _. unfold from. apply length_skipn. Qed.

(** ** White space *)

Lemma strip_suffix (w : bytes -> nat) (fuel : nat) (s : bytes) :
  exists p, s = p ++ Space.strip w fuel s.
Proof.
  revert s; induction fuel as [|fuel IH]; intros s; cbn [Space.strip].
  - now exists [].
  - destruct (w s) as [|n]; [now exists []|].
    destruct (IH (skipn (S n) s)) as [p Hp].
    exists (firstn (S n) s ++ p).
    rewrite <- app_assoc, <- Hp. symmetry. apply firstn_skipn.
Qed.

Lemma strip_id (w : bytes -> nat) (fuel : nat) (s : bytes) :
  w s = O -> Space.strip w fuel s = s.
Proof. intros H. destruct fuel; simpl; [reflexivity|now rewrite H]. Qed.

Lemma strip_done (w : bytes -> nat) :
  (forall s, (w s <= length s)%nat) ->
  forall fuel s, (length s <= fuel)%nat -> w (Space.strip w fuel s) = O.
Proof.
  intros Hw. induction fuel as [|fuel IH]; intros s Hs; cbn [Space.strip].
  - specialize (Hw s). lia.
  - destruct (w s) as [|n] eqn:E; [exact E|].
    apply IH. rewrite length_skipn. specialize (Hw s). lia.
Qed.

Lemma width_le (s : bytes) : (Space.width s <= length s)%nat.
Proof.
  destruct s as [|c0 [|c1 [|c2 s]]]; simpl;
    repeat match goal with |- context [if ?b then _ else _] => destruct b end;
    lia.
Qed.

Lemma widthRev_le (s : bytes) : (Space.widthRev s <= length s)%nat.
Proof.
  destruct s as [|c0 [|c1 [|c2 s]]]; simpl;
    repeat match goal with |- context [if ?b then _ else _] => destruct b end;
    lia.
Qed.

(** A rune found at the front of [a] is found at the front of [a ++ b]. *)
Lemma width_app (a b : bytes) :
  Space.width (a ++ b) = O -> Space.width a = O.
Proof.
  destruct a as [|c0 [|c1 [|c2 a]]]; simpl; try reflexivity;
    repeat match goal with |- context [if ?b then _ else _] => destruct b end;
    try reflexivity; try discriminate.
Qed.

Lemma widthRev_app (a b : bytes) :
  Space.widthRev (a ++ b) = O -> Space.widthRev a = O.
Proof.
  destruct a as [|c0 [|c1 [|c2 a]]]; simpl; try reflexivity;
    repeat match goal with |- context [if ?b then _ else _] => destruct b end;
    try reflexivity; try discriminate.
Qed.

Lemma TrimLeft_suffix (s : bytes) : exists p, s = p ++ Space.TrimLeft s.
Proof. apply strip_suffix. Qed.

Lemma TrimRight_prefix (s : bytes) : exists p, s = Space.TrimRight s ++ p.
Proof.
  unfold Space.TrimRight.
  destruct (strip_suffix Space.widthRev (length s) (rev s)) as [p Hp].
  exists (rev p). rewrite <- rev_app_distr, <- Hp. symmetry. apply rev_involutive.
Qed.

(** [TrimSpace] returns a subslice. *)
Lemma TrimSpace_sub (s : bytes) : exists a c, s = a ++ TrimSpace s ++ c.
Proof.
  unfold TrimSpace.
  destruct (TrimLeft_suffix s) as [a Ha].
  destruct (TrimRight_prefix (Space.TrimLeft s)) as [c Hc].
  exists a, c. now rewrite <- Hc.
Qed.

(** What [TrimSpace] returns ends with no white space. *)
Lemma TrimSpace_end (s : bytes) : Space.widthRev (rev (TrimSpace s)) = O.
Proof.
  unfold TrimSpace, Space.TrimRight. rewrite rev_involutive.
  apply strip_done; [apply widthRev_le|]. now rewrite length_rev.
Qed.

(** A slice with no white space at either end is left as it is. *)
Lemma TrimSpace_id (s : bytes) :
  Space.width s = O -> Space.widthRev (rev s) = O -> TrimSpace s = s.
Proof.
  intros Hl Hr. unfold TrimSpace, Space.TrimLeft, Space.TrimRight.
  rewrite (strip_id _ _ _ Hl), (strip_id _ _ _ Hr). apply rev_involutive.
Qed.

Lemma TrimSpace_nil : TrimSpace [] = [].
Proof. reflexivity. Qed.

(** ** The declaration parser *)

Section ParserFacts.

Variable Unquote : bytes -> option bytes.

Lemma splitLine_rest (b : bytes) :
  b <> [] -> (length (snd (splitLine b)) < length b)%nat.
Proof.
  intros Hb. unfold splitLine, Bytes.IndexByte.
  destruct (0 <=? Bytes.Index b [newline]) eqn:E; simpl.
  - apply Z.leb_le in E. rewrite from_length by lia.
    destruct b; [congruence|cbn [length]; lia].
  - destruct b; [congruence|cbn [length]; lia].
Qed.

Lemma splitLine_suffix (b : bytes) : exists pre, b = pre ++ snd (splitLine b).
Proof.
  unfold splitLine. destruct (0 <=? _); simpl.
  - apply from_suffix.
  - exists b. now rewrite app_nil_r.
Qed.

(** A line without line feed, and the text after its line feed. *)
Lemma splitLine_app (l rest : bytes) :
  ~ In newline l -> splitLine (l ++ newline :: rest) = (l, rest).
Proof.
  intros H. unfold splitLine, Bytes.IndexByte, Bytes.Index.
  rewrite indexOf_byte by exact H.
  replace (0 <=? Z.of_nat (length l)) with true by (symmetry; apply Z.leb_le; lia).
  unfold upto, from. f_equal.
  - rewrite Nat2Z.id, firstn_app, Nat.sub_diag, firstn_all. simpl. apply app_nil_r.
  - replace (Z.to_nat (Z.of_nat (length l) + 1)) with (length l + 1)%nat by lia.
    rewrite skipn_app, skipn_all2 by lia.
    replace (length l + 1 - length l)%nat with 1%nat by lia. reflexivity.
Qed.

(** Every [continue] leaves a strictly shorter suffix of the text. *)
Lemma parseLine_Continue (b declaration b' : bytes) :
  b <> [] -> parseLine Unquote b declaration = Continue b' ->
  (exists pre, b = pre ++ b') /\ (length b' < length b)%nat.
Proof.
  intros Hb. unfold parseLine.
  pose proof (splitLine_rest Hb) as Hlen.
  pose proof (splitLine_suffix b) as [pre Hpre].
  destruct (splitLine b) as [line rest]. simpl in Hlen, Hpre.
  assert (Hrest : (exists pre, b = pre ++ rest) /\ (length rest < length b)%nat)
    by (split; [now exists pre|exact Hlen]).
  destruct (0 <=? Bytes.Index (stripLineComment line) multilineCommentStart).
  - intros [= <-].
    destruct (0 <? Bytes.Index rest multilineCommentEnd) eqn:E; [|exact Hrest].
    apply Z.ltb_lt in E. split.
    + destruct (from_suffix rest (Bytes.Index rest multilineCommentEnd)) as [q Hq].
      exists (pre ++ q). rewrite <- app_assoc, <- Hq. exact Hpre.
    + rewrite from_length by lia. lia.
  - destruct (negb _); [intros [= <-]; exact Hrest|].
    destruct (_ || _); [intros [= <-]; exact Hrest|].
    destruct (TrimSpace _) as [|c t]; [discriminate|].
    destruct (_ || _); [destruct (Unquote _)|]; discriminate.
Qed.

Lemma parseLoop_fuel (declaration : bytes) (n m : nat) (b : bytes) :
  (length b <= n)%nat -> (length b <= m)%nat ->
  parseLoop Unquote n b declaration = parseLoop Unquote m b declaration.
Proof.
  revert m b; induction n as [|n IH]; intros m b Hn Hm.
  - destruct b; [|simpl in Hn; lia]. destruct m; reflexivity.
  - destruct m as [|m]; [destruct b; [reflexivity|simpl in Hm; lia]|].
    simpl. destruct b as [|c b]; [reflexivity|].
    destruct (parseLine Unquote (c :: b) declaration) as [b'|r] eqn:E;
      [|reflexivity].
    apply parseLine_Continue in E as [_ E]; [|discriminate].
    simpl in *. apply IH; lia.
Qed.

(** [parseDeclaration] is its loop: it returns [nil] on the empty text,
    and otherwise what the pass over the first line says. *)
Lemma parseDeclaration_eq (b declaration : bytes) :
  parseDeclaration Unquote b declaration =
  match b with
  | [] => None
  | _ :: _ =>
      match parseLine Unquote b declaration with
      | Continue b' => parseDeclaration Unquote b' declaration
      | Return r => r
      end
  end.
Proof.
  unfold parseDeclaration. destruct b as [|c b]; [reflexivity|].
  simpl. destruct (parseLine Unquote (c :: b) declaration) as [b'|r] eqn:E;
    [|reflexivity].
  apply parseLine_Continue in E as [_ E]; [|discriminate].
  simpl in E. apply parseLoop_fuel; lia.
Qed.

End ParserFacts.

Section ParserClaims.

Variable Unquote : bytes -> option bytes.

Lemma splitLine_prefix (b : bytes) : exists post, b = fst (splitLine b) ++ post.
Proof.
  unfold splitLine. destruct (0 <=? _); simpl.
  - eexists. symmetry. apply firstn_skipn.
  - exists []. now rewrite app_nil_r.
Qed.

Lemma stripLineComment_prefix (line : bytes) :
  exists post, line = stripLineComment line ++ post.
Proof.
  unfold stripLineComment. destruct (0 <=? _).
  - eexists. symmetry. apply firstn_skipn.
  - exists []. now rewrite app_nil_r.
Qed.

(** The pass over a line [return]s only when the line, trimmed, is the
    keyword and a rest that trimming shortens. *)
Lemma parseLine_Return (b declaration : bytes) (res : option bytes) :
  parseLine Unquote b declaration = Return res ->
  exists x post r,
    b = x ++ post /\ TrimSpace x = declaration ++ r
    /\ length (TrimSpace r) <> length r.
Proof.
  unfold parseLine.
  destruct (splitLine_prefix b) as [post1 H1].
  destruct (splitLine b) as [line rest]. simpl in H1.
  destruct (stripLineComment_prefix line) as [post2 H2].
  destruct (0 <=? _); [discriminate|].
  destruct (Bytes.HasPrefix _ _) eqn:E; simpl; [|discriminate].
  apply HasPrefix_inv in E.
  destruct (_ || _) eqn:E'; [discriminate|].
  intros _. apply orb_false_iff in E' as [E' _]. apply Z.eqb_neq in E'.
  exists (stripLineComment line), (post2 ++ post1),
    (from (TrimSpace (stripLineComment line)) (len declaration)).
  repeat split.
  - rewrite app_assoc, <- H2. exact H1.
  - unfold from, len. rewrite Nat2Z.id. exact E.
  - unfold len in E' |- *. lia.
Qed.

(** C5, as amended: a line with a block-comment start marker (before any
    [//]) and no end marker in the text after the line is skipped, and only
    that line: parsing resumes at the next line, so a declaration further
    down is found as if the text began there. *)
Theorem unterminated_comment_skips_line (l rest declaration : bytes) :
  ~ In newline l ->
  Contains (stripLineComment l) multilineCommentStart ->
  ~ Contains rest multilineCommentEnd ->
  parseDeclaration Unquote (l ++ newline :: rest) declaration
  = parseDeclaration Unquote rest declaration.
Proof.
  intros Hl Hstart Hend.
  rewrite parseDeclaration_eq.
  destruct (l ++ newline :: rest) as [|c t] eqn:E;
    [now destruct l|rewrite <- E; clear E].
  unfold parseLine. rewrite splitLine_app by exact Hl.
  apply Index_nonneg, Z.leb_le in Hstart. rewrite Hstart.
  apply Index_neg in Hend.
  replace (0 <? Bytes.Index rest multilineCommentEnd) with false
    by (symmetry; apply Z.ltb_ge; lia).
  reflexivity.
Qed.

(** C6: when every occurrence of the keyword in the text runs on into a
    longer token (the byte after it exists and starts no white space), the
    parser returns nothing. *)
Theorem keyword_prefix_absent (text declaration : bytes) :
  (forall pre post, text = pre ++ declaration ++ post ->
                    post <> [] /\ Space.width post = O) ->
  parseDeclaration Unquote text declaration = None.
Proof.
  intros H. unfold parseDeclaration.
  assert (G : forall n b, (exists pre, text = pre ++ b) ->
                          parseLoop Unquote n b declaration = None).
  { induction n as [|n IH]; intros b [pre Hb]; simpl; [reflexivity|].
    destruct b as [|c b]; [reflexivity|].
    destruct (parseLine Unquote (c :: b) declaration) as [b'|res] eqn:E.
    - apply parseLine_Continue in E as [[q Hq] _]; [|discriminate].
      apply IH. exists (pre ++ q). rewrite <- app_assoc, <- Hq. exact Hb.
    - exfalso.
      apply parseLine_Return in E as (x & post & r & Hx & Hr & Hlen).
      destruct (TrimSpace_sub x) as (a & z & Ha).
      pose proof (TrimSpace_end x) as Hend.
      rewrite Hr in Ha, Hend.
      destruct (H (pre ++ a) (r ++ z ++ post)) as [_ Hw].
      { rewrite Hb, Hx, Ha. now rewrite <- !app_assoc. }
      apply width_app in Hw.
      rewrite rev_app_distr in Hend. apply widthRev_app in Hend.
      apply Hlen. now rewrite TrimSpace_id. }
  apply G. now exists [].
Qed.

Lemma skips_parse (declaration b b' : bytes) :
  skips Unquote declaration b b' ->
  parseDeclaration Unquote b declaration
  = parseDeclaration Unquote b' declaration.
Proof.
  induction 1 as [|b b1 b' Hb E _ IH]; [reflexivity|].
  rewrite parseDeclaration_eq. destruct b; [congruence|]. now rewrite E.
Qed.

(** C7: when the first line that matches the keyword (the lines before
    it are passed with [continue]) has an argument that starts with a
    double quote or a backquote and that [Unquote] rejects, the parser
    returns nothing, whatever the lines after it hold. *)
Theorem malformed_quote_stops (text b declaration r arg : bytes) :
  skips Unquote declaration text b ->
  b <> [] ->
  ~ Contains (stripLineComment (fst (splitLine b))) multilineCommentStart ->
  TrimSpace (stripLineComment (fst (splitLine b))) = declaration ++ r ->
  TrimSpace r = arg ->
  length arg <> length r ->
  (exists c t, arg = c :: t /\ (c = dquote \/ c = backquote)) ->
  Unquote arg = None ->
  parseDeclaration Unquote text declaration = None.
Proof.
  intros Hskip Hb Hnc Hline Harg Hlen (c & t & Hc & Hq) Hun.
  rewrite (skips_parse Hskip), parseDeclaration_eq.
  destruct b as [|c0 b0]; [congruence|].
  unfold parseLine. destruct (splitLine (c0 :: b0)) as [line rest].
  simpl in Hnc, Hline.
  apply Index_neg in Hnc.
  replace (0 <=? Bytes.Index (stripLineComment line) multilineCommentStart)
    with false by (symmetry; apply Z.leb_gt; lia).
  rewrite Hline, HasPrefix_app. simpl negb. cbv iota.
  assert (Hr : from (declaration ++ r) (len declaration) = r).
  { unfold from, len. rewrite Nat2Z.id, skipn_app, Nat.sub_diag, skipn_all.
    reflexivity. }
  rewrite Hr, Harg.
  replace (len arg =? len r) with false
    by (symmetry; apply Z.eqb_neq; unfold len; lia).
  replace (len arg =? 0) with false
    by (symmetry; apply Z.eqb_neq; unfold len; rewrite Hc; cbn [length]; lia).
  simpl orb. cbv iota. rewrite Hc.
  replace (Ascii.eqb c dquote || Ascii.eqb c backquote) with true
    by (destruct Hq as [-> | ->]; reflexivity).
  rewrite <- Hc, Hun. reflexivity.
Qed.

End ParserClaims.

(** *** The parser on concrete texts *)

Lemma occurrences_spec (check : bytes -> bool) (kw text : bytes) :
  occurrences check kw text = true ->
  forall pre post, text = pre ++ kw ++ post -> check post = true.
Proof.
  intros H pre. revert text H. induction pre as [|c pre IH]; intros text H post E.
  - simpl in E. subst text. destruct kw as [|k kw'].
    + destruct post; simpl in H; now apply andb_true_iff in H as [H _].
    + cbn [occurrences app] in H. apply andb_true_iff in H as [H _].
      change (k :: kw' ++ post) with ((k :: kw') ++ post) in H.
      rewrite HasPrefix_app, skipn_app, Nat.sub_diag, skipn_all in H.
      exact H.
  - subst text. simpl in H. apply andb_true_iff in H as [_ H].
    now apply (IH _ H).
Qed.

Lemma tokenGoesOn_spec (post : bytes) :
  tokenGoesOn post = true -> post <> [] /\ Space.width post = O.
Proof.
  unfold tokenGoesOn. intros H. apply andb_true_iff in H as [H1 H2].
  apply Nat.eqb_eq in H2. split; [|exact H2].
  intros ->. discriminate.
Qed.

Lemma notIn_check (c : byte) (l : bytes) :
  existsb (Ascii.eqb c) l = false -> ~ In c l.
Proof.
  intros H Hin. assert (existsb (Ascii.eqb c) l = true); [|congruence].
  apply existsb_exists. exists c. split; [exact Hin|apply byte_eqb_refl].
Qed.

(** C5, counterexample: a block comment that is never closed, and the
    module declaration on the next line is returned all the same. *)
Lemma unterminated_comment_counterexample :
  let text := lit "/* open" ++ newline :: lit "module foo" in
  Contains text multilineCommentStart
  /\ ~ Contains text multilineCommentEnd
  /\ parseDeclaration Strconv.Unquote text moduleBytes = Some (lit "foo").
Proof.
  cbv zeta. split; [|split].
  - now exists [], (lit " open" ++ newline :: lit "module foo").
  - apply indexOf_None. reflexivity.
  - reflexivity.
Qed.

Lemma unterminated_comment_skips_line_witness :
  parseDeclaration Strconv.Unquote
    (lit "/* open" ++ newline :: lit "module foo") moduleBytes
  = parseDeclaration Strconv.Unquote (lit "module foo") moduleBytes.
Proof.
  apply (@unterminated_comment_skips_line Strconv.Unquote
           (lit "/* open") (lit "module foo") moduleBytes).
  - apply notIn_check. reflexivity.
  - apply Index_nonneg. vm_compute. discriminate.
  - apply Index_neg. reflexivity.
Defined.

Lemma keyword_prefix_absent_witness :
  parseDeclaration Strconv.Unquote
    (lit "moduleX github.com/a/b" ++ newline :: lit "  modules y // module2")
    moduleBytes
  = None.
Proof.
  apply keyword_prefix_absent.
  intros pre post E. apply tokenGoesOn_spec.
  revert pre post E. apply occurrences_spec. vm_compute. reflexivity.
Defined.

Lemma malformed_quote_stops_witness :
  let bad := lit "module " ++ dquote :: lit "abc" in
  let good := lit "module good" in
  parseDeclaration Strconv.Unquote
    (lit "// go.mod" ++ newline :: bad ++ newline :: good) moduleBytes = None
  /\ parseDeclaration Strconv.Unquote good moduleBytes = Some (lit "good").
Proof.
  cbv zeta. split; [|reflexivity].
  apply (@malformed_quote_stops Strconv.Unquote
           (lit "// go.mod" ++ newline :: (lit "module " ++ dquote :: lit "abc")
              ++ newline :: lit "module good")
           ((lit "module " ++ dquote :: lit "abc") ++ newline :: lit "module good")
           moduleBytes (lit " " ++ dquote :: lit "abc") (dquote :: lit "abc")).
  - eapply skips_next; [discriminate|reflexivity|apply skips_here].
  - discriminate.
  - apply Index_neg. reflexivity.
  - reflexivity.
  - reflexivity.
  - simpl. lia.
  - exists dquote, (lit "abc"). split; [reflexivity|now left].
  - reflexivity.
Defined.

(** ** Computations and their runs *)

Lemma runs_bind {A B : Type} (m : prog A) (f : A -> prog B)
    (t : list event) (b : B) :
  runs (bind m f) t b <->
  exists t1 t2 a, runs m t1 a /\ runs (f a) t2 b /\ t = t1 ++ t2.
Proof.
  split.
  - revert t. induction m as [a|c k IH]; intros t H; simpl in H.
    + exists [], t, a. repeat split; [constructor|exact H].
    + inversion H as [|c' k' r t' b' H' E1 E2 E3]; subst.
      apply IH in H' as (t1 & t2 & a & H1 & H2 & ->).
      exists ((c, r) :: t1), t2, a. repeat split; [now constructor|exact H2].
  - intros (t1 & t2 & a & H1 & H2 & ->).
    induction H1 as [a|c k r t1 a H1 IH]; simpl; [exact H2|].
    constructor. exact (IH H2).
Qed.

Lemma runs_Ret_inv {A : Type} (a b : A) (t : list event) :
  runs (Ret a) t b -> t = [] /\ b = a.
Proof. intros H. inversion H. now split. Qed.

Lemma runs_exec (c : call) (t : list event) (r : option error) :
  runs (exec c) t r <-> t = [(c, r)].
Proof.
  unfold exec. split.
  - intros H. inversion H as [|c' k' r' t' b' H' E1 E2 E3]; subst.
    apply runs_Ret_inv in H' as [-> ->]. reflexivity.
  - intros ->. repeat constructor.
Qed.

(** What [run] computes is a run. *)
Lemma run_runs {W A : Type} (os : call -> W -> option error * W)
    (m : prog A) (w : W) :
  runs m (snd (run os m w)) (fst (fst (run os m w))).
Proof.
  revert w. induction m as [a|c k IH]; intros w; simpl; [constructor|].
  destruct (os c w) as [r w1]. specialize (IH r w1).
  destruct (run os (k r) w1) as [[a w2] t]. simpl in *. now constructor.
Qed.

(** ** The extraction loop *)

Ltac inv_runs :=
  repeat match goal with
    | H : runs (Ret _) _ _ |- _ => apply runs_Ret_inv in H as [? ?]; subst
    | H : runs (exec _) _ _ |- _ => apply runs_exec in H; subst
    | H : runs (bind _ _) _ _ |- _ =>
        apply runs_bind in H as (? & ? & ? & ? & H & ?); subst
    | H : runs (match ?x with _ => _ end) _ _ |- _ => destruct x eqn:?
    end.

Lemma extractEntry_runs (dest old new : bytes) (sr : bool) (f : Zip.File)
    (t : list event) (r : option error) :
  runs (extractEntry dest old new sr f) t r <-> entryRun dest old new sr f t r.
Proof.
  unfold extractEntry. fold (fpathOf dest f). fold (guard dest f). split.
  - intros H. destruct (guard dest f) eqn:G; cbn [negb] in H.
    2:{ inv_runs. now constructor. }
    destruct (Zip.IsDir f) eqn:D.
    { inv_runs. now constructor. }
    apply runs_bind in H as (t1 & t2 & a & H1 & H2 & ->).
    apply runs_exec in H1 as ->.
    destruct a as [e|]; [inv_runs; now constructor|].
    destruct (Zip.Open f) as [e|rc] eqn:O; [inv_runs; now apply er_open|].
    destruct sr.
    + destruct rc as [data [e|]]; cbn [ReadAll] in H2.
      * inv_runs. now apply er_read with data.
      * unfold NoOpReadCloser, copyOut in H2. inv_runs.
        exact (@er_copy dest old new true f (data, None) _ _ G D O
                 (fun _ => eq_refl)).
    + unfold copyOut in H2. inv_runs.
      refine (@er_copy dest old new false f rc _ _ G D O _). discriminate.
  - intros H.
    destruct H as [G|a G D|e G D|e G D O|data e G D O S|rc werr cl G D O S];
      rewrite G; cbn [negb]; try rewrite D.
    + constructor.
    + apply runs_bind. eexists [_], [], a.
      repeat split; [now apply runs_exec|constructor].
    + apply runs_bind. eexists [_], [], (Some e).
      repeat split; [now apply runs_exec|constructor].
    + apply runs_bind. eexists [_], [], None.
      repeat split; [now apply runs_exec|rewrite O; constructor].
    + apply runs_bind. eexists [_], [], None.
      repeat split; [now apply runs_exec|rewrite O, S; cbn [ReadAll]; constructor].
    + apply runs_bind. eexists [_], [_; _], None.
      repeat split; [now apply runs_exec|rewrite O].
      assert (E : (if sr
                   then match ReadAll rc with
                        | inl e => inl e
                        | inr contents =>
                            inr (NoOpReadCloser
                                   (Replace.ReplaceAll contents old new))
                        end
                   else inr rc)
                  = inr (written old new sr rc, snd rc)).
      { unfold written. destruct sr, rc as [d o]; [|reflexivity].
        cbn [snd] in S. rewrite (S eq_refl). reflexivity. }
      rewrite E. unfold copyOut.
      apply runs_bind. eexists [_], [_], werr. repeat split.
      * now apply runs_exec.
      * apply runs_bind. eexists [_], [], cl. repeat split.
        -- now apply runs_exec.
        -- constructor.
Qed.

(** The loop is the runs of its body, one entry after the other, up to the
    first that returns an error. *)
Lemma extract_cons_runs (dest old new : bytes) (sr : bool) (f : Zip.File)
    (rest : list Zip.File) (t : list event) (r : option error) :
  runs (extract dest old new sr (f :: rest)) t r <->
  exists t1 r1, entryRun dest old new sr f t1 r1 /\
    match r1 with
    | Some e => t = t1 /\ r = Some e
    | None => exists t2, runs (extract dest old new sr rest) t2 r /\ t = t1 ++ t2
    end.
Proof.
  cbn [extract]. rewrite runs_bind. split.
  - intros (t1 & t2 & r1 & H1 & H2 & ->). apply extractEntry_runs in H1.
    exists t1, r1. split; [exact H1|]. destruct r1 as [e|].
    + apply runs_Ret_inv in H2 as [-> ->]. now rewrite app_nil_r.
    + now exists t2.
  - intros (t1 & r1 & H1 & H2). apply extractEntry_runs in H1.
    destruct r1 as [e|].
    + destruct H2 as [-> ->]. exists t1, [], (Some e).
      repeat split; [exact H1|constructor|now rewrite app_nil_r].
    + destruct H2 as (t2 & H2 & ->). now exists t1, t2, None.
Qed.

Lemma agree_app_inv (t1 t2 t' : list event) :
  agree (t1 ++ t2) t' ->
  exists t1' t2', t' = t1' ++ t2' /\ agree t1 t1' /\ agree t2 t2'.
Proof.
  unfold agree. intros H. apply Forall2_app_inv_l in H as (a & b & H1 & H2 & ->).
  now exists a, b.
Qed.

(** Every call of the loop is for an entry that passed the test of its
    path, and works on that path. *)
Lemma extract_calls (dest old new : bytes) (sr : bool) (files : list Zip.File)
    (t : list event) (r : option error) :
  runs (extract dest old new sr files) t r ->
  forall c a, In (c, a) t ->
    exists f, In f files /\ guard dest f = true /\ target c = fpathOf dest f.
Proof.
  revert t. induction files as [|f rest IH]; intros t H c a Hin.
  - apply runs_Ret_inv in H as [-> _]. destruct Hin.
  - apply extract_cons_runs in H as (t1 & r1 & H1 & H2).
    assert (Hf : In (c, a) t1 -> guard dest f = true /\ target c = fpathOf dest f).
    { destruct H1; simpl; intros Hc;
        repeat (destruct Hc as [[= <- <-]|Hc]; [now split|]); destruct Hc. }
    destruct r1 as [e|].
    + destruct H2 as [-> ->]. exists f. split; [now left|now apply Hf].
    + destruct H2 as (t2 & H2 & ->). apply in_app_or in Hin as [Hin|Hin].
      * exists f. split; [now left|now apply Hf].
      * destruct (IH _ H2 _ _ Hin) as (g & Hg & Hrest).
        exists g. split; [now right|exact Hrest].
Qed.

(** What the loop copies into a file is what the entry delivers, after the
    replacement when there is one; when the loop ends without error, the
    entry was read to its end and the copy went through. *)
Lemma extract_copies (dest old new : bytes) (sr : bool) (files : list Zip.File)
    (t : list event) (r : option error) :
  runs (extract dest old new sr files) t r ->
  forall name data a, In (Copy name data, a) t ->
    exists f rc, In f files /\ name = fpathOf dest f /\ Zip.Open f = inr rc
                 /\ data = written old new sr rc
                 /\ (sr = true -> snd rc = None)
                 /\ (r = None -> snd rc = None /\ a = None).
Proof.
  revert t. induction files as [|f rest IH]; intros t H name data a Hin.
  - apply runs_Ret_inv in H as [-> _]. destruct Hin.
  - apply extract_cons_runs in H as (t1 & r1 & H1 & H2).
    assert (Hf : In (Copy name data, a) t1 ->
                 exists rc, name = fpathOf dest f /\ Zip.Open f = inr rc
                            /\ data = written old new sr rc
                            /\ (sr = true -> snd rc = None)
                            /\ (r1 = None -> snd rc = None /\ a = None)).
    { destruct H1; simpl; intros Hc;
        repeat match goal with
          | H : _ \/ _ |- _ => destruct H
          | H : False |- _ => destruct H
          | H : (_, _) = (_, _) |- _ =>
              first [discriminate H | injection H as <- <- <-]
          end.
      exists rc. repeat split; try assumption;
        destruct werr; try discriminate; auto. }
    destruct r1 as [e|].
    + destruct H2 as [-> ->]. destruct (Hf Hin) as (rc & H3 & H4 & H5 & H6 & _).
      exists f, rc. repeat split; try assumption; try (now left); discriminate.
    + destruct H2 as (t2 & H2 & ->). apply in_app_or in Hin as [Hin|Hin].
      * destruct (Hf Hin) as (rc & H3 & H4 & H5 & H6 & H7).
        exists f, rc. repeat split; try assumption; try (now left);
          now apply H7.
      * destruct (IH _ H2 _ _ _ Hin) as (g & rc & Hg & Hrest).
        exists g, rc. split; [now right|exact Hrest].
Qed.

(** The loop ends without error only when every entry passed the test of
    its path. *)
Lemma extract_None (dest old new : bytes) (sr : bool) (files : list Zip.File)
    (t : list event) :
  runs (extract dest old new sr files) t None ->
  forall f, In f files -> guard dest f = true.
Proof.
  revert t. induction files as [|f rest IH]; intros t H g Hg; [destruct Hg|].
  apply extract_cons_runs in H as (t1 & r1 & H1 & H2).
  destruct r1 as [e|]; [now destruct H2|].
  destruct H2 as (t2 & H2 & ->). destruct Hg as [<-|Hg].
  - inversion H1; assumption.
  - now apply (IH _ H2).
Qed.

Lemma entryRun_checked (dest old new : bytes) (sr : bool) (f : Zip.File)
    (t : list event) (r : option error) :
  entryRun dest old new sr f t r ->
  forall pre c e post, t = pre ++ (c, Some e) :: post -> checked c = true ->
    r = Some e /\ stopped c post.
Proof.
  unfold stopped.
  intros H pre c e post E Hc.
  destruct H; destruct pre as [|x1 [|x2 [|x3 [|x4 pre]]]]; simpl in E;
    try discriminate E; injection E; intros; subst; try discriminate;
    try (split; [reflexivity|now left]).
  split; [reflexivity|right]. now eexists _, _.
Qed.

Lemma entryRun_agree (dest old new : bytes) (sr : bool) (f : Zip.File)
    (t t' : list event) (r : option error) :
  entryRun dest old new sr f t r -> agree t t' ->
  entryRun dest old new sr f t' r.
Proof.
  unfold agree. intros H A.
  destruct H;
    repeat match goal with
      | H : Forall2 _ (_ :: _) _ |- _ =>
          apply Forall2_cons_iff_l in H
      | H : Forall2 _ [] _ |- _ => inversion H; subst; clear H
      end.
  all: repeat match goal with
         | H : Forall2 _ (_ :: _) ?l |- _ => inversion H; subst; clear H
         | H : Forall2 _ [] ?l |- _ => inversion H; subst; clear H
         | H : _ /\ _ |- _ => destruct H
         | x : event |- _ => destruct x
         | x : (call * option error)%type |- _ => destruct x
         end; simpl in *; subst.
  all: repeat match goal with
         | H : true = true -> _ |- _ => specialize (H eq_refl); subst
         end.
  all: try (now constructor).
  now apply er_read with data.
Qed.

(** A failed create or copy ends the loop with that error. *)
Lemma extract_checked (dest old new : bytes) (sr : bool) (files : list Zip.File)
    (t : list event) (r : option error) :
  runs (extract dest old new sr files) t r ->
  forall pre c e post, t = pre ++ (c, Some e) :: post -> checked c = true ->
    r = Some e /\ stopped c post.
Proof.
  revert t. induction files as [|f rest IH]; intros t H pre c e post E Hc.
  - apply runs_Ret_inv in H as [-> _]. now destruct pre.
  - apply extract_cons_runs in H as (t1 & r1 & H1 & H2).
    destruct r1 as [e1|].
    + destruct H2 as [-> ->].
      now apply (entryRun_checked H1) with (pre := pre).
    + destruct H2 as (t2 & H2 & ->).
      apply app_eq_app in E as [l [[E1 E2]|[E1 E2]]].
      * destruct l as [|x l].
        -- simpl in E2. rewrite app_nil_r in E1. subst.
           now apply (IH _ H2) with (pre := []).
        -- injection E2 as <- ->. subst t1.
           destruct (entryRun_checked H1 pre _ _ l eq_refl Hc) as [? _].
           discriminate.
      * subst. now apply (IH _ H2) with (pre := l).
Qed.

(** The answers of the calls whose error is not looked at make no
    difference. *)
Lemma extract_agree (dest old new : bytes) (sr : bool) (files : list Zip.File)
    (t t' : list event) (r : option error) :
  runs (extract dest old new sr files) t r -> agree t t' ->
  runs (extract dest old new sr files) t' r.
Proof.
  revert t t'. induction files as [|f rest IH]; intros t t' H A.
  - apply runs_Ret_inv in H as [-> ->]. inversion A. constructor.
  - apply extract_cons_runs in H as (t1 & r1 & H1 & H2).
    apply extract_cons_runs. destruct r1 as [e1|].
    + destruct H2 as [-> ->]. exists t', (Some e1).
      split; [now apply (entryRun_agree H1)|now split].
    + destruct H2 as (t2 & H2 & ->).
      apply agree_app_inv in A as (t1' & t2' & -> & A1 & A2).
      exists t1', None. split; [now apply (entryRun_agree H1)|].
      exists t2'. split; [now apply (IH _ _ H2)|reflexivity].
Qed.

(** ** [unzip] *)

Section UnzipFacts.

Variable Unquote : bytes -> option bytes.
Variable NewReader : bytes -> result (list Zip.File).
Variable env : Env.

Local Abbreviation unzip' := (unzip Unquote NewReader env).
Local Abbreviation scan p files :=
  (findModule Unquote files (modFile p) p (length files - 1)).

(** The runs of [unzip] once the archive is open and the manifest scan is
    through: the loop over the entries, then, when it ends without error,
    [RemoveAll] and [Rename]. *)
Lemma unzip_runs (p : Project) (body : bytes) (files : list Zip.File)
    (old : bytes) (p1 : Project) (t : list event) (p' : Project)
    (r : option error) :
  NewReader body = inr files ->
  scan p files = inr (old, p1) ->
  runs (unzip' p body) t (p', r) <->
  p' = setDest p1 (resolveDest env p1) /\
  exists t1 r1,
    runs (extract (resolveDest env p1) old (Module p1)
            (negb (Bytes.Equal old (Module p1))) files) t1 r1 /\
    match r1 with
    | Some e => t = t1 /\ r = Some e
    | None =>
        exists a, t = t1 ++ [(RemoveAll (newpathOf env p1), a);
                             (Rename (rootOf env p p1) (newpathOf env p1), r)]
    end.
Proof.
  intros HN HS. unfold unzip, newpathOf, rootOf. rewrite HN, HS.
  cbn [Module setDest]. rewrite runs_bind. split.
  - intros (t1 & t2 & r1 & H1 & H2 & ->). destruct r1 as [e|].
    + apply runs_Ret_inv in H2 as [-> [= -> ->]].
      split; [reflexivity|]. exists t1, (Some e).
      split; [exact H1|]. now rewrite app_nil_r.
    + inv_runs.
      match goal with H : (_, _) = (_, _) |- _ => injection H as -> -> end.
      split; [reflexivity|]. exists t1, None. split; [exact H1|].
      eexists. reflexivity.
  - intros [-> (t1 & r1 & H1 & H2)]. destruct r1 as [e|].
    + destruct H2 as [-> ->]. exists t1, [], (Some e).
      repeat split; [exact H1|constructor|now rewrite app_nil_r].
    + destruct H2 as (a & ->). eexists t1, [_; _], None.
      split; [exact H1|]. split; [|reflexivity].
      apply runs_bind. eexists [_], [_], a.
      repeat split; [now apply runs_exec|].
      apply runs_bind. eexists [_], [], r.
      repeat split; [now apply runs_exec|constructor].
Qed.

(** Before that, [unzip] makes no call. *)
Lemma unzip_runs_early (p : Project) (body : bytes) (t : list event)
    (p' : Project) (r : option error) :
  runs (unzip' p body) t (p', r) ->
  (exists files old p1,
      NewReader body = inr files /\ scan p files = inr (old, p1))
  \/ (t = [] /\ p' = p /\ r <> None).
Proof.
  unfold unzip. destruct (NewReader body) as [err|files] eqn:HN.
  - intros H. apply runs_Ret_inv in H as [-> [= -> ->]]. right.
    repeat split. discriminate.
  - destruct (scan p files) as [err|[old p1]] eqn:HS.
    + intros H. apply runs_Ret_inv in H as [-> [= -> ->]]. right.
      repeat split. discriminate.
    + intros _. left. now exists files, old, p1.
Qed.

(** C9, as amended: the failure of a file create ([OpenFile]), of a copy
    or of the final rename is fatal: [unzip] returns that error, and makes
    no further call but the [Close] of the file a failed copy went to.  The
    answers of [MkdirAll], [Close] and [RemoveAll] are not looked at: with
    other answers to them the run is the same. *)
Theorem checked_failures_are_fatal (p : Project) (body : bytes)
    (t : list event) (p' : Project) (r : option error) :
  runs (unzip' p body) t (p', r) ->
  (forall pre c e post,
      t = pre ++ (c, Some e) :: post -> checked c = true ->
      r = Some e /\ stopped c post)
  /\ (forall t', agree t t' -> runs (unzip' p body) t' (p', r)).
Proof.
  intros H.
  destruct (@unzip_runs_early p body t p' r H)
    as [(files & old & p1 & HN & HS)|(-> & -> & _)].
  2:{ split.
      - intros pre c e post E. now destruct pre.
      - intros t' A. inversion A. subst. exact H. }
  destruct (proj1 (@unzip_runs p body files old p1 t p' r HN HS) H)
    as [Ep (t1 & r1 & H1 & H2)].
  clear H. subst p'.
  assert (U := fun t' r' =>
            @unzip_runs p body files old p1 t'
              (setDest p1 (resolveDest env p1)) r' HN HS).
  split.
  - intros pre c e post E Hc. destruct r1 as [e1|].
    + destruct H2 as [-> ->]. eapply extract_checked; [exact H1|exact E|exact Hc].
    + destruct H2 as (a & ->).
      apply app_eq_app in E as [l [[E1 E2]|[E1 E2]]].
      * destruct l as [|x l].
        -- simpl in E2. injection E2 as -> _ _. discriminate Hc.
        -- injection E2 as <- _. subst t1.
           destruct (@extract_checked _ _ _ _ _ _ _ H1 pre _ _ l eq_refl Hc)
             as [? _].
           discriminate.
      * destruct l as [|x [|y [|z l]]]; simpl in E2; try discriminate E2.
        -- injection E2 as <- _ _. discriminate Hc.
        -- injection E2 as _ _ <- <-. split; [reflexivity|now left].
  - intros t' A. apply U. split; [reflexivity|]. destruct r1 as [e1|].
    + destruct H2 as [-> ->]. exists t', (Some e1).
      split; [eapply extract_agree; [exact H1|exact A]|now split].
    + destruct H2 as (a & ->).
      apply agree_app_inv in A as (t1' & t2' & -> & A1 & A2).
      exists t1', None. split; [eapply extract_agree; [exact H1|exact A1]|].
      inversion A2 as [|x x' l l' [Hx _] A3]; subst.
      inversion A3 as [|y y' l2 l2' [Hy Hy'] A4]; subst.
      inversion A4; subst.
      destruct x' as [cx ax], y' as [cy ay]. simpl in *. subst.
      rewrite (Hy' eq_refl). now exists ax.
Qed.

End UnzipFacts.

(** ** The manifest scan *)

(** What the scan ends in: with the empty name and the project as it was,
    every entry from [i] down to 1 having another name; or at the entry
    with the largest index in [1..i] whose cleaned name is [modFile], with
    the module path of its content. *)
Lemma findModule_inv (Unquote : bytes -> option bytes)
    (files : list Zip.File) (mf : bytes) (p : Project) (i : nat)
    (old : bytes) (p1 : Project) :
  (i <= length files - 1)%nat ->
  findModule Unquote files mf p i = inr (old, p1) ->
  (old = [] /\ p1 = p
   /\ forall j f, (1 <= j <= i)%nat -> nth_error files j = Some f ->
                  Bytes.Equal (Filepath.Clean (Zip.Name f)) mf = false)
  \/ (exists j f contents,
         (1 <= j <= i)%nat /\ nth_error files j = Some f
         /\ Bytes.Equal (Filepath.Clean (Zip.Name f)) mf = true
         /\ (forall k g, (j < k <= i)%nat -> nth_error files k = Some g ->
                         Bytes.Equal (Filepath.Clean (Zip.Name g)) mf = false)
         /\ Zip.Open f = inr (contents, None)
         /\ old = orEmpty (ModulePath Unquote contents)
         /\ p1 = match Module p with
                 | [] => setModule p old
                 | _ :: _ => p
                 end).
Proof.
  induction i as [|i IH]; intros Hi; cbn [findModule].
  - intros [= <- <-]. left. repeat split. intros j f Hj. exfalso. lia.
  - destruct (nth_error files (S i)) as [f|] eqn:Hf.
    2:{ apply nth_error_None in Hf. exfalso. lia. }
    destruct (Bytes.Equal (Filepath.Clean (Zip.Name f)) mf) eqn:E.
    + destruct (Zip.Open f) as [err|[contents [err|]]] eqn:O;
        cbn [ReadAll]; try discriminate.
      intros [= <- <-]. right. exists (S i), f, contents.
      repeat split; try assumption; try lia.
    + intros H.
      destruct (IH ltac:(lia) H)
        as [(H1 & H2 & H3)|(j & g & c & H1 & H2 & H3 & H4 & H5 & H6 & H7)].
      * left. repeat split; try assumption. intros j g Hj Hg.
        destruct (Nat.eq_dec j (S i)) as [->|Hne].
        -- rewrite Hf in Hg. injection Hg as <-. exact E.
        -- apply (H3 j g); [lia|exact Hg].
      * right. exists j, g, c. repeat split; try assumption; try lia.
        intros k h Hk Hh. destruct (Nat.eq_dec k (S i)) as [->|Hne].
        -- rewrite Hf in Hh. injection Hh as <-. exact E.
        -- apply (H4 k h); [lia|exact Hh].
Qed.

(** The identity after the scan: the one the project came with, or, when
    that is empty, the module path read from the manifest. *)
Lemma findModule_Module (Unquote : bytes -> option bytes)
    (files : list Zip.File) (mf : bytes) (p : Project) (i : nat)
    (old : bytes) (p1 : Project) :
  (i <= length files - 1)%nat ->
  findModule Unquote files mf p i = inr (old, p1) ->
  Module p1 = match Module p with
              | [] => old
              | _ :: _ => Module p
              end.
Proof.
  intros Hi H. apply findModule_inv in H; [|exact Hi].
  destruct H as [(-> & -> & _)|(j & f & c & _ & _ & _ & _ & _ & _ & ->)];
    destruct (Module p) eqn:E; simpl; congruence.
Qed.

Section UnzipClaims.

Variable Unquote : bytes -> option bytes.
Variable NewReader : bytes -> result (list Zip.File).
Variable env : Env.

Local Abbreviation unzip' := (unzip Unquote NewReader env).
Local Abbreviation scan p files :=
  (findModule Unquote files (modFile p) p (length files - 1)).

(** C3, as amended: when [unzip] makes a call at all, the manifest scan
    is through, and the identity is from then on the one the descriptor
    came with or, when that is empty, the module path that the scan read
    from the manifest; the extraction loop runs with this identity, which
    is empty exactly when the descriptor's is and the scan found no module
    path. *)
Theorem identity_is_resolved_by_the_scan (p : Project) (body : bytes)
    (t : list event) (p' : Project) (r : option error) :
  runs (unzip' p body) t (p', r) -> t <> [] ->
  exists files old p1,
    NewReader body = inr files /\ scan p files = inr (old, p1)
    /\ Module p' = match Module p with
                   | [] => old
                   | _ :: _ => Module p
                   end
    /\ (Module p' = [] <-> Module p = [] /\ old = [])
    /\ exists t1 t2 r1,
         t = t1 ++ t2
         /\ runs (extract (Dest p') old (Module p')
                    (negb (Bytes.Equal old (Module p'))) files) t1 r1.
Proof.
  intros H Ht.
  destruct (@unzip_runs_early Unquote NewReader env p body t p' r H)
    as [(files & old & p1 & HN & HS)|(-> & _)]; [|congruence].
  exists files, old, p1. split; [exact HN|]. split; [exact HS|].
  apply (@unzip_runs Unquote NewReader env p body files old p1 t p' r HN HS) in H
    as [-> (t1 & r1 & H1 & H2)].
  cbn [Module Dest setDest]. rewrite (@findModule_Module _ _ _ _ _ _ _ (Nat.le_refl _) HS).
  split; [reflexivity|]. split.
  - destruct (Module p); [tauto|]. split; [discriminate|]. now intros [? _].
  - rewrite <- (@findModule_Module _ _ _ _ _ _ _ (Nat.le_refl _) HS).
    destruct r1 as [e|].
    + destruct H2 as [-> ->]. exists t1, [], (Some e).
      split; [now rewrite app_nil_r|exact H1].
    + destruct H2 as (a & ->). now eexists t1, _, None.
Qed.

(** C8: when the identity found in the archive equals the target identity,
    every copy into an extracted file carries the bytes the archive has for
    that entry; when [unzip] succeeds, the entry was read to its end and
    the copy went through. *)
Theorem equal_identities_copy_verbatim (p : Project) (body : bytes)
    (files : list Zip.File) (old : bytes) (p1 : Project)
    (t : list event) (p' : Project) (r : option error) :
  NewReader body = inr files ->
  scan p files = inr (old, p1) ->
  old = Module p1 ->
  runs (unzip' p body) t (p', r) ->
  forall name data a, In (Copy name data, a) t ->
    exists f stored rerr,
      In f files /\ name = fpathOf (resolveDest env p1) f
      /\ Zip.Open f = inr (stored, rerr) /\ data = stored
      /\ (r = None -> rerr = None /\ a = None).
Proof.
  intros HN HS Heq H name data a Hin.
  apply (@unzip_runs Unquote NewReader env p body files old p1 t p' r HN HS) in H
    as [-> (t1 & r1 & H1 & H2)].
  rewrite Heq, Equal_refl in H1. cbn [negb] in H1.
  assert (Hin1 : In (Copy name data, a) t1 /\ (r = None -> r1 = None)).
  { destruct r1 as [e|].
    - destruct H2 as [-> ->]. split; [exact Hin|discriminate].
    - destruct H2 as (x & ->). split; [|reflexivity].
      apply in_app_or in Hin as [Hin|Hin]; [exact Hin|].
      simpl in Hin. destruct Hin as [Hin|[Hin|[]]]; discriminate Hin. }
  destruct Hin1 as [Hin1 Hr].
  destruct (@extract_copies _ _ _ _ _ _ _ H1 name data a Hin1)
    as (f & [stored rerr] & Hf & Hname & Ho & Hd & _ & Hok).
  exists f, stored, rerr. repeat split; try assumption.
  - now destruct (Hok (Hr H)).
  - now destruct (Hok (Hr H)).
Qed.

End UnzipClaims.

(** ** Replacing the empty byte sequence *)

Lemma DecodeRune_width (p : bytes) :
  p <> [] -> (1 <= snd (Utf8.DecodeRune p))%nat.
Proof.
  destruct p as [|c p]; [congruence|intros _].
  unfold Utf8.DecodeRune.
  repeat match goal with
    | |- context [if ?b then _ else _] => destruct b
    end; simpl; lia.
Qed.

Lemma DecodeRune_ascii (c : byte) (p : bytes) :
  isASCII c = true -> snd (Utf8.DecodeRune (c :: p)) = 1%nat.
Proof.
  unfold isASCII, Utf8.DecodeRune, Utf8.first, Utf8.RuneSelf. intros H.
  rewrite H. reflexivity.
Qed.

Lemma runes_concat (fuel : nat) (s : bytes) :
  (length s <= fuel)%nat -> concat (Utf8.runes fuel s) = s.
Proof.
  revert s. induction fuel as [|fuel IH]; intros s Hs.
  - destruct s; [reflexivity|simpl in Hs; lia].
  - destruct s as [|c s]; [reflexivity|].
    cbn [Utf8.runes concat].
    pose proof (@DecodeRune_width (c :: s) ltac:(discriminate)) as Hw.
    rewrite IH; [apply firstn_skipn|].
    rewrite length_skipn. cbn [length] in Hs |- *. lia.
Qed.

Lemma runes_ascii (fuel : nat) (s : bytes) :
  forallb isASCII s = true -> (length s <= fuel)%nat ->
  Utf8.runes fuel s = map (fun c => [c]) s.
Proof.
  revert s. induction fuel as [|fuel IH]; intros s Ha Hs.
  - destruct s; [reflexivity|simpl in Hs; lia].
  - destruct s as [|c s]; [reflexivity|].
    simpl in Ha. apply andb_true_iff in Ha as [Hc Ha].
    cbn [Utf8.runes map]. rewrite (@DecodeRune_ascii c s Hc).
    simpl. f_equal. apply IH; [exact Ha|simpl in Hs; lia].
Qed.

Lemma replaceLoop_runes (new : bytes) (fuel : nat) (s : bytes) :
  (length s <= fuel)%nat ->
  Replace.replaceLoop (length (Utf8.runes fuel s)) true s [] new
  = flat_map (fun r => r ++ new) (Utf8.runes fuel s).
Proof.
  revert s. induction fuel as [|fuel IH]; intros s Hs.
  - destruct s; [reflexivity|simpl in Hs; lia].
  - destruct s as [|c s]; [reflexivity|].
    cbn [Utf8.runes length Replace.replaceLoop flat_map].
    pose proof (@DecodeRune_width (c :: s) ltac:(discriminate)) as Hw.
    unfold upto, from, len. cbn [length].
    rewrite Z.add_0_r, Nat2Z.id, <- app_assoc. f_equal. f_equal.
    apply IH. rewrite length_skipn. cbn [length] in Hs |- *. lia.
Qed.

(** [bytes.ReplaceAll] with an empty [old]. *)
Lemma ReplaceAll_empty (s new : bytes) :
  Replace.ReplaceAll s [] new = afterEveryRune new s.
Proof.
  unfold Replace.ReplaceAll, Replace.Replace, afterEveryRune.
  cbn [Z.eqb Replace.Count Z.ltb Z.compare orb Utf8.RuneCount].
  cbn [Replace.replaceLoop]. unfold upto, from. simpl firstn. simpl skipn.
  cbn [app]. f_equal. apply replaceLoop_runes. lia.
Qed.

Lemma flat_map_length_add (new : bytes) (rs : list bytes) :
  length (flat_map (fun r => r ++ new) rs)
  = (length (concat rs) + length rs * length new)%nat.
Proof.
  induction rs as [|r rs IH]; [reflexivity|].
  simpl. rewrite !length_app, IH. lia.
Qed.

(** It never leaves the content as it was, not even the empty one. *)
Lemma afterEveryRune_neq (new s : bytes) : new <> [] -> afterEveryRune new s <> s.
Proof.
  intros Hn E. apply (f_equal (@length byte)) in E.
  unfold afterEveryRune in E.
  rewrite length_app, flat_map_length_add, runes_concat in E by lia.
  destruct new; [congruence|simpl in E; lia].
Qed.

Lemma interleave_shift (new s : bytes) :
  new ++ flat_map (fun r => r ++ new) (map (fun c => [c]) s)
  = beforeEveryByte new s.
Proof.
  unfold beforeEveryByte. induction s as [|c s IH]; simpl.
  - apply app_nil_r.
  - rewrite <- !app_assoc. f_equal. simpl. f_equal. exact IH.
Qed.

(** On ASCII content that is before every byte and at the end. *)
Lemma afterEveryRune_ascii (new s : bytes) :
  forallb isASCII s = true -> afterEveryRune new s = beforeEveryByte new s.
Proof.
  intros H. unfold afterEveryRune. rewrite runes_ascii by (auto; lia).
  apply interleave_shift.
Qed.

Section EmptyIdentity.

Variable Unquote : bytes -> option bytes.
Variable NewReader : bytes -> result (list Zip.File).
Variable env : Env.

Local Abbreviation unzip' := (unzip Unquote NewReader env).
Local Abbreviation scan p files :=
  (findModule Unquote files (modFile p) p (length files - 1)).

(** C10, as amended: when the scan finds no identity in the archive and
    the descriptor has one, the rewrite decision is true, and every copy
    into an extracted file carries the entry's content with the new
    identity inserted at its beginning and after every UTF-8 sequence of
    it (a well-formed encoding, or a single byte that starts none).  That
    is never the content as it was; on content that is all ASCII it is the
    identity before every byte and at the end. *)
Theorem empty_identity_inserts_after_runes (p : Project) (body : bytes)
    (files : list Zip.File) (p1 : Project) (t : list event) (p' : Project)
    (r : option error) :
  NewReader body = inr files ->
  scan p files = inr ([], p1) ->
  Module p <> [] ->
  runs (unzip' p body) t (p', r) ->
  negb (Bytes.Equal [] (Module p)) = true
  /\ forall name data a, In (Copy name data, a) t ->
       exists f content,
         In f files /\ name = fpathOf (resolveDest env p1) f
         /\ Zip.Open f = inr (content, None)
         /\ data = afterEveryRune (Module p) content
         /\ data <> content
         /\ (forallb isASCII content = true ->
             data = beforeEveryByte (Module p) content).
Proof.
  intros HN HS Hm H.
  assert (HM : Module p1 = Module p).
  { rewrite (@findModule_Module _ _ _ _ _ _ _ (Nat.le_refl _) HS).
    destruct (Module p); congruence. }
  assert (Hsr : negb (Bytes.Equal [] (Module p)) = true)
    by (destruct (Module p); [congruence|reflexivity]).
  split; [exact Hsr|]. intros name data a Hin.
  apply (@unzip_runs Unquote NewReader env p body files [] p1 t p' r HN HS) in H
    as [-> (t1 & r1 & H1 & H2)].
  rewrite HM, Hsr in H1.
  assert (Hin1 : In (Copy name data, a) t1).
  { destruct r1 as [e|].
    - now destruct H2 as [-> ->].
    - destruct H2 as (x & ->).
      apply in_app_or in Hin as [Hin|Hin]; [exact Hin|].
      simpl in Hin. destruct Hin as [Hin|[Hin|[]]]; discriminate Hin. }
  destruct (@extract_copies _ _ _ _ _ _ _ H1 name data a Hin1)
    as (f & [content rerr] & Hf & Hname & Ho & Hd & Hrd & _).
  cbn [snd] in Hrd. rewrite (Hrd eq_refl) in Ho.
  unfold written in Hd. cbn [fst] in Hd. rewrite ReplaceAll_empty in Hd.
  exists f, content. subst data. repeat split; try assumption.
  - now apply afterEveryRune_neq.
  - apply afterEveryRune_ascii.
Qed.

End EmptyIdentity.

(** ** Runs on the simulated file system *)

Lemma installOn_runs (Unquote : bytes -> option bytes) (files : list Zip.File)
    (p : Project) (e : Env) (d : SimFS.fs) :
  let x := Demo.installOn Unquote files p e d in
  runs (Demo.install Unquote files p e) (Demo.traceOf x)
    (Demo.projectOf x, Demo.errorOf x).
Proof.
  cbv zeta. unfold Demo.installOn, Demo.traceOf, Demo.projectOf, Demo.errorOf.
  pose proof (run_runs SimFS.os (Demo.install Unquote files p e) d) as H.
  destruct (run SimFS.os (Demo.install Unquote files p e) d) as [[[p' r] d'] t].
  exact H.
Qed.

(** C2: the scenario of the specification.  [unzip] succeeds; it copies
    the content of main.go with the new identity in the place of the old
    one into the extracted file, and renames the extracted root to [app],
    so that main.go is there with that content. *)
Theorem demo_scenario (Unquote : bytes -> option bytes) :
  let x := Demo.installOn Unquote Demo.archive Demo.project Demo.env Demo.disk in
  Demo.errorOf x = None
  /\ In (Copy (lit "/work/demo-master/main.go") Demo.mainGoRewritten, None)
        (Demo.traceOf x)
  /\ In (Rename (lit "/work/demo-master") (lit "/work/app"), None)
        (Demo.traceOf x)
  /\ SimFS.lookup (lit "/work/app/main.go") (Demo.diskOf x)
     = Some (SimFS.File Demo.mainGoRewritten 420)
  /\ SimFS.lookup (lit "/work/app") (Demo.diskOf x) = Some SimFS.Dir
  /\ SimFS.lookup (lit "/work/demo-master") (Demo.diskOf x) = None.
Proof.
  vm_compute. repeat split; auto 12.
Qed.

(** The same with go.mod as the last entry. *)
Example demo_scenario_manifest_last (Unquote : bytes -> option bytes) :
  let x := Demo.installOn Unquote
             [Demo.dirEntry "demo-master/"; Demo.mainGo; Demo.goMod]
             Demo.project Demo.env Demo.disk in
  Demo.errorOf x = None
  /\ SimFS.lookup (lit "/work/app/main.go") (Demo.diskOf x)
     = Some (SimFS.File Demo.mainGoRewritten 420).
Proof.
  vm_compute. split; reflexivity.
Qed.

(** C4: the manifest as the first entry of the archive.  Its cleaned name
    is the one looked for and it declares a module path, but the scan,
    which stops before index 0, ends with the empty name. *)
Theorem manifest_at_index_0_is_missed (Unquote : bytes -> option bytes) :
  let files := Demo.archiveManifestFirst in
  nth_error files 0 = Some Demo.goMod
  /\ Bytes.Equal (Filepath.Clean (Zip.Name Demo.goMod)) (modFile Demo.project)
     = true
  /\ ModulePath Unquote (lit "module github.com/old/demo")
     = Some (lit "github.com/old/demo")
  /\ findModule Unquote files (modFile Demo.project) Demo.project
       (length files - 1)
     = inr ([], Demo.project).
Proof.
  vm_compute. repeat split; reflexivity.
Qed.

(** Whatever the first entry is, it is not looked at. *)
Lemma findModule_skips_first (Unquote : bytes -> option bytes)
    (f g : Zip.File) (rest : list Zip.File) (mf : bytes) (p : Project) :
  findModule Unquote (f :: rest) mf p (length (f :: rest) - 1)
  = findModule Unquote (g :: rest) mf p (length (g :: rest) - 1).
Proof.
  cbn [length]. rewrite !Nat.sub_succ, !Nat.sub_0_r.
  induction (length rest) as [|i IH]; [reflexivity|].
  cbn [findModule nth_error]. destruct (nth_error rest i) as [h|]; [|reflexivity].
  destruct (Bytes.Equal _ _); [reflexivity|exact IH].
Qed.

(** With the manifest missed and a target identity given, the old identity
    is empty and every file gets the new one after each of its bytes. *)
Example manifest_first_garbles (Unquote : bytes -> option bytes) :
  let x := Demo.installOn Unquote Demo.archiveManifestFirst Demo.project
             Demo.env Demo.diskRoot in
  Demo.errorOf x = None
  /\ SimFS.lookup (lit "/work/app/go.mod") (Demo.diskOf x)
     = Some (SimFS.File
               (beforeEveryByte (lit "github.com/new/app")
                  (lit "module github.com/old/demo")) 420).
Proof.
  vm_compute. split; reflexivity.
Qed.

(** C3, counterexample: no manifest in the archive and no identity in the
    descriptor.  The file of the archive is created and written, and the
    identity is empty then and after. *)
Lemma identity_empty_counterexample :
  let x := Demo.installOn Strconv.Unquote Demo.archiveNoManifest
             Demo.projectNoModule Demo.env Demo.disk in
  Module (Demo.projectOf x) = []
  /\ In (OpenFile (lit "/work/demo-master/main.go") 420, None) (Demo.traceOf x)
  /\ In (Copy (lit "/work/demo-master/main.go") (lit "package main"), None)
        (Demo.traceOf x).
Proof.
  vm_compute. repeat split; auto 12.
Qed.

Lemma identity_is_resolved_by_the_scan_witness :
  let x := Demo.installOn Strconv.Unquote Demo.archive Demo.projectNoModule
             Demo.env Demo.disk in
  exists files old p1,
    @inr error _ Demo.archive = inr files
    /\ findModule Strconv.Unquote files (modFile Demo.projectNoModule)
         Demo.projectNoModule (length files - 1) = inr (old, p1)
    /\ Module (Demo.projectOf x) = match Module Demo.projectNoModule with
                                   | [] => old
                                   | _ :: _ => Module Demo.projectNoModule
                                   end
    /\ (Module (Demo.projectOf x) = []
        <-> Module Demo.projectNoModule = [] /\ old = [])
    /\ exists t1 t2 r1,
         Demo.traceOf x = t1 ++ t2
         /\ runs (extract (Dest (Demo.projectOf x)) old
                    (Module (Demo.projectOf x))
                    (negb (Bytes.Equal old (Module (Demo.projectOf x))))
                    files) t1 r1.
Proof.
  cbv zeta.
  apply (@identity_is_resolved_by_the_scan Strconv.Unquote
           (fun _ => inr Demo.archive) Demo.env Demo.projectNoModule []
           _ _ (Demo.errorOf
                  (Demo.installOn Strconv.Unquote Demo.archive
                     Demo.projectNoModule Demo.env Demo.disk))).
  - apply installOn_runs.
  - vm_compute. discriminate.
Defined.

Lemma equal_identities_copy_verbatim_witness :
  let x := Demo.installOn Strconv.Unquote Demo.archive Demo.projectSame
             Demo.env Demo.disk in
  let name := lit "/work/demo-master/main.go" in
  let data := lit "package main // module github.com/old/demo is great" in
  In (Copy name data, None) (Demo.traceOf x)
  /\ exists f stored rerr,
       In f Demo.archive
       /\ name = fpathOf (resolveDest Demo.env Demo.projectSame) f
       /\ Zip.Open f = inr (stored, rerr) /\ data = stored
       /\ (Demo.errorOf x = None -> rerr = None /\ @None error = None).
Proof.
  cbv zeta.
  assert (Hin : In (Copy (lit "/work/demo-master/main.go")
                      (lit "package main // module github.com/old/demo is great"),
                    None)
                  (Demo.traceOf
                     (Demo.installOn Strconv.Unquote Demo.archive
                        Demo.projectSame Demo.env Demo.disk)))
    by (vm_compute; auto 12).
  split; [exact Hin|].
  apply (@equal_identities_copy_verbatim Strconv.Unquote
           (fun _ => inr Demo.archive) Demo.env Demo.projectSame []
           Demo.archive (lit "github.com/old/demo") Demo.projectSame
           _ _ _ eq_refl eq_refl eq_refl
           (installOn_runs Strconv.Unquote Demo.archive Demo.projectSame
              Demo.env Demo.disk)
           _ _ _ Hin).
Defined.

(** C9, counterexample: a regular file sits where the archive has the
    directory [docs].  [MkdirAll] fails, [unzip] goes on and returns
    without error; the directory was not created. *)
Lemma mkdir_failure_counterexample :
  let x := Demo.installOn Strconv.Unquote Demo.archiveDocs Demo.project
             Demo.env Demo.diskDocs in
  In (MkdirAll (lit "/work/demo-master/docs") Zip.ModePerm,
      Some SimFS.ENOTDIR) (Demo.traceOf x)
  /\ Demo.errorOf x = None
  /\ SimFS.lookup (lit "/work/app/docs") (Demo.diskOf x)
     = Some (SimFS.File (lit "notes") 420).
Proof.
  vm_compute. repeat split; auto 12.
Qed.

Lemma checked_failures_are_fatal_witness :
  let x := Demo.installOn Strconv.Unquote Demo.archiveManifestFirst
             Demo.project Demo.env Demo.disk in
  Demo.traceOf x = [(OpenFile (lit "/work/demo-master/go.mod") 420,
                     Some SimFS.ENOENT)]
  /\ (forall pre c e post,
         Demo.traceOf x = pre ++ (c, Some e) :: post -> checked c = true ->
         Demo.errorOf x = Some e /\ stopped c post)
  /\ (forall t', agree (Demo.traceOf x) t' ->
                 runs (Demo.install Strconv.Unquote Demo.archiveManifestFirst
                         Demo.project Demo.env) t'
                   (Demo.projectOf x, Demo.errorOf x)).
Proof.
  cbv zeta. split; [reflexivity|].
  apply (@checked_failures_are_fatal Strconv.Unquote
           (fun _ => inr Demo.archiveManifestFirst) Demo.env Demo.project []).
  apply installOn_runs.
Defined.

(** C10, counterexample: a file that holds the two bytes of U+00E9, no
    manifest, target identity [m].  What is written is [m], the two bytes,
    [m]: nothing is inserted between the two bytes. *)
Lemma insertion_counterexample :
  let x := Demo.installOn Strconv.Unquote Demo.archiveLatin Demo.projectM
             Demo.env Demo.disk in
  let content := [byte_of 195; byte_of 169] in
  let data := lit "m" ++ content ++ lit "m" in
  In (Copy (lit "/work/demo-master/a.txt") data, None) (Demo.traceOf x)
  /\ data <> beforeEveryByte (lit "m") content.
Proof.
  vm_compute. split; [auto 12|discriminate].
Qed.

Lemma empty_identity_inserts_after_runes_witness :
  let x := Demo.installOn Strconv.Unquote Demo.archiveLatin Demo.projectM
             Demo.env Demo.disk in
  negb (Bytes.Equal [] (Module Demo.projectM)) = true
  /\ forall name data a, In (Copy name data, a) (Demo.traceOf x) ->
       exists f content,
         In f Demo.archiveLatin
         /\ name = fpathOf (resolveDest Demo.env Demo.projectM) f
         /\ Zip.Open f = inr (content, None)
         /\ data = afterEveryRune (Module Demo.projectM) content
         /\ data <> content
         /\ (forallb isASCII content = true ->
             data = beforeEveryByte (Module Demo.projectM) content).
Proof.
  cbv zeta.
  apply (@empty_identity_inserts_after_runes Strconv.Unquote
           (fun _ => inr Demo.archiveLatin) Demo.env Demo.projectM []
           Demo.archiveLatin Demo.projectM
           _ (Demo.projectOf
                (Demo.installOn Strconv.Unquote Demo.archiveLatin Demo.projectM
                   Demo.env Demo.disk))
           (Demo.errorOf
                (Demo.installOn Strconv.Unquote Demo.archiveLatin Demo.projectM
                   Demo.env Demo.disk))).
  - reflexivity.
  - reflexivity.
  - discriminate.
  - apply installOn_runs.
Defined.

(** ** The test of the output path, for an absolute destination *)

Lemma split_nonempty (s : bytes) : Filepath.split s <> [].
Proof.
  destruct s as [|c s]; simpl; [discriminate|].
  destruct (Filepath.IsPathSeparator c); [discriminate|].
  destruct (Filepath.split s); discriminate.
Qed.

Lemma split_noSep (s : bytes) :
  Forall (fun e => noSep e = true) (Filepath.split s).
Proof.
  induction s as [|c s IH]; simpl.
  - now repeat constructor.
  - destruct (Filepath.IsPathSeparator c) eqn:E.
    + constructor; [reflexivity|exact IH].
    + destruct (Filepath.split s) as [|e es].
      * repeat constructor. simpl. now rewrite E.
      * inversion IH; subst. constructor; [|assumption].
        simpl. now rewrite E.
Qed.

Lemma split_app_sep (a b : bytes) :
  Filepath.split (a ++ Filepath.Separator :: b)
  = Filepath.split a ++ Filepath.split b.
Proof.
  induction a as [|c a IH]; simpl.
  - reflexivity.
  - destruct (Filepath.IsPathSeparator c); rewrite IH; [reflexivity|].
    pose proof (split_nonempty a).
    destruct (Filepath.split a); [congruence|reflexivity].
Qed.

Lemma split_single (e : bytes) : noSep e = true -> Filepath.split e = [e].
Proof.
  induction e as [|c e IH]; simpl; [reflexivity|].
  intros H. apply andb_true_iff in H as [Hc He].
  apply negb_true_iff in Hc. rewrite Hc, (IH He). reflexivity.
Qed.

Lemma split_join (l : list bytes) :
  l <> [] -> Forall (fun e => noSep e = true) l ->
  Filepath.split (Filepath.join l) = l.
Proof.
  induction l as [|e l IH]; [congruence|]. intros _ H.
  inversion H as [|e' l' He Hl]; subst.
  destruct l as [|e2 l].
  - simpl. now apply split_single.
  - change (Filepath.join (e :: e2 :: l))
      with (e ++ Filepath.Separator :: Filepath.join (e2 :: l)).
    rewrite split_app_sep, split_single by exact He.
    rewrite IH; [reflexivity|discriminate|exact Hl].
Qed.

Lemma goodName_noSep (l : list bytes) :
  Forall (fun e => goodName e = true) l -> Forall (fun e => noSep e = true) l.
Proof.
  apply Forall_impl. intros e H. now apply andb_true_iff in H as [_ H].
Qed.

(** Of a rooted path [Clean] keeps proper names only. *)
Lemma cleanElem_good (out : list bytes) (e : bytes) :
  noSep e = true -> Forall (fun e => goodName e = true) out ->
  Forall (fun e => goodName e = true) (Filepath.cleanElem true out e).
Proof.
  intros He Hout. unfold Filepath.cleanElem.
  destruct (Bytes.Equal e [] || Bytes.Equal e Filepath.dot) eqn:E1;
    [exact Hout|].
  destruct (Bytes.Equal e Filepath.dotdot) eqn:E2.
  - destruct out as [|top below]; [constructor|].
    inversion Hout as [|x l Htop Hbelow]; subst.
    destruct (Bytes.Equal top Filepath.dotdot) eqn:E3; [|exact Hbelow].
    exfalso. unfold goodName, properName in Htop. rewrite E3 in Htop.
    rewrite orb_true_r in Htop. discriminate.
  - constructor; [|exact Hout]. unfold goodName, properName.
    now rewrite E1, E2, He.
Qed.

Lemma fold_cleanElem_good (es out : list bytes) :
  Forall (fun e => noSep e = true) es ->
  Forall (fun e => goodName e = true) out ->
  Forall (fun e => goodName e = true)
    (fold_left (Filepath.cleanElem true) es out).
Proof.
  revert out. induction es as [|e es IH]; intros out Hes Hout; [exact Hout|].
  inversion Hes; subst. simpl. apply IH; [assumption|].
  now apply cleanElem_good.
Qed.

Lemma Clean_rooted (path : bytes) :
  Filepath.IsAbs path = true ->
  exists names, Forall (fun e => goodName e = true) names
                /\ Filepath.Clean path = Filepath.Separator :: Filepath.join names.
Proof.
  destruct path as [|c path]; [discriminate|].
  unfold Filepath.IsAbs, Filepath.Clean, Filepath.IsPathSeparator. cbn [Bytes.HasPrefix].
  rewrite andb_true_r. intros ->.
  eexists. split; [|reflexivity].
  apply Forall_rev, fold_cleanElem_good; [apply split_noSep|constructor].
Qed.

(** For an absolute destination, a path that passes the test of [unzip]
    lies strictly inside the destination. *)
Theorem guard_inside (dest : bytes) (f : Zip.File) :
  Filepath.IsAbs dest = true -> guard dest f = true ->
  inside dest (fpathOf dest f) = true.
Proof.
  intros Habs G. unfold inside. fold (guard dest f). rewrite G. cbn [andb].
  unfold guard in G. apply HasPrefix_inv in G.
  rewrite length_app, <- app_assoc in G. cbn [length app] in G.
  set (rest := skipn (length (Filepath.Clean dest) + 1) (fpathOf dest f)) in *.
  destruct (Clean_rooted dest Habs) as (dnames & Hd & Ed).
  assert (Hf : exists names, Forall (fun e => goodName e = true) names
                /\ fpathOf dest f = Filepath.Separator :: Filepath.join names).
  { unfold fpathOf. destruct dest as [|c dest]; [discriminate|].
    cbn [Filepath.Join]. apply Clean_rooted.
    unfold Filepath.IsAbs in *. cbn [Filepath.join app Bytes.HasPrefix] in *.
    exact Habs. }
  destruct Hf as (names & Hn & En).
  rewrite En, Ed in G. injection G as G.
  assert (Hne : names <> []) by (intros ->; now destruct (Filepath.join dnames)).
  pose proof (split_join Hne (goodName_noSep Hn)) as S.
  rewrite G, split_app_sep in S.
  assert (Hall : Forall (fun e => goodName e = true) (Filepath.split rest)).
  { rewrite <- S in Hn. now apply Forall_app in Hn as [_ Hn]. }
  apply forallb_forall. intros e He.
  rewrite Forall_forall in Hall. specialize (Hall e He).
  now apply andb_true_iff in Hall as [Hall _].
Qed.

Lemma Clean_abs (path : bytes) :
  Filepath.IsAbs path = true -> Filepath.IsAbs (Filepath.Clean path) = true.
Proof.
  intros H. destruct (Clean_rooted path H) as (names & _ & ->). reflexivity.
Qed.

Lemma Join_abs (first : bytes) (more : list bytes) :
  Filepath.IsAbs first = true ->
  Filepath.IsAbs (Filepath.Join (first :: more)) = true.
Proof.
  intros H. destruct first as [|c first]; [discriminate|].
  cbn [Filepath.Join]. apply Clean_abs.
  unfold Filepath.IsAbs in *. destruct more; exact H.
Qed.

(** In such an environment the destination is absolute. *)
Lemma resolveDest_abs (env : Env) (p : Project) :
  envAbsolute env -> Filepath.IsAbs (resolveDest env p) = true.
Proof.
  intros [Hgo (wd & Hwd & Habs)]. unfold resolveDest, Abs.
  destruct (Dest p) as [|c d].
  - destruct (GOPATH env) as [|g gopath] eqn:E.
    + now rewrite Hwd.
    + destruct Hgo as [Hgo|Hgo]; [discriminate|]. now apply Join_abs.
  - rewrite Hwd.
    destruct (Filepath.IsAbs (Replace.Replace (c :: d) (lit "${GOPATH}")
                                (GOPATH env) 1)) eqn:E.
    + now apply Clean_abs.
    + now apply Join_abs.
Qed.

(** The loop over [pre ++ rest]: it ends within [pre] with an error, or
    passes [pre] and goes on with [rest]. *)
Lemma extract_app (dest old new : bytes) (sr : bool)
    (pre rest : list Zip.File) (t : list event) (r : option error) :
  runs (extract dest old new sr (pre ++ rest)) t r ->
  (exists e, r = Some e /\ runs (extract dest old new sr pre) t (Some e))
  \/ (exists t1 t2, runs (extract dest old new sr pre) t1 None
                    /\ runs (extract dest old new sr rest) t2 r
                    /\ t = t1 ++ t2).
Proof.
  revert t. induction pre as [|f pre IH]; intros t H.
  - right. exists [], t. repeat split; [constructor|exact H].
  - change ((f :: pre) ++ rest) with (f :: (pre ++ rest)) in H.
    apply extract_cons_runs in H as (t1 & r1 & H1 & H2).
    destruct r1 as [e|].
    + destruct H2 as [-> ->]. left. exists e. split; [reflexivity|].
      apply extract_cons_runs. exists t1, (Some e). now split.
    + destruct H2 as (t2 & H2 & ->).
      destruct (IH _ H2) as [(e & -> & H3)|(t3 & t4 & H3 & H4 & ->)].
      * left. exists e. split; [reflexivity|].
        apply extract_cons_runs. exists t1, None. split; [exact H1|].
        now exists t2.
      * right. exists (t1 ++ t3), t4. repeat split; [|exact H4|apply app_assoc].
        apply extract_cons_runs. exists t1, None. split; [exact H1|].
        now exists t3.
Qed.

Section PathSafety.

Variable Unquote : bytes -> option bytes.
Variable NewReader : bytes -> result (list Zip.File).
Variable env : Env.

Local Abbreviation unzip' := (unzip Unquote NewReader env).
Local Abbreviation scan p files :=
  (findModule Unquote files (modFile p) p (length files - 1)).

(** C1, as amended: with an absolute destination, every file or directory
    that the extraction loop creates or writes lies strictly inside the
    destination; an entry whose path does not makes [unzip] fail, and the
    error is the illegal path of the first such entry unless the loop has
    ended with another error at an entry before it. *)
Theorem escaping_entry_is_refused (p : Project) (body : bytes)
    (files : list Zip.File) (old : bytes) (p1 : Project)
    (t : list event) (p' : Project) (r : option error) :
  NewReader body = inr files ->
  scan p files = inr (old, p1) ->
  Filepath.IsAbs (resolveDest env p1) = true ->
  runs (unzip' p body) t (p', r) ->
  let dest := resolveDest env p1 in
  (forall c a, In (c, a) t -> isExtraction c = true ->
               inside dest (target c) = true)
  /\ (forall f, In f files -> inside dest (fpathOf dest f) = false ->
                r <> None)
  /\ (forall pre f post,
         files = pre ++ f :: post ->
         inside dest (fpathOf dest f) = false ->
         r = Some (ErrIllegalPath (fpathOf dest f))
         \/ exists e t0,
              r = Some e
              /\ runs (extract dest old (Module p1)
                         (negb (Bytes.Equal old (Module p1))) pre) t0 (Some e)).
Proof.
  intros HN HS Habs H. cbv zeta.
  apply (@unzip_runs Unquote NewReader env p body files old p1 t p' r HN HS) in H
    as [-> (t1 & r1 & H1 & H2)].
  assert (Hesc : forall f, inside (resolveDest env p1)
                             (fpathOf (resolveDest env p1) f) = false ->
                           guard (resolveDest env p1) f = false).
  { intros f Hf. destruct (guard (resolveDest env p1) f) eqn:G; [|reflexivity].
    rewrite (@guard_inside _ _ Habs G) in Hf. discriminate. }
  split; [|split].
  - intros c a Hin Hc.
    assert (Hin1 : In (c, a) t1).
    { destruct r1 as [e|]; [now destruct H2 as [-> _]|].
      destruct H2 as (x & ->).
      apply in_app_or in Hin as [Hin|Hin]; [exact Hin|].
      simpl in Hin. destruct Hin as [[= <- _]|[[= <- _]|[]]]; discriminate Hc. }
    destruct (@extract_calls _ _ _ _ _ _ _ H1 c a Hin1) as (f & _ & G & ->).
    now apply guard_inside.
  - intros f Hf Hout. apply Hesc in Hout.
    destruct r1 as [e|]; [destruct H2 as [_ ->]; discriminate|].
    rewrite (@extract_None _ _ _ _ _ _ H1 f Hf) in Hout. discriminate.
  - intros pre f post -> Hout. apply Hesc in Hout.
    apply extract_app in H1 as [(e & -> & H3)|(t3 & t4 & H3 & H4 & ->)].
    + right. destruct H2 as [_ ->]. now exists e, t1.
    + left. apply extract_cons_runs in H4 as (t5 & r5 & H5 & H6).
      inversion H5; subst; try congruence.
      destruct H6 as [-> ->]. now destruct H2 as [_ ->].
Qed.

End PathSafety.

(** C1, counterexample: the entry [../evil].  With [GOPATH=..], no
    destination given and a manifest whose module path is [../m], the
    destination resolves to [..], the path [../../evil] passes the test, the
    file is created outside the destination and [unzip] returns without
    error.  With the destination [/work] the entry is refused, but when the
    entry before it fails first ([OpenFile] with no directory to create the
    file in), that error is returned, not the illegal path. *)
Lemma escaping_entry_counterexample :
  let x := Demo.installOn Strconv.Unquote Demo.archiveEscape Demo.projectEscape
             Demo.envEscape Demo.diskEscape in
  let y := Demo.installOn Strconv.Unquote
             [Demo.goMod; Demo.fileEntry "../evil" "x"] Demo.project
             Demo.env Demo.disk in
  (Dest (Demo.projectOf x) = lit ".."
   /\ inside (lit "..") (lit "../../evil") = false
   /\ In (OpenFile (lit "../../evil") 420, None) (Demo.traceOf x)
   /\ SimFS.lookup (lit "../../evil") (Demo.diskOf x)
      = Some (SimFS.File (lit "x") 420)
   /\ Demo.errorOf x = None)
  /\ (inside (lit "/work") (fpathOf (lit "/work") (Demo.fileEntry "../evil" "x"))
      = false
      /\ Demo.errorOf y = Some SimFS.ENOENT).
Proof.
  vm_compute. repeat split; auto 12.
Qed.

Lemma escaping_entry_is_refused_witness :
  let x := Demo.installOn Strconv.Unquote Demo.archiveEscape Demo.project
             Demo.env Demo.disk in
  Demo.errorOf x = Some (ErrIllegalPath (lit "/evil"))
  /\ (forall c a, In (c, a) (Demo.traceOf x) -> isExtraction c = true ->
                  inside (lit "/work") (target c) = true)
  /\ (forall f, In f Demo.archiveEscape ->
                inside (lit "/work") (fpathOf (lit "/work") f) = false ->
                Demo.errorOf x <> None).
Proof.
  cbv zeta. split; [reflexivity|].
  pose proof (@escaping_entry_is_refused Strconv.Unquote
                (fun _ => inr Demo.archiveEscape) Demo.env Demo.project []
                Demo.archiveEscape (lit "../m") Demo.project
                _ _ _ eq_refl eq_refl eq_refl
                (installOn_runs Strconv.Unquote Demo.archiveEscape
                   Demo.project Demo.env Demo.disk)) as H.
  cbv zeta in H. destruct H as (H1 & H2 & _). split; [exact H1|exact H2].
Defined.

(** ** The models of the library functions on the library's test tables *)

Example Clean_table :
  forallb (fun t => Bytes.Equal (Filepath.Clean (lit (fst t))) (lit (snd t)))
    Tables.cleantests = true.
Proof. reflexivity. Qed.

Example Base_table :
  forallb (fun t => Bytes.Equal (Filepath.Base (lit (fst t))) (lit (snd t)))
    Tables.basetests = true.
Proof. reflexivity. Qed.

Example Dir_table :
  forallb (fun t => Bytes.Equal (Filepath.Dir (lit (fst t))) (lit (snd t)))
    Tables.dirtests = true.
Proof. reflexivity. Qed.

Example Join_table :
  forallb (fun t => Bytes.Equal (Filepath.Join (map lit (fst t))) (lit (snd t)))
    Tables.jointests = true.
Proof. reflexivity. Qed.

Example TrimSpace_table :
  forallb (fun t => Bytes.Equal (TrimSpace (concat (fst t))) (concat (snd t)))
    Tables.trimSpaceTests = true.
Proof. reflexivity. Qed.

Example Replace_table :
  forallb (fun t =>
             match t with
             | (input, old, new, n, output) =>
                 Bytes.Equal (Replace.Replace (lit input) (lit old) (lit new) n)
                   (lit output)
             end)
    Tables.replaceTests = true.
Proof. reflexivity. Qed.

(** * Further properties

    Properties of the code beyond the statements of the specification. *)

(** ** More on slices *)

Lemma Contains_app_l (s t sep : bytes) : Contains s sep -> Contains (s ++ t) sep.
Proof.
  intros (pre & post & ->). exists pre, (post ++ t). now rewrite <- !app_assoc.
Qed.

Lemma Contains_app_r (s t sep : bytes) : Contains t sep -> Contains (s ++ t) sep.
Proof.
  intros (pre & post & ->). exists (s ++ pre), post. now rewrite <- !app_assoc.
Qed.

Lemma In_Contains (c : byte) (s : bytes) : In c s <-> Contains s [c].
Proof.
  split.
  - intros H. apply in_split in H as (pre & post & ->). now exists pre, post.
  - intros (pre & post & ->). apply in_or_app. right. now left.
Qed.

(** The first occurrence is at or before any occurrence. *)
Lemma indexOf_le (p sep q : bytes) :
  exists j, Bytes.indexOf (p ++ sep ++ q) sep = Some j /\ (j <= length p)%nat.
Proof.
  induction p as [|c p (j & IH & Hj)].
  - exists 0%nat. split; [|simpl; lia].
    pose proof (HasPrefix_app sep q) as H. simpl.
    destruct (sep ++ q); simpl; now rewrite H.
  - simpl. destruct (Bytes.HasPrefix (c :: p ++ sep ++ q) sep).
    + exists 0%nat. split; [reflexivity|lia].
    + rewrite IH. exists (S j). split; [reflexivity|lia].
Qed.

(** No occurrence ends before the end of the first one. *)
Lemma indexOf_firstn (s sep : bytes) (i : nat) :
  sep <> [] -> Bytes.indexOf s sep = Some i -> ~ Contains (firstn i s) sep.
Proof.
  intros Hsep E (pre & post & H).
  pose proof (firstn_skipn i s) as Hs. rewrite H, <- !app_assoc in Hs.
  destruct (indexOf_le pre sep (post ++ skipn i s)) as (j & Hj & Hle).
  rewrite Hs, E in Hj. injection Hj as <-.
  apply (f_equal (@length byte)) in H.
  rewrite !length_app in H. pose proof (firstn_le_length i s).
  destruct sep; [congruence|]. simpl in H. lia.
Qed.

(** The first occurrence of a separator of two bytes. *)
Lemma indexOf_first2 (a b : byte) (inner after : bytes) :
  ~ Contains (inner ++ [a]) [a; b] ->
  Bytes.indexOf (inner ++ a :: b :: after) [a; b] = Some (length inner).
Proof.
  induction inner as [|c inner IH]; intros H.
  - simpl. now rewrite !byte_eqb_refl.
  - cbn [app Bytes.indexOf length].
    replace (Bytes.HasPrefix (c :: inner ++ a :: b :: after) [a; b]) with false.
    + rewrite IH; [reflexivity|].
      intros (pre & post & E). apply H. exists (c :: pre), post.
      simpl. now rewrite E.
    + symmetry. cbn [Bytes.HasPrefix].
      destruct (Ascii.eqb c a) eqn:Ec; [|reflexivity].
      apply Ascii.eqb_eq in Ec. subst c. simpl.
      destruct inner as [|d inner]; simpl.
      * destruct (Ascii.eqb a b) eqn:Eab; [|reflexivity].
        apply Ascii.eqb_eq in Eab. subst b. exfalso. apply H. now exists [], [].
      * destruct (Ascii.eqb d b) eqn:Ed; [|reflexivity].
        apply Ascii.eqb_eq in Ed. subst d. exfalso. apply H.
        exists [], (inner ++ [a]). reflexivity.
Qed.

Lemma notIn_Contains2 (a b : byte) (inner : bytes) :
  ~ In a inner -> ~ Contains (inner ++ [a]) [a; b].
Proof.
  intros H (pre & post & E). apply H.
  destruct (@exists_last _ (a :: b :: post)) as (post' & x & E'); [discriminate|].
  change (pre ++ [a; b] ++ post) with (pre ++ a :: b :: post) in E.
  rewrite E', app_assoc in E. apply app_inj_tail in E as [-> _].
  apply in_or_app. right.
  destruct post' as [|y post']; [|injection E' as -> _; now left].
  discriminate.
Qed.

(** ** More on white space *)

Lemma strip_fuel (w : bytes -> nat) :
  (forall s, (w s <= length s)%nat) ->
  forall n m s, (length s <= n)%nat -> (length s <= m)%nat ->
                Space.strip w n s = Space.strip w m s.
Proof.
  intros Hw. induction n as [|n IH]; intros m s Hn Hm.
  - destruct s; [|simpl in Hn; lia]. pose proof (Hw []) as H0. simpl in H0.
    destruct m; simpl; [reflexivity|]. now replace (w []) with O by lia.
  - destruct m as [|m].
    + destruct s; [|simpl in Hm; lia]. pose proof (Hw []) as H0. simpl in H0.
      simpl. now replace (w []) with O by lia.
    + cbn [Space.strip]. destruct (w s) as [|k] eqn:E; [reflexivity|].
      pose proof (Hw s) as Hs. rewrite E in Hs.
      apply IH; rewrite length_skipn; lia.
Qed.

(** A white-space rune at the start of a slice is one whatever follows
    it. *)
Lemma width_firstn (s t : bytes) :
  Space.width s <> O ->
  Space.width (firstn (Space.width s) s ++ t) = Space.width s.
Proof.
  destruct s as [|c0 [|c1 [|c2 s]]]; cbn [Space.width].
  - congruence.
  - destruct (Space.ascii1 c0) eqn:E0; [|congruence]. intros _. simpl. now rewrite E0.
  - destruct (Space.ascii1 c0) eqn:E0; [intros _; simpl; now rewrite E0|].
    destruct (Space.utf2 c0 c1) eqn:E1; [|congruence].
    intros _. simpl. now rewrite E0, E1.
  - destruct (Space.ascii1 c0) eqn:E0; [intros _; simpl; now rewrite E0|].
    destruct (Space.utf2 c0 c1) eqn:E1; [intros _; simpl; now rewrite E0, E1|].
    destruct (Space.utf3 c0 c1 c2) eqn:E2; [|congruence].
    intros _. simpl. now rewrite E0, E1, E2.
Qed.

(** What [TrimLeftFunc] takes off is white space only. *)
Lemma TrimLeft_white (s : bytes) :
  exists p, s = p ++ Space.TrimLeft s /\ Space.TrimLeft p = [].
Proof.
  unfold Space.TrimLeft at 1.
  generalize (length s) at 1. intros fuel. revert s.
  induction fuel as [|fuel IH]; intros s.
  - exists []. split; reflexivity.
  - cbn [Space.strip]. destruct (Space.width s) as [|n] eqn:E.
    + exists []. split; reflexivity.
    + destruct (IH (skipn (S n) s)) as (p & Hp & Hw).
      exists (firstn (S n) s ++ p). split.
      * rewrite <- app_assoc, <- Hp. symmetry. apply firstn_skipn.
      * pose proof (width_le s) as Hle. rewrite E in Hle.
        assert (Hlen : length (firstn (S n) s) = S n)
          by (rewrite length_firstn; lia).
        unfold Space.TrimLeft. rewrite length_app, Hlen.
        cbn [Nat.add Space.strip].
        rewrite <- E at 1. rewrite width_firstn by lia. rewrite E.
        rewrite skipn_app, Hlen, Nat.sub_diag, skipn_all2 by lia.
        cbn [skipn app].
        rewrite (@strip_fuel _ width_le (n + length p)%nat (length p)) by lia.
        exact Hw.
Qed.

Lemma TrimLeft_white_TrimSpace (a : bytes) :
  Space.TrimLeft a = [] -> TrimSpace a = [].
Proof. intros H. unfold TrimSpace. now rewrite H. Qed.




Lemma strip_blank (w : bytes -> nat) (pad x : bytes) (fuel : nat) :
  (forall c t, In c pad -> w (c :: t) = 1%nat) -> w x = O ->
  (length pad <= fuel)%nat ->
  Space.strip w fuel (pad ++ x) = x.
Proof.
  revert fuel; induction pad as [|c pad IH]; intros fuel Hp Hx Hf.
  - now apply strip_id.
  - destruct fuel as [|fuel]; [simpl in Hf; lia|].
    cbn [Space.strip app]. rewrite Hp by now left. cbn [skipn].
    apply IH; [|exact Hx|simpl in Hf; lia].
    intros d t Hd. apply Hp. now right.
Qed.

Lemma blank_ascii1 (pad : bytes) (c : byte) :
  blank pad = true -> In c pad -> Space.ascii1 c = true /\ c <> newline.
Proof.
  unfold blank. rewrite forallb_forall. intros H Hc.
  apply H, andb_true_iff in Hc as [H1 H2]. split; [exact H1|].
  apply negb_true_iff, Ascii.eqb_neq in H2. exact H2.
Qed.


Lemma TrimSpace_blank_only (pad : bytes) : blank pad = true -> TrimSpace pad = [].
Proof.
  intros H. unfold TrimSpace.
  replace (Space.TrimLeft pad) with (@nil byte); [reflexivity|].
  unfold Space.TrimLeft. rewrite <- (app_nil_r pad) at 2. symmetry.
  apply strip_blank; [|reflexivity|lia].
  intros c t Hc. destruct (@blank_ascii1 _ _ H Hc) as [Ha _].
  cbn [Space.width]. now rewrite Ha.
Qed.

(** ** More on the declaration parser *)

Section ParserMore.

Variable Unquote : bytes -> option bytes.



Lemma splitLine_fst (b : bytes) : ~ In newline (fst (splitLine b)).
Proof.
  unfold splitLine, Bytes.IndexByte, Bytes.Index.
  destruct (Bytes.indexOf b [newline]) as [i|] eqn:E.
  - replace (0 <=? Z.of_nat i) with true by (symmetry; apply Z.leb_le; lia).
    cbn [fst]. unfold upto. rewrite Nat2Z.id, In_Contains.
    apply indexOf_firstn; [discriminate|exact E].
  - cbn [fst Z.leb]. simpl. rewrite In_Contains. now apply indexOf_None.
Qed.

(** Either the text ends with its first line, or the line feed of that
    line comes right before the rest. *)
Lemma splitLine_snd (b : bytes) :
  snd (splitLine b) = [] \/ exists pre, b = pre ++ newline :: snd (splitLine b).
Proof.
  unfold splitLine, Bytes.IndexByte, Bytes.Index.
  destruct (Bytes.indexOf b [newline]) as [i|] eqn:E.
  - replace (0 <=? Z.of_nat i) with true by (symmetry; apply Z.leb_le; lia).
    right. exists (firstn i b). cbn [snd]. unfold from.
    replace (Z.to_nat (Z.of_nat i + 1)) with (i + 1)%nat by lia.
    apply indexOf_Some in E as [E _]. exact E.
  - left. reflexivity.
Qed.

Lemma stripLineComment_none (line : bytes) :
  ~ Contains (stripLineComment line) slashSlash.
Proof.
  unfold stripLineComment, Bytes.Index.
  destruct (Bytes.indexOf line slashSlash) as [i|] eqn:E.
  - replace (0 <=? Z.of_nat i) with true by (symmetry; apply Z.leb_le; lia).
    unfold upto. rewrite Nat2Z.id. apply indexOf_firstn; [discriminate|exact E].
  - simpl. now apply indexOf_None.
Qed.

(** The comment that ends a line goes, when the text before it has no
    [//] and no [/] to make one with. *)
Lemma stripLineComment_app (core c : bytes) :
  ~ Contains (core ++ lit "/") slashSlash ->
  stripLineComment (core ++ slashSlash ++ c) = core.
Proof.
  intros H. unfold stripLineComment, Bytes.Index.
  change slashSlash with [byte_of 47; byte_of 47] in *.
  change (lit "/") with [byte_of 47] in H.
  change (core ++ [byte_of 47; byte_of 47] ++ c)
    with (core ++ byte_of 47 :: byte_of 47 :: c).
  rewrite (@indexOf_first2 (byte_of 47) (byte_of 47) core c) by exact H.
  replace (0 <=? Z.of_nat (length core)) with true
    by (symmetry; apply Z.leb_le; lia).
  unfold upto. rewrite Nat2Z.id, firstn_app, Nat.sub_diag, firstn_all.
  simpl. apply app_nil_r.
Qed.


(** When the pass over a line returns. *)
Lemma parseLine_Return_inv (b declaration : bytes) (res : option bytes) :
  parseLine Unquote b declaration = Return res ->
  ~ Contains (stripLineComment (fst (splitLine b))) multilineCommentStart
  /\ exists r,
       TrimSpace (stripLineComment (fst (splitLine b))) = declaration ++ r
       /\ length (TrimSpace r) <> length r
       /\ TrimSpace r <> []
       /\ res = valueOf Unquote (TrimSpace r).
Proof.
  unfold parseLine. destruct (splitLine b) as [line rest]. cbn [fst].
  destruct (0 <=? _) eqn:E0; [discriminate|].
  apply Z.leb_gt in E0. apply Index_neg in E0.
  destruct (Bytes.HasPrefix _ _) eqn:E; simpl; [|discriminate].
  apply HasPrefix_inv in E.
  destruct (_ || _) eqn:E'; [discriminate|].
  apply orb_false_iff in E' as [E1 E2].
  apply Z.eqb_neq in E1. apply Z.eqb_neq in E2.
  set (r := from (TrimSpace (stripLineComment line)) (len declaration)) in *.
  assert (Er : TrimSpace (stripLineComment line) = declaration ++ r).
  { unfold r, from, len. rewrite Nat2Z.id. exact E. }
  intros H. split; [exact E0|]. exists r. split; [exact Er|].
  split; [unfold len in E1; lia|].
  unfold valueOf, quoted.
  destruct (TrimSpace r) as [|c t]; [exfalso; apply E2; reflexivity|].
  split; [discriminate|].
  destruct (_ || _); [destruct (Unquote (c :: t))|]; now injection H as <-.
Qed.


(** Where the next pass starts. *)
Lemma parseLine_Continue_start (b declaration b' : bytes) :
  parseLine Unquote b declaration = Continue b' ->
  b' = [] \/ exists pre, b = pre ++ b' /\ lineStart pre b'.
Proof.
  unfold parseLine.
  pose proof (splitLine_snd b) as Hrest.
  destruct (splitLine b) as [line rest]. cbn [snd] in Hrest.
  assert (G : rest = [] \/ exists pre, b = pre ++ rest /\ lineStart pre rest).
  { destruct Hrest as [->|[pre Hpre]]; [now left|right].
    exists (pre ++ [newline]). split.
    - now rewrite <- app_assoc.
    - right. left. now exists pre. }
  destruct (0 <=? Bytes.Index (stripLineComment line) multilineCommentStart).
  - intros [= <-].
    destruct (0 <? Bytes.Index rest multilineCommentEnd) eqn:E; [|exact G].
    apply Z.ltb_lt in E. right. unfold Bytes.Index in *.
    destruct (Bytes.indexOf rest multilineCommentEnd) as [i|] eqn:Ei; [|lia].
    apply indexOf_Some in Ei as [Ei Hi].
    unfold from. rewrite Nat2Z.id.
    assert (Es : skipn i rest
                 = multilineCommentEnd
                   ++ skipn (i + length multilineCommentEnd) rest).
    { rewrite Ei at 1. rewrite skipn_app, length_firstn.
      replace (Nat.min i (length rest)) with i by lia.
      rewrite Nat.sub_diag, skipn_all2 by (rewrite length_firstn; lia).
      reflexivity. }
    destruct (splitLine_suffix b) as [pre Hpre].
    assert (exists pre, b = pre ++ rest) as [pre0 Hpre0].
    { destruct G as [->|(pre1 & H1 & _)]; [|now exists pre1].
      destruct i; simpl in Hi; [lia|lia]. }
    exists (pre0 ++ firstn i rest). split.
    + now rewrite <- app_assoc, firstn_skipn.
    + right. right. rewrite Es. apply HasPrefix_app.
  - destruct (negb _); [intros [= <-]; exact G|].
    destruct (_ || _); [intros [= <-]; exact G|].
    destruct (TrimSpace _) as [|c t]; [discriminate|].
    destruct (_ || _); [destruct (Unquote _)|]; discriminate.
Qed.

(** The parser returns a value from the first pass that does not end in
    [continue]. *)
Lemma parseDeclaration_Some (declaration v : bytes) (n : nat) :
  forall pre b,
    (length b <= n)%nat -> lineStart pre b ->
    parseDeclaration Unquote b declaration = Some v ->
    exists q b',
      pre ++ b = q ++ b' /\ lineStart q b'
      /\ parseLine Unquote b' declaration = Return (Some v).
Proof.
  induction n as [|n IH]; intros pre b Hn Hs.
  - destruct b; [|simpl in Hn; lia]. rewrite parseDeclaration_eq. discriminate.
  - rewrite parseDeclaration_eq. destruct b as [|c b]; [discriminate|].
    destruct (parseLine Unquote (c :: b) declaration) as [b'|res] eqn:E.
    + intros H.
      destruct (parseLine_Continue_start _ _ E) as [->|(q & Hq & Hs')].
      { rewrite parseDeclaration_eq in H. discriminate. }
      apply parseLine_Continue in E as [_ E]; [|discriminate].
      destruct (IH (pre ++ q) b') as (q' & b'' & H1 & H2 & H3).
      * simpl in Hn, E. lia.
      * destruct q as [|x q].
        -- simpl in Hq. rewrite <- Hq in E. lia.
        -- destruct Hs' as [Hs'|[[q0 Hs']|Hs']]; [discriminate| |].
           ++ right. left. exists (pre ++ q0). now rewrite Hs', app_assoc.
           ++ right. right. exact Hs'.
      * exact H.
      * exists q', b''. split; [|split; assumption].
        now rewrite Hq, app_assoc.
    + intros ->. exists pre, (c :: b). now repeat split.
Qed.

End ParserMore.

Section ParserExtras.

Variable Unquote : bytes -> option bytes.


(** X1: whatever the parser returns is declared in the text: at the start
    of the text, after a line feed or at the end marker of a block
    comment, there is white space, the keyword, and a rest of the line
    that trimming shortens; up to there the line holds no [//] and no
    [/*]; the value is that rest, trimmed, or what [Unquote] makes of it
    when it opens with a quote. *)
Theorem returned_value_is_declared (text declaration v : bytes) :
  parseDeclaration Unquote text declaration = Some v ->
  exists pre a r post,
    text = pre ++ a ++ declaration ++ r ++ post
    /\ lineStart pre (a ++ declaration ++ r ++ post)
    /\ TrimSpace a = []
    /\ ~ In newline (a ++ declaration ++ r)
    /\ ~ Contains (a ++ declaration ++ r) slashSlash
    /\ ~ Contains (a ++ declaration ++ r) multilineCommentStart
    /\ length (TrimSpace r) <> length r
    /\ TrimSpace r <> []
    /\ valueOf Unquote (TrimSpace r) = Some v.
Proof.
  intros H.
  destruct (@parseDeclaration_Some Unquote declaration v (length text) [] text)
    as (q & b & H1 & H2 & H3); [lia|now left|exact H|].
  simpl in H1. subst text.
  apply parseLine_Return_inv in H3 as (Hnc & r & Hr & Hlen & Hne & Hv).
  pose proof (splitLine_fst b) as Hnl.
  pose proof (stripLineComment_none (fst (splitLine b))) as Hns.
  destruct (splitLine_prefix b) as [post1 E1].
  destruct (stripLineComment_prefix (fst (splitLine b))) as [post2 E2].
  set (L := stripLineComment (fst (splitLine b))) in *.
  destruct (TrimLeft_white L) as (a & Ea & Hw).
  destruct (TrimRight_prefix (Space.TrimLeft L)) as [z Ez].
  fold (TrimSpace L) in Ez. rewrite Hr in Ez.
  assert (EL : L = (a ++ declaration ++ r) ++ z)
    by (rewrite Ea at 1; rewrite Ez; now rewrite <- !app_assoc).
  assert (Eb : b = a ++ declaration ++ r ++ z ++ post2 ++ post1).
  { rewrite E1 at 1. rewrite E2, EL. now rewrite <- !app_assoc. }
  exists q, a, r, (z ++ post2 ++ post1).
  rewrite <- Eb. repeat split; try assumption.
  - now apply TrimLeft_white_TrimSpace.
  - intros Hin. apply Hnl. rewrite E2, EL.
    apply in_or_app. left. apply in_or_app. now left.
  - intros Hc. apply Hns. rewrite EL. now apply Contains_app_l.
  - intros Hc. apply Hnc. rewrite EL. now apply Contains_app_l.
  - now symmetry.
Qed.


(** X3: the body of a block comment is passed over: after a line with
    [/*] (before any [//]), the parser goes on at the first [*/] of the
    text that follows the line, whatever stands before that marker, a
    declaration too. *)
Theorem comment_body_is_skipped (l inner after declaration : bytes) :
  ~ In newline l ->
  Contains (stripLineComment l) multilineCommentStart ->
  ~ Contains (inner ++ lit "*") multilineCommentEnd ->
  parseDeclaration Unquote
    (l ++ newline :: inner ++ multilineCommentEnd ++ after) declaration
  = parseDeclaration Unquote (multilineCommentEnd ++ after) declaration.
Proof.
  intros Hl Hstart Hend.
  rewrite parseDeclaration_eq.
  destruct (l ++ newline :: inner ++ multilineCommentEnd ++ after)
    as [|c t] eqn:E; [now destruct l|rewrite <- E; clear E].
  unfold parseLine. rewrite splitLine_app by exact Hl.
  apply Index_nonneg, Z.leb_le in Hstart. rewrite Hstart.
  unfold Bytes.Index.
  change multilineCommentEnd with [byte_of 42; byte_of 47] in *.
  change (lit "*") with [byte_of 42] in Hend.
  change (inner ++ [byte_of 42; byte_of 47] ++ after)
    with (inner ++ byte_of 42 :: byte_of 47 :: after).
  rewrite (@indexOf_first2 (byte_of 42) (byte_of 47) inner after) by exact Hend.
  destruct inner as [|x inner]; [reflexivity|].
  replace (0 <? Z.of_nat (length (x :: inner))) with true
    by (symmetry; apply Z.ltb_lt; simpl; lia).
  unfold from. rewrite Nat2Z.id, skipn_app, Nat.sub_diag, skipn_all.
  reflexivity.
Qed.

(** X4: a declaration behind [//] is not read: a line that is blank up
    to a line comment is passed over, whatever the comment holds. *)
Theorem commented_line_is_skipped (pad c rest declaration : bytes) :
  blank pad = true -> ~ In newline c -> declaration <> [] ->
  parseDeclaration Unquote
    (pad ++ slashSlash ++ c ++ newline :: rest) declaration
  = parseDeclaration Unquote rest declaration.
Proof.
  intros Hp Hc Hk.
  assert (Hslash : ~ In (byte_of 47) pad).
  { intros Hin. destruct (@blank_ascii1 _ _ Hp Hin) as [Ha _]. discriminate. }
  assert (Hnl : ~ In newline (pad ++ slashSlash ++ c)).
  { intros Hin. apply in_app_or in Hin as [Hin|Hin].
    - now destruct (@blank_ascii1 _ _ Hp Hin) as [_ Hn].
    - apply in_app_or in Hin as [Hin|Hin]; [|tauto].
      simpl in Hin. destruct Hin as [Hin|[Hin|[]]]; discriminate. }
  rewrite parseDeclaration_eq.
  replace (pad ++ slashSlash ++ c ++ newline :: rest)
    with ((pad ++ slashSlash ++ c) ++ newline :: rest)
    by now rewrite <- !app_assoc.
  destruct ((pad ++ slashSlash ++ c) ++ newline :: rest) as [|c0 t0] eqn:E.
  { destruct pad; discriminate. }
  rewrite <- E. clear E.
  unfold parseLine. rewrite splitLine_app by exact Hnl.
  rewrite stripLineComment_app
    by (apply (@notIn_Contains2 (byte_of 47) (byte_of 47)); exact Hslash).
  replace (0 <=? Bytes.Index pad multilineCommentStart) with false.
  - rewrite TrimSpace_blank_only by exact Hp.
    destruct declaration; [congruence|reflexivity].
  - symmetry. apply Z.leb_gt, Index_neg. intros (pre & post & E).
    apply Hslash. rewrite E. apply in_or_app. right. now left.
Qed.

End ParserExtras.

(** *** The witnesses *)

Lemma returned_value_is_declared_witness :
  let text := lit "// go.mod" ++ newline
              :: lit "  module  github.com/a/b // the path" in
  parseDeclaration Strconv.Unquote text moduleBytes = Some (lit "github.com/a/b")
  /\ exists pre a r post,
       text = pre ++ a ++ moduleBytes ++ r ++ post
       /\ lineStart pre (a ++ moduleBytes ++ r ++ post)
       /\ TrimSpace a = []
       /\ ~ In newline (a ++ moduleBytes ++ r)
       /\ ~ Contains (a ++ moduleBytes ++ r) slashSlash
       /\ ~ Contains (a ++ moduleBytes ++ r) multilineCommentStart
       /\ length (TrimSpace r) <> length r
       /\ TrimSpace r <> []
       /\ valueOf Strconv.Unquote (TrimSpace r) = Some (lit "github.com/a/b").
Proof.
  split; [reflexivity|].
  apply (@returned_value_is_declared Strconv.Unquote
           (lit "// go.mod" ++ newline
            :: lit "  module  github.com/a/b // the path")
           moduleBytes (lit "github.com/a/b")).
  reflexivity.
Defined.


Lemma comment_body_is_skipped_witness :
  let text := lit "/* the old name" ++ newline
              :: lit "module hidden" ++ newline
              :: lit "*/ module odd" ++ newline :: lit "module shown" in
  parseDeclaration Strconv.Unquote text moduleBytes = Some (lit "shown")
  /\ parseDeclaration Strconv.Unquote text moduleBytes
     = parseDeclaration Strconv.Unquote
         (multilineCommentEnd ++ lit " module odd" ++ newline
          :: lit "module shown") moduleBytes.
Proof.
  split; [reflexivity|].
  apply (@comment_body_is_skipped Strconv.Unquote (lit "/* the old name")
           (lit "module hidden" ++ [newline])
           (lit " module odd" ++ newline :: lit "module shown") moduleBytes).
  - apply notIn_check. reflexivity.
  - apply Index_nonneg. discriminate.
  - apply Index_neg. reflexivity.
Defined.

Lemma commented_line_is_skipped_witness :
  parseDeclaration Strconv.Unquote
    (lit "  " ++ slashSlash ++ lit " module hidden" ++ newline
     :: lit "module shown") moduleBytes
  = parseDeclaration Strconv.Unquote (lit "module shown") moduleBytes.
Proof.
  apply (@commented_line_is_skipped Strconv.Unquote (lit "  ")
           (lit " module hidden") (lit "module shown") moduleBytes).
  - reflexivity.
  - apply notIn_check. reflexivity.
  - discriminate.
Defined.

(** ** [TryFindPackage] *)

Section FinderFacts.

Variable Unquote : bytes -> option bytes.
Variable Ext : bytes -> bytes.
Variable disk : Disk.

Local Abbreviation declared' dir ign := (declared Unquote disk dir ign).

(** An entry that declares nothing leaves the loop as it found it, but
    for the result so far, which stays empty. *)
Lemma rangeFiles_skip (dir ign : bytes) (f : Os.FileInfo)
    (rest : list Os.FileInfo) (pkg : option bytes) :
  declared' dir ign f = [] ->
  exists pkg', rangeFiles Unquote disk dir ign (f :: rest) pkg
               = rangeFiles Unquote disk dir ign rest pkg'
               /\ (pkg' = pkg \/ orEmpty pkg' = []).
Proof.
  unfold declared, eligible. cbn [rangeFiles].
  destruct (Os.IsDir f); [intros _; exists pkg; now split; [|left]|].
  destruct (Bytes.Equal ign (Os.Name f));
    [intros _; exists pkg; now split; [|left]|].
  destruct (Strings.HasSuffix (Os.Name f) (lit ".go"));
    [|intros _; exists pkg; now split; [|left]].
  cbn [negb andb].
  destruct (ReadFile disk (Filepath.Join [dir; Os.Name f])) as [e|b];
    [intros _; exists pkg; now split; [|left]|].
  destruct (Package Unquote b) as [[|c t]|]; cbn [orEmpty].
  - intros _. exists (Some []). split; [reflexivity|now right].
  - discriminate.
  - intros _. exists None. split; [reflexivity|now right].
Qed.

Lemma rangeFiles_sound (dir ign : bytes) (files : list Os.FileInfo) :
  forall (pkg : option bytes) (v : bytes),
    rangeFiles Unquote disk dir ign files pkg = Some v -> v <> [] ->
    pkg = Some v
    \/ exists pre f post b,
         files = pre ++ f :: post
         /\ Forall (fun g => declared' dir ign g = []) pre
         /\ eligible ign f = true
         /\ ReadFile disk (Filepath.Join [dir; Os.Name f]) = inr b
         /\ Package Unquote b = Some v.
Proof.
  induction files as [|f rest IH]; intros pkg v H Hv; [now left|].
  destruct (declared' dir ign f) as [|c t] eqn:Ed.
  - destruct (@rangeFiles_skip dir ign f rest pkg Ed) as (pkg' & E & Hp).
    rewrite E in H. destruct (IH pkg' v H Hv) as [->|(pre & g & post & b & K)].
    + destruct Hp as [<-|Hp]; [now left|]. simpl in Hp. congruence.
    + right. exists (f :: pre), g, post, b.
      destruct K as (-> & K1 & K2). split; [reflexivity|].
      split; [now constructor|exact K2].
  - right. revert Ed H. unfold declared.
    destruct (eligible ign f) eqn:He; [|discriminate].
    destruct (ReadFile disk (Filepath.Join [dir; Os.Name f])) as [e|b] eqn:Hb;
      [discriminate|].
    intros Ed. cbn [rangeFiles]. unfold eligible in He.
    apply andb_true_iff in He as [He H3]. apply andb_true_iff in He as [H1 H2].
    rewrite H3. apply negb_true_iff in H1. apply negb_true_iff in H2.
    rewrite H1, H2, Hb. cbn [negb].
    destruct (Package Unquote b) as [[|c' t']|] eqn:Hp; cbn [orEmpty] in Ed;
      [discriminate| |discriminate].
    intros [= <-]. exists [], f, rest, b. repeat split; try assumption.
    + constructor.
    + unfold eligible. now rewrite H1, H2, H3.
Qed.

Lemma rangeFiles_first (dir ign : bytes) (pre : list Os.FileInfo)
    (f : Os.FileInfo) (post : list Os.FileInfo) (b v : bytes) :
  Forall (fun g => declared' dir ign g = []) pre ->
  eligible ign f = true ->
  ReadFile disk (Filepath.Join [dir; Os.Name f]) = inr b ->
  Package Unquote b = Some v -> v <> [] ->
  forall pkg, rangeFiles Unquote disk dir ign (pre ++ f :: post) pkg = Some v.
Proof.
  intros Hpre He Hb Hv Hne.
  induction Hpre as [|g pre Hg _ IH]; intros pkg.
  - unfold eligible in He. cbn [app rangeFiles].
    apply andb_true_iff in He as [He H3]. apply andb_true_iff in He as [H1 H2].
    apply negb_true_iff in H1. apply negb_true_iff in H2.
    rewrite H1, H2, H3, Hb, Hv. cbn [negb]. destruct v; [congruence|reflexivity].
  - cbn [app].
    destruct (@rangeFiles_skip dir ign g (pre ++ f :: post) pkg Hg)
      as (pkg' & -> & _).
    apply IH.
Qed.

Lemma TryFindPackage_eq (path : bytes) :
  TryFindPackage Unquote Ext disk path
  = match Readdir disk (lookedIn Ext path) with
    | inl _ => None
    | inr files =>
        rangeFiles Unquote disk (lookedIn Ext path) (ignored Ext path) files None
    end.
Proof.
  unfold TryFindPackage, lookedIn, ignored.
  now destruct (Bytes.Equal (Ext path) []).
Qed.

(** X5: the package [TryFindPackage] returns is declared by a file of the
    directory: a regular file of the listing with the suffix [.go], not the
    file the path names, that can be read; and no entry listed before it
    declares a package. *)
Theorem found_package_is_declared (path v : bytes) :
  TryFindPackage Unquote Ext disk path = Some v -> v <> [] ->
  exists pre f post b,
    Readdir disk (lookedIn Ext path) = inr (pre ++ f :: post)
    /\ Forall (fun g => declared' (lookedIn Ext path) (ignored Ext path) g = [])
         pre
    /\ eligible (ignored Ext path) f = true
    /\ ReadFile disk (Filepath.Join [lookedIn Ext path; Os.Name f]) = inr b
    /\ Package Unquote b = Some v.
Proof.
  rewrite TryFindPackage_eq.
  destruct (Readdir disk (lookedIn Ext path)) as [e|files]; [discriminate|].
  intros H Hv.
  destruct (@rangeFiles_sound _ _ files None v H Hv)
    as [|(pre & f & post & b & -> & K)]; [discriminate|].
  now exists pre, f, post, b.
Qed.

(** X6: the first file of the listing that declares a package decides:
    when the entries before a readable [.go] file declare none and the file
    declares [v], [TryFindPackage] returns [v], whatever is listed after
    it. *)
Theorem first_package_is_found (path : bytes) (pre : list Os.FileInfo)
    (f : Os.FileInfo) (post : list Os.FileInfo) (b v : bytes) :
  Readdir disk (lookedIn Ext path) = inr (pre ++ f :: post) ->
  Forall (fun g => declared' (lookedIn Ext path) (ignored Ext path) g = [])
    pre ->
  eligible (ignored Ext path) f = true ->
  ReadFile disk (Filepath.Join [lookedIn Ext path; Os.Name f]) = inr b ->
  Package Unquote b = Some v -> v <> [] ->
  TryFindPackage Unquote Ext disk path = Some v.
Proof.
  intros Hd Hpre He Hb Hv Hne.
  rewrite TryFindPackage_eq, Hd. now apply rangeFiles_first with (b := b).
Qed.

End FinderFacts.

Lemma found_package_is_declared_witness :
  TryFindPackage Strconv.Unquote Tree.Ext Tree.disk (lit "/src/app/main.go")
  = Some (lit "util")
  /\ exists pre f post b,
       Readdir Tree.disk (lookedIn Tree.Ext (lit "/src/app/main.go"))
       = inr (pre ++ f :: post)
       /\ Forall (fun g => declared Strconv.Unquote Tree.disk
                             (lookedIn Tree.Ext (lit "/src/app/main.go"))
                             (ignored Tree.Ext (lit "/src/app/main.go")) g = [])
            pre
       /\ eligible (ignored Tree.Ext (lit "/src/app/main.go")) f = true
       /\ ReadFile Tree.disk
            (Filepath.Join [lookedIn Tree.Ext (lit "/src/app/main.go");
                            Os.Name f]) = inr b
       /\ Package Strconv.Unquote b = Some (lit "util").
Proof.
  split; [reflexivity|].
  apply (@found_package_is_declared Strconv.Unquote Tree.Ext Tree.disk
           (lit "/src/app/main.go") (lit "util")).
  - reflexivity.
  - discriminate.
Defined.

Lemma first_package_is_found_witness :
  TryFindPackage Strconv.Unquote Tree.Ext Tree.disk (lit "/src/app")
  = Some (lit "main").
Proof.
  apply (@first_package_is_found Strconv.Unquote Tree.Ext Tree.disk
           (lit "/src/app")
           [Tree.folder "vendor.go"; Tree.file "README.md"; Tree.file "doc.go";
            Tree.file "lock.go"]
           (Tree.file "main.go") [Tree.file "util.go"]
           (lit "package main // the command" ++ newline :: lit "func main() {}")
           (lit "main")).
  - reflexivity.
  - repeat constructor.
  - reflexivity.
  - reflexivity.
  - reflexivity.
  - discriminate.
Defined.

(** ** More on the manifest scan *)

(** The scan stops at the entry of the largest index that is the
    manifest. *)
Lemma findModule_index (Unquote : bytes -> option bytes)
    (files : list Zip.File) (mf : bytes) (p : Project) (j : nat)
    (f : Zip.File) :
  nth_error files j = Some f -> (1 <= j)%nat ->
  isManifest mf f = true ->
  forall i, (j <= i < length files)%nat ->
    (forall k g, (j < k <= i)%nat -> nth_error files k = Some g ->
                 isManifest mf g = false) ->
    findModule Unquote files mf p i
    = match Zip.Open f with
      | inl err => inl err
      | inr rc =>
          match ReadAll rc with
          | inl err => inl err
          | inr contents =>
              let old := orEmpty (ModulePath Unquote contents) in
              inr (old, match Module p with
                        | [] => setModule p old
                        | _ :: _ => p
                        end)
          end
      end.
Proof.
  intros Hf Hj Hm. induction i as [|i IH]; intros Hi Hlater; [lia|].
  cbn [findModule].
  destruct (Nat.eq_dec j (S i)) as [<-|Hne].
  - rewrite Hf. unfold isManifest in Hm. rewrite Hm. reflexivity.
  - destruct (nth_error files (S i)) as [g|] eqn:Eg.
    + assert (Hg : isManifest mf g = false) by (apply (Hlater (S i)); [lia|exact Eg]).
      unfold isManifest in Hg. rewrite Hg. apply IH; [lia|].
      intros k g' Hk. apply Hlater. lia.
    + apply nth_error_None in Eg. lia.
Qed.

Lemma findModule_split (Unquote : bytes -> option bytes)
    (pre : list Zip.File) (f : Zip.File) (post : list Zip.File)
    (mf : bytes) (p : Project) :
  pre <> [] -> isManifest mf f = true ->
  Forall (fun g => isManifest mf g = false) post ->
  findModule Unquote (pre ++ f :: post) mf p (length (pre ++ f :: post) - 1)
  = match Zip.Open f with
    | inl err => inl err
    | inr rc =>
        match ReadAll rc with
        | inl err => inl err
        | inr contents =>
            let old := orEmpty (ModulePath Unquote contents) in
            inr (old, match Module p with
                      | [] => setModule p old
                      | _ :: _ => p
                      end)
        end
    end.
Proof.
  intros Hpre Hm Hpost.
  apply findModule_index with (j := length pre).
  - now rewrite nth_error_app2, Nat.sub_diag by lia.
  - destruct pre; [congruence|simpl; lia].
  - exact Hm.
  - rewrite length_app. simpl. lia.
  - intros k g Hk Hg. rewrite Forall_forall in Hpost. apply Hpost.
    rewrite nth_error_app2 in Hg by lia.
    destruct (k - length pre)%nat as [|d] eqn:Ed; [lia|].
    simpl in Hg. now apply nth_error_In in Hg.
Qed.

Lemma findModule_Dest (Unquote : bytes -> option bytes)
    (files : list Zip.File) (mf : bytes) (p : Project) (i : nat)
    (old : bytes) (p1 : Project) :
  findModule Unquote files mf p i = inr (old, p1) ->
  Dest p1 = Dest p /\ Repo p1 = Repo p /\ Branch p1 = Branch p.
Proof.
  induction i as [|i IH]; cbn [findModule]; [now intros [= _ <-]|].
  destruct (nth_error files (S i)) as [f|]; [|now intros [= _ <-]].
  destruct (Bytes.Equal _ _); [|exact IH].
  destruct (Zip.Open f) as [e|rc]; [discriminate|].
  destruct (ReadAll rc) as [e|contents]; [discriminate|].
  intros [= _ <-]. now destruct (Module p).
Qed.

Section ScanExtras.

Variable Unquote : bytes -> option bytes.
Variable NewReader : bytes -> result (list Zip.File).
Variable env : Env.

Local Abbreviation unzip' := (unzip Unquote NewReader env).
Local Abbreviation scan p files :=
  (findModule Unquote files (modFile p) p (length files - 1)).

(** X7: of the entries that are the manifest the last one decides, when
    it is not the very first entry of the archive: the scan ends with the
    module path that this entry declares, and an identity that was empty
    becomes that module path. *)
Theorem last_manifest_decides (p : Project) (pre : list Zip.File)
    (f : Zip.File) (post : list Zip.File) (contents : bytes) :
  pre <> [] ->
  isManifest (modFile p) f = true ->
  Forall (fun g => isManifest (modFile p) g = false) post ->
  Zip.Open f = inr (contents, None) ->
  scan p (pre ++ f :: post)
  = inr (orEmpty (ModulePath Unquote contents),
         match Module p with
         | [] => setModule p (orEmpty (ModulePath Unquote contents))
         | _ :: _ => p
         end).
Proof.
  intros Hpre Hm Hpost Hopen.
  rewrite findModule_split by assumption. now rewrite Hopen.
Qed.

(** X8: a manifest that cannot be opened or read to its end makes [unzip]
    return that error before it touches the file system, with the project
    as it was. *)
Theorem unreadable_manifest_aborts (p : Project) (body : bytes)
    (pre : list Zip.File) (f : Zip.File) (post : list Zip.File) (e : error)
    (t : list event) (p' : Project) (r : option error) :
  NewReader body = inr (pre ++ f :: post) ->
  pre <> [] ->
  isManifest (modFile p) f = true ->
  Forall (fun g => isManifest (modFile p) g = false) post ->
  Zip.Open f = inl e \/ (exists data, Zip.Open f = inr (data, Some e)) ->
  runs (unzip' p body) t (p', r) ->
  t = [] /\ p' = p /\ r = Some e.
Proof.
  intros Hr Hpre Hm Hpost Hopen. unfold unzip. rewrite Hr.
  rewrite findModule_split by assumption.
  destruct Hopen as [->|[data ->]]; cbn [ReadAll];
    intros H; apply runs_Ret_inv in H as [-> [= -> ->]]; now repeat split.
Qed.

End ScanExtras.

(** ** Archives that are extracted to the end *)

Lemma entryRun_None (dest old new : bytes) (sr : bool) (f : Zip.File)
    (t : list event) :
  entryRun dest old new sr f t None ->
  map fst t = entryCalls dest old new sr f
  /\ (forall c a, In (c, a) t -> checked c = true -> a = None)
  /\ guard dest f = true /\ readable f.
Proof.
  intros H. unfold entryCalls, readable.
  remember (@None error) as r eqn:Er.
  destruct H as [G | a G D | e G D | e G D O | data e G D O S
                 | rc werr cl G D O S]; try discriminate.
  - rewrite D. repeat split; [|exact G|now left].
    intros c a' [[= <- <-]|[]]. discriminate.
  - rewrite D. unfold delivered. rewrite O.
    destruct werr as [e|]; [discriminate|].
    destruct rc as [data rerr]. simpl in Er. subst rerr.
    repeat split; [|exact G|right; now exists data].
    intros c a' [[= <- <-]|[[= <- <-]|[[= <- <-]|[]]]];
      [reflexivity|reflexivity|discriminate].
Qed.

Lemma entryRun_isExtraction (dest old new : bytes) (sr : bool) (f : Zip.File)
    (t : list event) (r : option error) :
  entryRun dest old new sr f t r ->
  forall c a, In (c, a) t -> isExtraction c = true.
Proof.
  intros H c a Hin.
  inversion H; subst; simpl in Hin;
    repeat match goal with
      | H : _ \/ _ |- _ => destruct H as [H|H]
      | H : (_, _) = (_, _) |- _ => injection H as <- <-
      | H : False |- _ => destruct H
      end; reflexivity.
Qed.

Lemma extract_isExtraction (dest old new : bytes) (sr : bool)
    (files : list Zip.File) (t : list event) (r : option error) :
  runs (extract dest old new sr files) t r ->
  forall c a, In (c, a) t -> isExtraction c = true.
Proof.
  revert t r; induction files as [|f files IH]; intros t r H c a Hin.
  - apply runs_Ret_inv in H as [-> _]. destruct Hin.
  - apply extract_cons_runs in H as (t1 & r1 & H1 & H2).
    destruct r1 as [e|].
    + destruct H2 as [-> _]. eapply entryRun_isExtraction; eassumption.
    + destruct H2 as (t2 & H2 & ->). apply in_app_or in Hin as [Hin|Hin].
      * eapply entryRun_isExtraction; eassumption.
      * eapply IH; eassumption.
Qed.

Lemma extract_None_trace (dest old new : bytes) (sr : bool)
    (files : list Zip.File) (t : list event) :
  runs (extract dest old new sr files) t None ->
  map fst t = flat_map (entryCalls dest old new sr) files
  /\ (forall c a, In (c, a) t -> checked c = true -> a = None)
  /\ Forall (fun f => guard dest f = true /\ readable f) files.
Proof.
  revert t; induction files as [|f files IH]; intros t H.
  - apply runs_Ret_inv in H as [-> _]. repeat split; [intros c a []|constructor].
  - apply extract_cons_runs in H as (t1 & r1 & H1 & H2).
    destruct r1 as [e|]; [destruct H2 as [_ H2]; discriminate|].
    destruct H2 as (t2 & H2 & ->).
    apply entryRun_None in H1 as (E1 & C1 & G1 & R1).
    apply IH in H2 as (E2 & C2 & F2).
    repeat split.
    + cbn [flat_map]. rewrite map_app. f_equal; [exact E1|exact E2].
    + intros c a Hin. apply in_app_or in Hin as [Hin|Hin]; eauto.
    + constructor; [now split|exact F2].
Qed.

Lemma extract_complete (dest old new : bytes) (sr : bool)
    (files : list Zip.File) :
  Forall (fun f => guard dest f = true /\ readable f) files ->
  runs (extract dest old new sr files)
    (map (fun c => (c, None)) (flat_map (entryCalls dest old new sr) files))
    None.
Proof.
  induction 1 as [|f files [G R] _ IH]; [constructor|].
  apply extract_cons_runs. cbn [flat_map]. rewrite map_app.
  exists (map (fun c => (c, @None error)) (entryCalls dest old new sr f)), None.
  split; [|eexists; split; [exact IH|reflexivity]].
  unfold entryCalls. destruct (Zip.IsDir f) eqn:D.
  - now apply er_dir.
  - destruct R as [R|[data R]]; [congruence|].
    unfold delivered. rewrite R. cbn [map].
    apply (@er_copy dest old new sr f (data, None) None None); auto.
Qed.

Section ExtractionExtras.

Variable Unquote : bytes -> option bytes.
Variable NewReader : bytes -> result (list Zip.File).
Variable env : Env.

Local Abbreviation unzip' := (unzip Unquote NewReader env).
Local Abbreviation scan p files :=
  (findModule Unquote files (modFile p) p (length files - 1)).

(** X9: when [unzip] returns no error it has extracted every entry of the
    archive, in the order of the archive: a directory with [MkdirAll], a
    file with [OpenFile] under the mode of the entry, [Copy] of what the
    entry delivers (rewritten or not) and [Close]; then come [RemoveAll]
    and [Rename], and nothing else.  Every entry passed the test of its
    path, every file was read to its end, and no call whose error [unzip]
    looks at failed. *)
Theorem success_extracts_every_entry (p : Project) (body : bytes)
    (t : list event) (p' : Project) :
  runs (unzip' p body) t (p', None) ->
  exists files old p1,
    NewReader body = inr files /\ scan p files = inr (old, p1)
    /\ p' = setDest p1 (resolveDest env p1)
    /\ map fst t = unzipCalls env p old p1 files
    /\ (forall c a, In (c, a) t -> checked c = true -> a = None)
    /\ Forall (fun f => guard (resolveDest env p1) f = true /\ readable f)
         files.
Proof.
  intros H.
  pose proof (@unzip_runs_early Unquote NewReader env p body t p' None H) as K.
  destruct K as [(files & old & p1 & Hr & Hs)|(_ & _ & Hn)]; [|congruence].
  exists files, old, p1. split; [exact Hr|]. split; [exact Hs|].
  pose proof (proj1 (@unzip_runs Unquote NewReader env p body files old p1
                       t p' None Hr Hs) H) as (Ep & t1 & r1 & H1 & H2).
  split; [exact Ep|].
  destruct r1 as [e|]; [destruct H2 as [_ H2]; discriminate|].
  destruct H2 as [a ->].
  apply extract_None_trace in H1 as (E & C & F).
  repeat split.
  - unfold unzipCalls. rewrite map_app. f_equal. exact E.
  - intros c a' Hin. apply in_app_or in Hin as [Hin|Hin]; [eauto|].
    destruct Hin as [[= <- <-]|[[= <- <-]|[]]]; [discriminate|reflexivity].
  - exact F.
Qed.

(** X10: an archive whose entries all pass the test of their path and
    can be read is extracted without error when no call fails: this run of
    [unzip] has the calls of the archive, in order, [RemoveAll] and
    [Rename], and ends with the destination set and no error. *)
Theorem sound_archive_is_extracted (p : Project) (body : bytes)
    (files : list Zip.File) (old : bytes) (p1 : Project) :
  NewReader body = inr files ->
  scan p files = inr (old, p1) ->
  Forall (fun f => guard (resolveDest env p1) f = true /\ readable f) files ->
  runs (unzip' p body)
    (map (fun c => (c, None)) (unzipCalls env p old p1 files))
    (setDest p1 (resolveDest env p1), None).
Proof.
  intros Hr Hs HF.
  apply (@unzip_runs Unquote NewReader env p body files old p1 _ _ _ Hr Hs).
  split; [reflexivity|].
  eexists _, None. split; [apply extract_complete; exact HF|].
  exists None. unfold unzipCalls. now rewrite map_app.
Qed.

End ExtractionExtras.

Lemma last_manifest_decides_witness :
  findModule Strconv.Unquote Demo.archive (modFile Demo.projectNoModule)
    Demo.projectNoModule (length Demo.archive - 1)
  = inr (lit "github.com/old/demo",
         setModule Demo.projectNoModule (lit "github.com/old/demo")).
Proof.
  apply (@last_manifest_decides Strconv.Unquote Demo.projectNoModule
           [Demo.dirEntry "demo-master/"] Demo.goMod [Demo.mainGo]
           (lit "module github.com/old/demo")).
  - discriminate.
  - reflexivity.
  - repeat constructor.
  - reflexivity.
Defined.

Lemma unreadable_manifest_aborts_witness :
  let manifest := {| Zip.Name := lit "demo-master/go.mod"; Zip.Mode := 420;
                     Zip.Open := inl (ErrZip 1) |} in
  let x := Demo.installOn Strconv.Unquote
             [Demo.dirEntry "demo-master/"; manifest; Demo.mainGo]
             Demo.project Demo.env Demo.disk in
  Demo.traceOf x = [] /\ Demo.projectOf x = Demo.project
  /\ Demo.errorOf x = Some (ErrZip 1).
Proof.
  cbv zeta.
  apply (@unreadable_manifest_aborts Strconv.Unquote
           (fun _ => inr [Demo.dirEntry "demo-master/";
                          {| Zip.Name := lit "demo-master/go.mod";
                             Zip.Mode := 420; Zip.Open := inl (ErrZip 1) |};
                          Demo.mainGo])
           Demo.env Demo.project [] [Demo.dirEntry "demo-master/"]
           {| Zip.Name := lit "demo-master/go.mod"; Zip.Mode := 420;
              Zip.Open := inl (ErrZip 1) |}
           [Demo.mainGo] (ErrZip 1)).
  - reflexivity.
  - discriminate.
  - reflexivity.
  - repeat constructor.
  - left. reflexivity.
  - apply installOn_runs.
Defined.

Lemma success_extracts_every_entry_witness :
  let x := Demo.installOn Strconv.Unquote Demo.archive Demo.project Demo.env
             Demo.disk in
  Demo.errorOf x = None
  /\ exists files old p1,
       @inr error _ Demo.archive = inr files
       /\ findModule Strconv.Unquote files (modFile Demo.project) Demo.project
            (length files - 1) = inr (old, p1)
       /\ Demo.projectOf x = setDest p1 (resolveDest Demo.env p1)
       /\ map fst (Demo.traceOf x) = unzipCalls Demo.env Demo.project old p1 files
       /\ (forall c a, In (c, a) (Demo.traceOf x) -> checked c = true ->
                       a = None)
       /\ Forall (fun f => guard (resolveDest Demo.env p1) f = true
                           /\ readable f) files.
Proof.
  cbv zeta. split; [reflexivity|].
  apply (@success_extracts_every_entry Strconv.Unquote
           (fun _ => inr Demo.archive) Demo.env Demo.project []).
  pose proof (installOn_runs Strconv.Unquote Demo.archive Demo.project
                Demo.env Demo.disk) as H.
  cbv zeta in H. exact H.
Defined.

Lemma sound_archive_is_extracted_witness :
  runs (Demo.install Strconv.Unquote Demo.archive Demo.project Demo.env)
    (map (fun c => (c, None))
       (unzipCalls Demo.env Demo.project (lit "github.com/old/demo")
          Demo.project Demo.archive))
    (setDest Demo.project (lit "/work"), None).
Proof.
  apply (@sound_archive_is_extracted Strconv.Unquote
           (fun _ => inr Demo.archive) Demo.env Demo.project []
           Demo.archive (lit "github.com/old/demo") Demo.project).
  - reflexivity.
  - reflexivity.
  - repeat (constructor; [split; [reflexivity|]|]); [left|right|right| ].
    + reflexivity.
    + now eexists.
    + now eexists.
    + constructor.
Defined.

(** ** Replacing a byte sequence that is not empty *)

Lemma Index_Some (s sep : bytes) (i : nat) :
  Bytes.indexOf s sep = Some i -> Bytes.Index s sep = Z.of_nat i.
Proof. unfold Bytes.Index. now intros ->. Qed.

Lemma indexOf_shorter (s sep : bytes) (i : nat) :
  sep <> [] -> Bytes.indexOf s sep = Some i ->
  (length (skipn (i + length sep) s) < length s)%nat.
Proof.
  intros Hsep E. apply indexOf_Some in E as [E _].
  apply (f_equal (@length byte)) in E. rewrite !length_app in E.
  rewrite length_skipn. destruct sep; [congruence|]. simpl in *. lia.
Qed.

Lemma countFrom_fuel (old : bytes) :
  old <> [] ->
  forall n m s, (length s <= n)%nat -> (length s <= m)%nat ->
                Replace.countFrom n s old = Replace.countFrom m s old.
Proof.
  intros Hold.
  assert (Hnil : forall k, Replace.countFrom k [] old = O).
  { intros [|k]; [reflexivity|]. cbn [Replace.countFrom].
    destruct old; [congruence|reflexivity]. }
  induction n as [|n IH]; intros m s Hn Hm.
  - destruct s; [|simpl in Hn; lia]. now rewrite !Hnil.
  - destruct m as [|m].
    { destruct s; [|simpl in Hm; lia]. now rewrite !Hnil. }
    cbn [Replace.countFrom]. unfold Bytes.Index.
    destruct (Bytes.indexOf s old) as [i|] eqn:E; [|reflexivity].
    replace (Z.of_nat i <? 0) with false by (symmetry; apply Z.ltb_ge; lia).
    f_equal. unfold from, len.
    replace (Z.to_nat (Z.of_nat i + Z.of_nat (length old)))
      with (i + length old)%nat by lia.
    pose proof (@indexOf_shorter _ _ _ Hold E). apply IH; lia.
Qed.

(** Without an occurrence nothing is replaced. *)
Lemma Replace_absent (s old new : bytes) (n : Z) :
  old <> [] -> ~ Contains s old -> Replace.Replace s old new n = s.
Proof.
  intros Hold H. apply Index_neg in H. unfold Replace.Replace.
  destruct (n =? 0); [reflexivity|].
  destruct old as [|c o]; [congruence|]. unfold Replace.Count.
  destruct (length s); cbn [Replace.countFrom]; [reflexivity|].
  now replace (Bytes.Index s (c :: o) <? 0) with true
    by (symmetry; apply Z.ltb_lt; lia).
Qed.

(** The first occurrence is replaced, and then the occurrences in what
    follows it. *)
Lemma ReplaceAll_step (s old new : bytes) (i : nat) :
  old <> [] -> Bytes.indexOf s old = Some i ->
  Replace.ReplaceAll s old new
  = firstn i s ++ new
    ++ Replace.ReplaceAll (skipn (i + length old) s) old new.
Proof.
  intros Hold E. pose proof (@indexOf_shorter _ _ _ Hold E) as Hlen.
  pose proof (@Index_Some _ _ _ E) as Ei.
  destruct old as [|c o]; [congruence|].
  unfold Replace.ReplaceAll, Replace.Replace. cbn [Z.eqb Z.ltb Z.compare orb].
  unfold Replace.Count.
  destruct (length s) as [|k] eqn:Ek; [lia|].
  cbn [Replace.countFrom]. rewrite Ei.
  replace (Z.of_nat i <? 0) with false by (symmetry; apply Z.ltb_ge; lia).
  cbn [Replace.replaceLoop]. rewrite Ei.
  unfold upto, from, len. rewrite Nat2Z.id.
  replace (Z.to_nat (Z.of_nat i + Z.of_nat (length (c :: o))))
    with (i + length (c :: o))%nat by lia.
  set (rest := skipn (i + length (c :: o)) s) in *.
  rewrite (@countFrom_fuel (c :: o) Hold k (length rest) rest) by lia.
  do 2 f_equal.
  destruct (Replace.countFrom (length rest) rest (c :: o)); reflexivity.
Qed.

Lemma ReplaceAll_substitute (old new : bytes) :
  old <> [] ->
  forall n s, (length s <= n)%nat ->
              Replace.ReplaceAll s old new = substitute n s old new.
Proof.
  intros Hold. induction n as [|n IH]; intros s Hn.
  - destruct s; [|simpl in Hn; lia]. apply Replace_absent; [exact Hold|].
    intros (pre & post & E). destruct pre, old; [congruence|discriminate..].
  - cbn [substitute]. destruct (Bytes.indexOf s old) as [i|] eqn:E.
    + rewrite (@ReplaceAll_step _ _ new _ Hold E). do 2 f_equal. apply IH.
      pose proof (@indexOf_shorter _ _ _ Hold E). lia.
    + apply Replace_absent; [exact Hold|]. now apply indexOf_None.
Qed.

Lemma substitute_same (old : bytes) (n : nat) (s : bytes) :
  substitute n s old old = s.
Proof.
  revert s; induction n as [|n IH]; intros s; cbn [substitute]; [reflexivity|].
  destruct (Bytes.indexOf s old) as [i|] eqn:E; [|reflexivity].
  rewrite IH. apply indexOf_Some in E as [E _]. now symmetry.
Qed.

Lemma substitute_absent (old new : bytes) (n : nat) (s : bytes) :
  ~ Contains s old -> substitute n s old new = s.
Proof.
  intros H. destruct n; cbn [substitute]; [reflexivity|].
  destruct (Bytes.indexOf s old) as [i|] eqn:E; [|reflexivity].
  exfalso. apply H. apply indexOf_Some in E as [E _]. eexists _, _. exact E.
Qed.

(** ** More on paths *)

Lemma Clean_app_dot (path : bytes) :
  path <> [] ->
  Filepath.Clean (path ++ Filepath.Separator :: Filepath.dot)
  = Filepath.Clean path.
Proof.
  destruct path as [|c t]; [congruence|]. intros _.
  unfold Filepath.Clean. cbn [app].
  change (c :: t ++ Filepath.Separator :: Filepath.dot)
    with ((c :: t) ++ Filepath.Separator :: Filepath.dot).
  rewrite split_app_sep, fold_left_app.
  change (Filepath.split Filepath.dot) with [Filepath.dot].
  reflexivity.
Qed.

(** With an empty identity the final name is the destination itself. *)
Lemma Join_Base_nil (dest : bytes) :
  Filepath.Join [dest; Filepath.Base []] = Filepath.Clean dest.
Proof.
  destruct dest as [|c d]; [reflexivity|].
  cbn [Filepath.Join Filepath.join Filepath.Base].
  now apply Clean_app_dot.
Qed.

Lemma fold_cleanElem_proper (rooted : bool) (es out : list bytes) :
  Forall (fun e => Bytes.Equal e Filepath.dotdot = false) es ->
  fold_left (Filepath.cleanElem rooted) es out
  = rev (filter properName es) ++ out.
Proof.
  intros H; revert out; induction H as [|e es He _ IH]; intros out;
    [reflexivity|].
  cbn [fold_left filter]. rewrite IH.
  unfold Filepath.cleanElem, properName. rewrite He, orb_false_r.
  destruct (Bytes.Equal e [] || Bytes.Equal e Filepath.dot); cbn [negb];
    [reflexivity|].
  cbn [rev]. now rewrite <- app_assoc.
Qed.

Lemma join_app (a k : list bytes) :
  a <> [] -> k <> [] ->
  Filepath.join (a ++ k)
  = Filepath.join a ++ Filepath.Separator :: Filepath.join k.
Proof.
  intros Ha Hk. induction a as [|x a IH]; [congruence|].
  destruct a as [|y a].
  - destruct k; [congruence|reflexivity].
  - cbn [app Filepath.join] in *. rewrite IH by discriminate.
    now rewrite <- app_assoc.
Qed.

Lemma IsAbs_cons (c : byte) (d : bytes) :
  Filepath.IsAbs (c :: d) = true -> Filepath.IsPathSeparator c = true.
Proof.
  unfold Filepath.IsAbs, Filepath.IsPathSeparator. cbn [Bytes.HasPrefix].
  now rewrite andb_true_r.
Qed.

(** A destination given as an absolute path without [${GOPATH}] is taken
    as it is, cleaned. *)
Lemma resolveDest_given (env : Env) (p : Project) :
  Filepath.IsAbs (Dest p) = true ->
  ~ Contains (Dest p) (lit "${GOPATH}") ->
  resolveDest env p = Filepath.Clean (Dest p).
Proof.
  intros Habs Hno. unfold resolveDest.
  destruct (Dest p) as [|c d] eqn:E; [discriminate|].
  rewrite Replace_absent by (discriminate || exact Hno).
  unfold Abs. now rewrite Habs.
Qed.

(** An entry whose name has no [..] element and some proper element
    passes the test, below a destination that is not the root. *)
Lemma guard_proper (dest : bytes) (f : Zip.File) :
  Filepath.IsAbs dest = true ->
  Filepath.Clean dest <> [Filepath.Separator] ->
  Forall (fun e => Bytes.Equal e Filepath.dotdot = false)
    (Filepath.split (Zip.Name f)) ->
  existsb properName (Filepath.split (Zip.Name f)) = true ->
  fpathOf dest f
  = Filepath.Clean dest
    ++ Filepath.Separator
       :: Filepath.join (filter properName (Filepath.split (Zip.Name f))).
Proof.
  intros Habs Hroot Hdd Hex.
  destruct dest as [|c d]; [discriminate|].
  pose proof (@IsAbs_cons _ _ Habs) as Hc.
  unfold fpathOf. cbn [Filepath.Join Filepath.join].
  revert Hroot. unfold Filepath.Clean. cbn [app]. rewrite Hc.
  change (c :: d ++ Filepath.Separator :: Zip.Name f)
    with ((c :: d) ++ Filepath.Separator :: Zip.Name f).
  rewrite split_app_sep, fold_left_app.
  set (out := fold_left (Filepath.cleanElem true) (Filepath.split (c :: d)) []).
  intros Hroot.
  rewrite fold_cleanElem_proper by exact Hdd.
  rewrite rev_app_distr, rev_involutive.
  rewrite join_app.
  - reflexivity.
  - intros E. apply Hroot. now rewrite E.
  - apply existsb_exists in Hex as (x & Hx & Hp). intros E.
    assert (Hin : In x (filter properName (Filepath.split (Zip.Name f))))
      by (apply filter_In; now split).
    rewrite E in Hin. destruct Hin.
Qed.

(** Nothing passes the test below the root. *)
Lemma guard_root (dest : bytes) (f : Zip.File) :
  Filepath.IsAbs dest = true ->
  Filepath.Clean dest = [Filepath.Separator] ->
  guard dest f = false.
Proof.
  intros Habs Hroot. unfold guard, fpathOf. rewrite Hroot.
  destruct dest as [|c d]; [discriminate|].
  cbn [Filepath.Join].
  clear Hroot. remember (Filepath.Clean _) as fpath eqn:Ef.
  destruct (@Clean_rooted (Filepath.join [c :: d; Zip.Name f]))
    as (names & Hn & En); [exact Habs|].
  assert (Ef' : fpath = Filepath.Separator :: Filepath.join names)
    by (rewrite Ef; exact En).
  rewrite Ef'. clear Ef Ef' En fpath.
  cbn [app Bytes.HasPrefix]. rewrite byte_eqb_refl. cbn [andb].
  destruct names as [|e names]; [reflexivity|].
  apply Forall_inv in Hn. unfold goodName in Hn.
  apply andb_true_iff in Hn as [Hp Hs].
  destruct e as [|x e]; [discriminate|].
  cbn [noSep forallb] in Hs. apply andb_true_iff in Hs as [Hx _].
  apply negb_true_iff in Hx. unfold Filepath.IsPathSeparator in Hx.
  destruct names; cbn [Filepath.join app Bytes.HasPrefix]; now rewrite Hx.
Qed.

(** ** More on [unzip] *)

Section UnzipExtras.

Variable Unquote : bytes -> option bytes.
Variable NewReader : bytes -> result (list Zip.File).
Variable env : Env.

Local Abbreviation unzip' := (unzip Unquote NewReader env).
Local Abbreviation scan p files :=
  (findModule Unquote files (modFile p) p (length files - 1)).

(** The calls of the loop come first in a run of [unzip]. *)
Lemma unzip_extraction_calls (p : Project) (body : bytes)
    (files : list Zip.File) (old : bytes) (p1 : Project)
    (t : list event) (p' : Project) (r : option error) :
  NewReader body = inr files ->
  scan p files = inr (old, p1) ->
  runs (unzip' p body) t (p', r) ->
  p' = setDest p1 (resolveDest env p1)
  /\ exists t1 r1 t2,
       runs (extract (resolveDest env p1) old (Module p1)
               (negb (Bytes.Equal old (Module p1))) files) t1 r1
       /\ t = t1 ++ t2
       /\ (forall c a, In (c, a) t1 -> isExtraction c = true)
       /\ match r1 with
          | Some e => t2 = [] /\ r = Some e
          | None => exists a, t2 = [(RemoveAll (newpathOf env p1), a);
                                    (Rename (rootOf env p p1)
                                       (newpathOf env p1), r)]
          end.
Proof.
  intros Hr Hs H.
  pose proof (proj1 (@unzip_runs Unquote NewReader env p body files old p1
                       t p' r Hr Hs) H) as (Ep & t1 & r1 & H1 & H2).
  split; [exact Ep|].
  destruct r1 as [e|].
  - destruct H2 as [-> ->]. exists t1, (Some e), []. rewrite app_nil_r.
    repeat split; try assumption. now apply extract_isExtraction with (1 := H1).
  - destruct H2 as [a ->].
    exists t1, None, [(RemoveAll (newpathOf env p1), a);
                      (Rename (rootOf env p p1) (newpathOf env p1), r)].
    repeat split; try assumption.
    + now apply extract_isExtraction with (1 := H1).
    + now exists a.
Qed.

(** X11: when the archive declares an identity, what is copied into a
    file is the content of its entry with the occurrences of that identity
    replaced by the identity of the project, from the left, each one after
    the end of the one before; an entry that does not hold the identity is
    copied as it is. *)
Theorem old_identity_is_substituted (p : Project) (body : bytes)
    (files : list Zip.File) (old : bytes) (p1 : Project)
    (t : list event) (p' : Project) (r : option error) :
  NewReader body = inr files ->
  scan p files = inr (old, p1) ->
  old <> [] ->
  runs (unzip' p body) t (p', r) ->
  forall name data a, In (Copy name data, a) t ->
    exists f stored rerr,
      In f files /\ name = fpathOf (resolveDest env p1) f
      /\ Zip.Open f = inr (stored, rerr)
      /\ data = substitute (length stored) stored old (Module p1)
      /\ (~ Contains stored old -> data = stored).
Proof.
  intros Hr Hs Hold H name data a Hin.
  destruct (@unzip_extraction_calls _ _ _ _ _ _ _ _ Hr Hs H)
    as (_ & t1 & r1 & t2 & H1 & -> & _ & H2).
  assert (Hin1 : In (Copy name data, a) t1).
  { apply in_app_or in Hin as [Hin|Hin]; [exact Hin|].
    destruct r1 as [e|]; [destruct H2 as [-> _]; destruct Hin|].
    destruct H2 as [a0 ->].
    destruct Hin as [Hin|[Hin|[]]]; discriminate. }
  destruct (@extract_copies _ _ _ _ _ _ _ H1 _ _ _ Hin1)
    as (f & [stored rerr] & Hf & -> & Ho & -> & _ & _).
  exists f, stored, rerr.
  assert (E : written old (Module p1) (negb (Bytes.Equal old (Module p1)))
                (stored, rerr)
              = substitute (length stored) stored old (Module p1)).
  { unfold written. cbn [fst].
    destruct (Bytes.Equal old (Module p1)) eqn:Eq; cbn [negb].
    - apply Equal_iff in Eq. rewrite <- Eq. now rewrite substitute_same.
    - now apply ReplaceAll_substitute. }
  repeat split; try assumption.
  intros Hno. rewrite E. now apply substitute_absent.
Qed.

(** X12: a destination given as an absolute path without [${GOPATH}] is
    the destination [unzip] extracts to, cleaned, whatever [GOPATH] and the
    working directory are. *)
Theorem absolute_destination_is_kept (p : Project) (body : bytes)
    (files : list Zip.File) (old : bytes) (p1 : Project)
    (t : list event) (p' : Project) (r : option error) :
  NewReader body = inr files ->
  scan p files = inr (old, p1) ->
  Filepath.IsAbs (Dest p) = true ->
  ~ Contains (Dest p) (lit "${GOPATH}") ->
  runs (unzip' p body) t (p', r) ->
  Dest p' = Filepath.Clean (Dest p)
  /\ forall c a, In (c, a) t -> isExtraction c = true ->
       exists f, In f files
                 /\ target c = Filepath.Join [Filepath.Clean (Dest p); Zip.Name f].
Proof.
  intros Hr Hs Habs Hno H.
  destruct (@findModule_Dest _ _ _ _ _ _ _ Hs) as (Ed & _ & _).
  assert (E : resolveDest env p1 = Filepath.Clean (Dest p))
    by (rewrite <- Ed; apply resolveDest_given; now rewrite Ed).
  destruct (@unzip_extraction_calls _ _ _ _ _ _ _ _ Hr Hs H)
    as (-> & t1 & r1 & t2 & H1 & -> & _ & H2).
  split; [exact E|].
  intros c a Hin Hc. apply in_app_or in Hin as [Hin|Hin].
  - destruct (@extract_calls _ _ _ _ _ _ _ H1 _ _ Hin) as (f & Hf & _ & Ht).
    exists f. split; [exact Hf|]. rewrite Ht. unfold fpathOf. now rewrite E.
  - destruct r1 as [e|]; [destruct H2 as [-> _]; destruct Hin|].
    destruct H2 as [a0 ->].
    destruct Hin as [[= <- <-]|[[= <- <-]|[]]]; discriminate.
Qed.

(** X14: when the identity is empty after the scan (the project has none
    and the archive declares none), the final name of the extracted root is
    the destination itself: unless the loop over the archive ends in an
    error, [unzip] ends with [RemoveAll] on the destination directory, below
    which everything the loop has created lies, and [Rename] with the
    destination as the new name. *)
Theorem empty_identity_removes_destination (p : Project) (body : bytes)
    (t : list event) (p' : Project) (r : option error) :
  runs (unzip' p body) t (p', r) ->
  Module p' = [] ->
  (r <> None /\ forall c a, In (c, a) t -> isExtraction c = true)
  \/ exists t1 a,
       t = t1 ++ [(RemoveAll (Filepath.Clean (Dest p')), a);
                  (Rename (Filepath.Join [Dest p'; compressedRootFolder p])
                     (Filepath.Clean (Dest p')), r)]
       /\ forall c a', In (c, a') t1 ->
            Bytes.HasPrefix (target c)
              (Filepath.Clean (Dest p') ++ [Filepath.Separator]) = true.
Proof.
  intros H Hm.
  pose proof (@unzip_runs_early Unquote NewReader env p body t p' r H) as K.
  destruct K as [(files & old & p1 & Hr & Hs)|(-> & _ & Hn)];
    [|left; split; [exact Hn|intros c a []]].
  destruct (@unzip_extraction_calls _ _ _ _ _ _ _ _ Hr Hs H)
    as (-> & t1 & r1 & t2 & H1 & -> & Hx & H2).
  cbn [Module Dest setDest] in *.
  assert (En : newpathOf env p1 = Filepath.Clean (resolveDest env p1))
    by (unfold newpathOf; rewrite Hm; apply Join_Base_nil).
  destruct r1 as [e|].
  - left. destruct H2 as [-> ->]. rewrite app_nil_r. split; [discriminate|exact Hx].
  - right. destruct H2 as [a0 ->]. exists t1, a0. split.
    + now rewrite <- En.
    + intros c a' Hin.
      destruct (@extract_calls _ _ _ _ _ _ _ H1 _ _ Hin) as (f & _ & G & ->).
      exact G.
Qed.

(** X16: when the destination is the root of the file system, no entry
    passes the test of its path: [unzip] returns the illegal path of the
    first entry of the archive and touches nothing. *)
Theorem root_destination_refuses_all (p : Project) (body : bytes)
    (f : Zip.File) (files : list Zip.File) (old : bytes) (p1 : Project)
    (t : list event) (p' : Project) (r : option error) :
  NewReader body = inr (f :: files) ->
  scan p (f :: files) = inr (old, p1) ->
  Filepath.IsAbs (resolveDest env p1) = true ->
  Filepath.Clean (resolveDest env p1) = [Filepath.Separator] ->
  runs (unzip' p body) t (p', r) ->
  t = [] /\ r = Some (ErrIllegalPath (fpathOf (resolveDest env p1) f)).
Proof.
  intros Hr Hs Habs Hroot H.
  pose proof (proj1 (@unzip_runs Unquote NewReader env p body (f :: files)
                       old p1 t p' r Hr Hs) H) as (_ & t1 & r1 & H1 & H2).
  apply extract_cons_runs in H1 as (t0 & r0 & H0 & H1).
  pose proof (@guard_root _ f Habs Hroot) as G.
  destruct H0; try congruence.
  destruct H1 as [-> ->]. now destruct H2 as [-> ->].
Qed.

End UnzipExtras.

(** X15: an entry is not refused without need: below an absolute
    destination that is not the root, an entry whose name has no [..]
    element and names something passes the test of its path; it goes to
    the destination, cleaned, followed by the proper elements of its
    name. *)
Theorem proper_entry_passes (dest : bytes) (f : Zip.File) :
  Filepath.IsAbs dest = true ->
  Filepath.Clean dest <> [Filepath.Separator] ->
  Forall (fun e => Bytes.Equal e Filepath.dotdot = false)
    (Filepath.split (Zip.Name f)) ->
  existsb properName (Filepath.split (Zip.Name f)) = true ->
  guard dest f = true
  /\ fpathOf dest f
     = Filepath.Clean dest
       ++ Filepath.Separator
          :: Filepath.join (filter properName (Filepath.split (Zip.Name f))).
Proof.
  intros Habs Hroot Hdd Hex.
  pose proof (@guard_proper dest f Habs Hroot Hdd Hex) as E.
  split; [|exact E].
  unfold guard. rewrite E.
  change (Filepath.Clean dest ++ Filepath.Separator :: ?k)
    with (Filepath.Clean dest ++ [Filepath.Separator] ++ k).
  rewrite app_assoc. apply HasPrefix_app.
Qed.

Lemma old_identity_is_substituted_witness :
  let x := Demo.installOn Strconv.Unquote Demo.archive Demo.project Demo.env
             Demo.disk in
  let name := lit "/work/demo-master/main.go" in
  In (Copy name Demo.mainGoRewritten, None) (Demo.traceOf x)
  /\ exists f stored rerr,
       In f Demo.archive
       /\ name = fpathOf (resolveDest Demo.env Demo.project) f
       /\ Zip.Open f = inr (stored, rerr)
       /\ Demo.mainGoRewritten
          = substitute (length stored) stored (lit "github.com/old/demo")
              (Module Demo.project)
       /\ (~ Contains stored (lit "github.com/old/demo") ->
           Demo.mainGoRewritten = stored).
Proof.
  cbv zeta.
  assert (Hin : In (Copy (lit "/work/demo-master/main.go") Demo.mainGoRewritten,
                    None)
                  (Demo.traceOf
                     (Demo.installOn Strconv.Unquote Demo.archive Demo.project
                        Demo.env Demo.disk)))
    by (vm_compute; auto 12).
  split; [exact Hin|].
  apply (@old_identity_is_substituted Strconv.Unquote
           (fun _ => inr Demo.archive) Demo.env Demo.project []
           Demo.archive (lit "github.com/old/demo") Demo.project
           _ _ _ eq_refl eq_refl ltac:(discriminate)
           (installOn_runs Strconv.Unquote Demo.archive Demo.project
              Demo.env Demo.disk)
           _ _ _ Hin).
Defined.

Lemma absolute_destination_is_kept_witness :
  let x := Demo.installOn Strconv.Unquote Demo.archive Demo.project
             Demo.envEscape Demo.disk in
  Dest (Demo.projectOf x) = Filepath.Clean (Dest Demo.project)
  /\ forall c a, In (c, a) (Demo.traceOf x) -> isExtraction c = true ->
       exists f, In f Demo.archive
                 /\ target c
                    = Filepath.Join [Filepath.Clean (Dest Demo.project);
                                     Zip.Name f].
Proof.
  cbv zeta.
  apply (@absolute_destination_is_kept Strconv.Unquote
           (fun _ => inr Demo.archive) Demo.envEscape Demo.project []
           Demo.archive (lit "github.com/old/demo") Demo.project
           (Demo.traceOf (Demo.installOn Strconv.Unquote Demo.archive
                            Demo.project Demo.envEscape Demo.disk))
           _ (Demo.errorOf (Demo.installOn Strconv.Unquote Demo.archive
                              Demo.project Demo.envEscape Demo.disk))
           eq_refl eq_refl).
  - reflexivity.
  - apply Index_neg. reflexivity.
  - apply installOn_runs.
Defined.

Lemma empty_identity_removes_destination_witness :
  let x := Demo.installOn Strconv.Unquote Demo.archiveNoManifest
             Demo.projectNoModule Demo.env Demo.disk in
  (In (Copy (lit "/work/demo-master/main.go") (lit "package main"), None)
      (Demo.traceOf x)
   /\ In (RemoveAll (lit "/work"), None) (Demo.traceOf x)
   /\ Demo.diskOf x = [])
  /\ ((Demo.errorOf x <> None
       /\ forall c a, In (c, a) (Demo.traceOf x) -> isExtraction c = true)
      \/ exists t1 a,
           Demo.traceOf x
           = t1 ++ [(RemoveAll (Filepath.Clean (Dest (Demo.projectOf x))), a);
                    (Rename (Filepath.Join
                               [Dest (Demo.projectOf x);
                                compressedRootFolder Demo.projectNoModule])
                       (Filepath.Clean (Dest (Demo.projectOf x))),
                     Demo.errorOf x)]
           /\ forall c a', In (c, a') t1 ->
                Bytes.HasPrefix (target c)
                  (Filepath.Clean (Dest (Demo.projectOf x))
                   ++ [Filepath.Separator]) = true).
Proof.
  cbv zeta. split; [vm_compute; auto 12|].
  apply (@empty_identity_removes_destination Strconv.Unquote
           (fun _ => inr Demo.archiveNoManifest) Demo.env
           Demo.projectNoModule []).
  - apply installOn_runs.
  - reflexivity.
Defined.

Lemma root_destination_refuses_all_witness :
  let p := setDest Demo.project (lit "/") in
  let x := Demo.installOn Strconv.Unquote Demo.archive p Demo.env Demo.disk in
  fpathOf (resolveDest Demo.env p) (Demo.dirEntry "demo-master/")
  = lit "/demo-master"
  /\ Demo.traceOf x = []
  /\ Demo.errorOf x
     = Some (ErrIllegalPath
               (fpathOf (resolveDest Demo.env p) (Demo.dirEntry "demo-master/"))).
Proof.
  cbv zeta. split; [reflexivity|].
  apply (@root_destination_refuses_all Strconv.Unquote
           (fun _ => inr Demo.archive) Demo.env
           (setDest Demo.project (lit "/")) []
           (Demo.dirEntry "demo-master/") [Demo.goMod; Demo.mainGo]
           (lit "github.com/old/demo") (setDest Demo.project (lit "/"))
           _ (Demo.projectOf
                (Demo.installOn Strconv.Unquote Demo.archive
                   (setDest Demo.project (lit "/")) Demo.env Demo.disk))
           _ eq_refl eq_refl eq_refl eq_refl).
  apply installOn_runs.
Defined.

Lemma proper_entry_passes_witness :
  let f := Demo.fileEntry "demo-master/./cmd//main.go" "package main" in
  guard (lit "/work/") f = true
  /\ fpathOf (lit "/work/") f
     = Filepath.Clean (lit "/work/")
       ++ Filepath.Separator
          :: Filepath.join (filter properName (Filepath.split (Zip.Name f))).
Proof.
  cbv zeta.
  apply (@proper_entry_passes (lit "/work/")
           (Demo.fileEntry "demo-master/./cmd//main.go" "package main")).
  - reflexivity.
  - discriminate.
  - vm_compute. repeat constructor.
  - reflexivity.
Defined.

Lemma run_runs_pair {W A B : Type} (os : call -> W -> option error * W)
    (m : prog (A * B)) (w : W) :
  runs m (snd (run os m w))
    (fst (fst (fst (run os m w))), snd (fst (fst (run os m w)))).
Proof.
  pose proof (run_runs os m w) as H.
  destruct (run os m w) as [[[a b] w'] t]. exact H.
Qed.

Section InstallExtras.

Variable Unquote : bytes -> option bytes.
Variable NewReader : bytes -> result (list Zip.File).
Variable env : Env.
Variable download : Project -> result bytes.

Local Abbreviation unzip' := (unzip Unquote NewReader env).
Local Abbreviation Install' := (Install Unquote NewReader env download).

(** X13: with [GOPATH] empty or absolute and a working directory that is
    known, [Install] resolves the destination to an absolute path, and
    every file or directory that it creates or writes while it goes
    through the archive lies strictly inside that destination. *)
Theorem wellformed_environment_is_safe (p : Project)
    (t : list event) (p' : Project) (r : option error) :
  envAbsolute env ->
  runs (Install' p) t (p', r) ->
  (t <> [] -> Filepath.IsAbs (Dest p') = true)
  /\ forall c a, In (c, a) t -> isExtraction c = true ->
                 inside (Dest p') (target c) = true.
Proof.
  intros Henv H. unfold Install in H.
  destruct (download p) as [e|body].
  { apply runs_Ret_inv in H as [-> _]. split; [congruence|intros c a []]. }
  pose proof (@unzip_runs_early Unquote NewReader env p body t p' r H) as K.
  destruct K as [(files & old & p1 & Hr & Hs)|(-> & _ & _)];
    [|split; [congruence|intros c a []]].
  destruct (@unzip_extraction_calls _ _ _ _ _ _ _ _ _ _ _ Hr Hs H)
    as (-> & t1 & r1 & t2 & H1 & -> & _ & H2).
  pose proof (@resolveDest_abs env p1 Henv) as Habs.
  split; [intros _; exact Habs|].
  intros c a Hin Hc. cbn [Dest setDest].
  apply in_app_or in Hin as [Hin|Hin].
  - destruct (@extract_calls _ _ _ _ _ _ _ H1 _ _ Hin) as (f & _ & G & ->).
    now apply guard_inside.
  - destruct r1 as [e|]; [destruct H2 as [-> _]; destruct Hin|].
    destruct H2 as [a0 ->].
    destruct Hin as [[= <- <-]|[[= <- <-]|[]]]; discriminate.
Qed.

(** X17: a project made by [New] takes the identity of the archive: when
    the manifest is found and read, the project ends with the module path
    the manifest declares, whatever [unzip] returns, and since that is the
    identity of the archive too, every file is copied as the archive has
    it. *)
Theorem new_project_takes_archive_identity (dest repo body : bytes)
    (pre : list Zip.File) (f : Zip.File) (post : list Zip.File)
    (contents : bytes) (t : list event) (p' : Project) (r : option error) :
  NewReader body = inr (pre ++ f :: post) ->
  pre <> [] ->
  isManifest (modFile (New dest repo)) f = true ->
  Forall (fun g => isManifest (modFile (New dest repo)) g = false) post ->
  Zip.Open f = inr (contents, None) ->
  runs (unzip' (New dest repo) body) t (p', r) ->
  Module p' = orEmpty (ModulePath Unquote contents)
  /\ Repo p' = repo /\ Branch p' = lit "master"
  /\ forall name data a, In (Copy name data, a) t ->
       exists g stored rerr,
         In g (pre ++ f :: post) /\ name = fpathOf (Dest p') g
         /\ Zip.Open g = inr (stored, rerr) /\ data = stored.
Proof.
  intros Hr Hpre Hm Hpost Hopen H.
  set (old := orEmpty (ModulePath Unquote contents)).
  assert (Hs : findModule Unquote (pre ++ f :: post) (modFile (New dest repo))
                 (New dest repo) (length (pre ++ f :: post) - 1)
               = inr (old, setModule (New dest repo) old)).
  { rewrite findModule_split by assumption. now rewrite Hopen. }
  destruct (@unzip_extraction_calls _ _ _ _ _ _ _ _ _ _ _ Hr Hs H)
    as (-> & t1 & r1 & t2 & H1 & -> & _ & H2).
  cbn [Module Repo Branch Dest setDest setModule New] in *.
  repeat split.
  intros name data a Hin.
  assert (Hin1 : In (Copy name data, a) t1).
  { apply in_app_or in Hin as [Hin|Hin]; [exact Hin|].
    destruct r1 as [e|]; [destruct H2 as [-> _]; destruct Hin|].
    destruct H2 as [a0 ->].
    destruct Hin as [Hin|[Hin|[]]]; discriminate. }
  destruct (@extract_copies _ _ _ _ _ _ _ H1 _ _ _ Hin1)
    as (g & [stored rerr] & Hg & -> & Ho & -> & _ & _).
  exists g, stored, rerr. repeat split; try assumption.
  unfold written. now rewrite Equal_refl.
Qed.

End InstallExtras.

Lemma wellformed_environment_is_safe_witness :
  let x := run SimFS.os
             (Install Strconv.Unquote (fun _ => inr Demo.archive) Demo.env
                (fun _ => inr []) Demo.projectEscape) Demo.disk in
  Dest (fst (fst (fst x))) = lit "/go/src/github.com/old"
  /\ (snd x <> [] -> Filepath.IsAbs (Dest (fst (fst (fst x)))) = true)
  /\ forall c a, In (c, a) (snd x) -> isExtraction c = true ->
                 inside (Dest (fst (fst (fst x)))) (target c) = true.
Proof.
  cbv zeta. split; [vm_compute; reflexivity|].
  apply (@wellformed_environment_is_safe Strconv.Unquote
           (fun _ => inr Demo.archive) Demo.env (fun _ => inr [])
           Demo.projectEscape _ _
           (snd (fst (fst (run SimFS.os
                             (Install Strconv.Unquote
                                (fun _ => inr Demo.archive) Demo.env
                                (fun _ => inr []) Demo.projectEscape)
                             Demo.disk))))).
  - split; [right; reflexivity|].
    exists (lit "/home/user"). split; reflexivity.
  - exact (run_runs_pair SimFS.os
             (Install Strconv.Unquote (fun _ => inr Demo.archive) Demo.env
                (fun _ => inr []) Demo.projectEscape) Demo.disk).
Defined.

Lemma new_project_takes_archive_identity_witness :
  let x := Demo.installOn Strconv.Unquote Demo.archive Demo.projectNoModule
             Demo.env Demo.disk in
  Module (Demo.projectOf x) = orEmpty (ModulePath Strconv.Unquote
                                         (lit "module github.com/old/demo"))
  /\ Repo (Demo.projectOf x) = lit "github.com/old/demo"
  /\ Branch (Demo.projectOf x) = lit "master"
  /\ forall name data a, In (Copy name data, a) (Demo.traceOf x) ->
       exists g stored rerr,
         In g Demo.archive /\ name = fpathOf (Dest (Demo.projectOf x)) g
         /\ Zip.Open g = inr (stored, rerr) /\ data = stored.
Proof.
  cbv zeta.
  apply (@new_project_takes_archive_identity Strconv.Unquote
           (fun _ => inr Demo.archive) Demo.env
           (lit "/work") (lit "github.com/old/demo") []
           [Demo.dirEntry "demo-master/"] Demo.goMod [Demo.mainGo]
           (lit "module github.com/old/demo")
           (Demo.traceOf (Demo.installOn Strconv.Unquote Demo.archive
                            Demo.projectNoModule Demo.env Demo.disk))
           (Demo.projectOf (Demo.installOn Strconv.Unquote Demo.archive
                              Demo.projectNoModule Demo.env Demo.disk))
           (Demo.errorOf (Demo.installOn Strconv.Unquote Demo.archive
                            Demo.projectNoModule Demo.env Demo.disk))).
  - reflexivity.
  - discriminate.
  - reflexivity.
  - repeat constructor.
  - reflexivity.
  - exact (installOn_runs Strconv.Unquote Demo.archive Demo.projectNoModule
             Demo.env Demo.disk).
Defined.

Section MoreFinderFacts.

Variable Unquote : bytes -> option bytes.
Variable Ext : bytes -> bytes.
Variable disk : Disk.

(** X19: when the directory cannot be listed, or no entry of its listing
    declares a package, [TryFindPackage] returns nothing: the nil slice, or
    an empty one when the last file it read declares the empty package. *)
Theorem nothing_declared_nothing_found (path : bytes) :
  (forall files, Readdir disk (lookedIn Ext path) = inr files ->
     Forall (fun g => declared Unquote disk (lookedIn Ext path)
                        (ignored Ext path) g = []) files) ->
  orEmpty (TryFindPackage Unquote Ext disk path) = [].
Proof.
  intros H. rewrite TryFindPackage_eq.
  destruct (Readdir disk (lookedIn Ext path)) as [e|files]; [reflexivity|].
  specialize (H files eq_refl).
  destruct (rangeFiles Unquote disk (lookedIn Ext path) (ignored Ext path)
              files None) as [[|c v]|] eqn:E; [reflexivity| |reflexivity].
  exfalso.
  destruct (@rangeFiles_sound Unquote disk _ _ files None (c :: v) E)
    as [|(pre & f & post & b & -> & _ & He & Hb & Hp)];
    [discriminate|discriminate|].
  rewrite Forall_forall in H. specialize (H f (in_elt f pre post)).
  unfold declared in H. rewrite He, Hb, Hp in H. discriminate.
Qed.

End MoreFinderFacts.

Section LeavesFields.

Variable Unquote : bytes -> option bytes.
Variable NewReader : bytes -> result (list Zip.File).
Variable env : Env.

Local Abbreviation unzip' := (unzip Unquote NewReader env).

(** X18: [unzip] leaves the remote side of the project alone: [Repo] and
    [Branch] are never changed, and an identity that is not empty is never
    overwritten by the one of the archive; [Dest] is changed only once the
    archive is open and the scan is through. *)
Theorem unzip_leaves_remote_fields (p : Project) (body : bytes)
    (t : list event) (p' : Project) (r : option error) :
  runs (unzip' p body) t (p', r) ->
  Repo p' = Repo p /\ Branch p' = Branch p
  /\ (Module p <> [] -> Module p' = Module p)
  /\ (Dest p' <> Dest p ->
      exists files old p1,
        NewReader body = inr files
        /\ findModule Unquote files (modFile p) p (length files - 1)
           = inr (old, p1)
        /\ Dest p' = resolveDest env p1).
Proof.
  intros H.
  pose proof (@unzip_runs_early Unquote NewReader env p body t p' r H) as K.
  destruct K as [(files & old & p1 & Hr & Hs)|(_ & -> & _)];
    [|repeat split; congruence].
  destruct (@unzip_extraction_calls _ _ _ _ _ _ _ _ _ _ _ Hr Hs H)
    as (-> & _).
  destruct (@findModule_Dest _ _ _ _ _ _ _ Hs) as (_ & ERepo & EBranch).
  pose proof (@findModule_Module _ _ _ _ _ _ _ (Nat.le_refl _) Hs) as EM.
  cbn [Repo Branch Module Dest setDest].
  repeat split; try assumption.
  - intros Hne. rewrite EM. destruct (Module p); congruence.
  - intros _. now exists files, old, p1.
Qed.

End LeavesFields.

Lemma nothing_declared_nothing_found_witness :
  Readdir Tree.disk (lookedIn Tree.Ext (lit "/src/lib")) = inl (ErrOS 2)
  /\ orEmpty (TryFindPackage Strconv.Unquote Tree.Ext Tree.disk (lit "/src/lib"))
     = [].
Proof.
  split; [reflexivity|].
  apply (@nothing_declared_nothing_found Strconv.Unquote Tree.Ext Tree.disk
           (lit "/src/lib")).
  intros files H. discriminate H.
Defined.

Lemma unzip_leaves_remote_fields_witness :
  let x := Demo.installOn Strconv.Unquote Demo.archive Demo.project
             Demo.envEscape Demo.disk in
  Repo (Demo.projectOf x) = Repo Demo.project
  /\ Branch (Demo.projectOf x) = Branch Demo.project
  /\ (Module Demo.project <> [] ->
      Module (Demo.projectOf x) = Module Demo.project)
  /\ (Dest (Demo.projectOf x) <> Dest Demo.project ->
      exists files old p1,
        @inr error _ Demo.archive = inr files
        /\ findModule Strconv.Unquote files (modFile Demo.project)
             Demo.project (length files - 1) = inr (old, p1)
        /\ Dest (Demo.projectOf x) = resolveDest Demo.envEscape p1).
Proof.
  cbv zeta.
  apply (@unzip_leaves_remote_fields Strconv.Unquote
           (fun _ => inr Demo.archive) Demo.envEscape Demo.project []
           (Demo.traceOf (Demo.installOn Strconv.Unquote Demo.archive
                            Demo.project Demo.envEscape Demo.disk))
           (Demo.projectOf (Demo.installOn Strconv.Unquote Demo.archive
                              Demo.project Demo.envEscape Demo.disk))
           (Demo.errorOf (Demo.installOn Strconv.Unquote Demo.archive
                            Demo.project Demo.envEscape Demo.disk))).
  exact (installOn_runs Strconv.Unquote Demo.archive Demo.project
           Demo.envEscape Demo.disk).
Defined.
